(** * PerpetualPositionManager: position and collateral accounting

    A shallow embedding of
    [packages/core/contracts/financial-templates/perpetual-multiparty/PerpetualPositionManager.sol]
    together with the fixed-point and fee-accrual helpers it is built on,
    and the properties of the ledger proved over it.

    Conventions.
    - A [uint256] (and a [FixedPoint.Unsigned], which wraps one) is a [Z]
      in the range [0 .. 2^256 - 1]; every checked operation writes its
      range test out and reverts outside it.
    - [mapping(address => PositionData)] is a [gmap] whose missing keys
      read as the all-zero record, as Solidity storage does.
    - A contract function is a computation in the monad [M]: it reads and
      writes the contract storage and either returns or reverts with the
      message of the failing [require].  A revert discards every write.
    - A [PositionData storage] pointer is represented by the sponsor
      address it points to; reads through it read the current storage.
    - Calls to the collateral and synthetic token contracts are appended
      to the [tokenCalls] log of the state, in program order.  The token
      contracts are not part of the ledger: how they answer a call is the
      [tokenOutcome] field of the state, which the environment may change
      between two operations, and a call that fails reverts the operation.
      The [nonReentrant] guard is not represented: no modelled external
      call calls back. *)

From stdpp Require Import gmap strings list fin_maps.
From Stdlib Require Import ZArith Lia.

Local Open Scope string_scope.
Local Open Scope Z_scope.

(** ** Results and the contract monad *)

Inductive Result (A : Type) : Type :=
| Ok (a : A)
| Revert (msg : string).
Arguments Ok {A} a.
Arguments Revert {A} msg.

Definition address := N.

(** [uint256] range. *)
Definition MAX_UINT256 : Z := 2 ^ 256 - 1.
Definition uint256 (x : Z) : Prop := 0 <= x <= MAX_UINT256.

(** struct PositionData *)
Record PositionData : Type := mkPositionData {
  tokensOutstanding : Z;
  withdrawalRequestPassTimestamp : Z;
  withdrawalRequestAmount : Z;
  rawCollateral : Z;
  transferPositionRequestPassTimestamp : Z
}.

(** The value a storage slot that was never written (or was deleted) reads as. *)
Definition emptyPosition : PositionData := mkPositionData 0 0 0 0 0.

(** External token calls made by the contract. *)
Inductive TokenCall : Type :=
| collateral_safeTransferFrom (from : address) (amount : Z)
| collateral_safeTransfer (to : address) (amount : Z)
| tokenCurrency_mint (to : address) (amount : Z)
| tokenCurrency_safeTransferFrom (from : address) (amount : Z)
| tokenCurrency_burn (amount : Z).

(** Modelled from the spec: the token contracts are not among the sources.
    Section 6 makes their calls fallible; a call goes through, returns
    [false], or reverts. *)
Inductive TokenOutcome : Type :=
| token_succeeds
| token_returns_false
| token_reverts.

(** Contract storage, with the inherited [cumulativeFeeMultiplier] of
    FeePayer, the clock behind [getCurrentTime()] and the log of token
    calls.  [expirationTimestamp] is read by [requestTransferPosition] but
    declared outside the file; it is a field fixed at construction.
    [tokenOutcome] is the behaviour of the collateral and synthetic token
    contracts as the ledger meets it: the answer each call would get. *)
Record State : Type := mkState {
  positions : gmap address PositionData;
  totalTokensOutstanding : Z;
  rawTotalPositionCollateral : Z;
  withdrawalLiveness : Z;
  minSponsorTokens : Z;
  expirationTimestamp : Z;
  cumulativeFeeMultiplier : Z;
  currentTime : Z;
  tokenCalls : list TokenCall;
  tokenOutcome : TokenCall -> TokenOutcome
}.

Definition M (A : Type) : Type := State -> Result (A * State).

Definition ret {A} (a : A) : M A := fun s => Ok (a, s).

Definition bind {A B} (m : M A) (k : A -> M B) : M B :=
  fun s => match m s with
           | Ok (a, s') => k a s'
           | Revert msg => Revert msg
           end.

Notation "'let*' x ':=' m 'in' k" := (bind m (fun x => k))
  (at level 10, x name, m at level 100, k at level 200).
Notation "m ';;' k" := (bind m (fun _ => k))
  (at level 100, k at level 200, right associativity).

Definition get : M State := fun s => Ok (s, s).
Definition put (s' : State) : M unit := fun _ => Ok (tt, s').

(** A pure checked computation run inside a contract function. *)
Definition lift {A} (r : Result A) : M A :=
  fun s => match r with
           | Ok a => Ok (a, s)
           | Revert msg => Revert msg
           end.

Definition require (cond : bool) (msg : string) : M unit :=
  fun s => if cond then Ok (tt, s) else Revert msg.

(** ** Storage access *)

(** positions[sponsor] *)
Definition position (s : State) (sponsor : address) : PositionData :=
  default emptyPosition (positions s !! sponsor).

Definition set_positions (f : gmap address PositionData -> gmap address PositionData)
    (s : State) : State :=
  mkState (f (positions s)) (totalTokensOutstanding s) (rawTotalPositionCollateral s)
          (withdrawalLiveness s) (minSponsorTokens s) (expirationTimestamp s)
          (cumulativeFeeMultiplier s) (currentTime s) (tokenCalls s) (tokenOutcome s).

Definition set_totalTokensOutstanding (v : Z) (s : State) : State :=
  mkState (positions s) v (rawTotalPositionCollateral s)
          (withdrawalLiveness s) (minSponsorTokens s) (expirationTimestamp s)
          (cumulativeFeeMultiplier s) (currentTime s) (tokenCalls s) (tokenOutcome s).

Definition set_rawTotalPositionCollateral (v : Z) (s : State) : State :=
  mkState (positions s) (totalTokensOutstanding s) v
          (withdrawalLiveness s) (minSponsorTokens s) (expirationTimestamp s)
          (cumulativeFeeMultiplier s) (currentTime s) (tokenCalls s) (tokenOutcome s).

Definition set_cumulativeFeeMultiplier (v : Z) (s : State) : State :=
  mkState (positions s) (totalTokensOutstanding s) (rawTotalPositionCollateral s)
          (withdrawalLiveness s) (minSponsorTokens s) (expirationTimestamp s)
          v (currentTime s) (tokenCalls s) (tokenOutcome s).

Definition set_currentTime (v : Z) (s : State) : State :=
  mkState (positions s) (totalTokensOutstanding s) (rawTotalPositionCollateral s)
          (withdrawalLiveness s) (minSponsorTokens s) (expirationTimestamp s)
          (cumulativeFeeMultiplier s) v (tokenCalls s) (tokenOutcome s).

Definition set_expirationTimestamp (v : Z) (s : State) : State :=
  mkState (positions s) (totalTokensOutstanding s) (rawTotalPositionCollateral s)
          (withdrawalLiveness s) (minSponsorTokens s) v
          (cumulativeFeeMultiplier s) (currentTime s) (tokenCalls s) (tokenOutcome s).

Definition set_tokenOutcome (v : TokenCall -> TokenOutcome) (s : State) : State :=
  mkState (positions s) (totalTokensOutstanding s) (rawTotalPositionCollateral s)
          (withdrawalLiveness s) (minSponsorTokens s) (expirationTimestamp s)
          (cumulativeFeeMultiplier s) (currentTime s) (tokenCalls s) v.

Definition log_tokenCall (c : TokenCall) (s : State) : State :=
  mkState (positions s) (totalTokensOutstanding s) (rawTotalPositionCollateral s)
          (withdrawalLiveness s) (minSponsorTokens s) (expirationTimestamp s)
          (cumulativeFeeMultiplier s) (currentTime s) (tokenCalls s ++ [c]) (tokenOutcome s).

(** Field writes through a [PositionData storage] pointer. *)
Definition with_tokensOutstanding (v : Z) (p : PositionData) : PositionData :=
  mkPositionData v (withdrawalRequestPassTimestamp p) (withdrawalRequestAmount p)
                 (rawCollateral p) (transferPositionRequestPassTimestamp p).

Definition with_withdrawalRequestPassTimestamp (v : Z) (p : PositionData) : PositionData :=
  mkPositionData (tokensOutstanding p) v (withdrawalRequestAmount p)
                 (rawCollateral p) (transferPositionRequestPassTimestamp p).

Definition with_withdrawalRequestAmount (v : Z) (p : PositionData) : PositionData :=
  mkPositionData (tokensOutstanding p) (withdrawalRequestPassTimestamp p) v
                 (rawCollateral p) (transferPositionRequestPassTimestamp p).

Definition with_rawCollateral (v : Z) (p : PositionData) : PositionData :=
  mkPositionData (tokensOutstanding p) (withdrawalRequestPassTimestamp p)
                 (withdrawalRequestAmount p) v (transferPositionRequestPassTimestamp p).

Definition with_transferPositionRequestPassTimestamp (v : Z) (p : PositionData) : PositionData :=
  mkPositionData (tokensOutstanding p) (withdrawalRequestPassTimestamp p)
                 (withdrawalRequestAmount p) (rawCollateral p) v.

(** positions[sponsor] = p *)
Definition write_position (sponsor : address) (p : PositionData) : M unit :=
  fun s => Ok (tt, set_positions (insert sponsor p) s).

(** positions[sponsor].field = v, for the field updated by [f] *)
Definition update_position (sponsor : address) (f : PositionData -> PositionData) : M unit :=
  fun s => Ok (tt, set_positions (insert sponsor (f (position s sponsor))) s).

(** delete positions[sponsor] *)
Definition delete_position (sponsor : address) : M unit :=
  fun s => Ok (tt, set_positions (delete sponsor) s).

(** Modelled from the spec: the collateral and synthetic token contracts
    and the SafeERC20 wrappers are not among the sources.  Section 6:
    [transferFrom], [transfer], [mint] and [burn] are fallible external
    effects (they fail with TransferFailed or MintFailed), and [mint]
    returns a [bool]. *)
Definition token_failure (c : TokenCall) : string :=
  match c with
  | tokenCurrency_mint _ _ => "MintFailed"
  | _ => "TransferFailed"
  end.

(** Modelled from the spec: the bare call to a token contract.  It reverts
    when the token contract reverts and otherwise returns what the contract
    returned; a call that returned is in the log. *)
Definition token_call (c : TokenCall) : M bool :=
  fun s => match tokenOutcome s c with
           | token_succeeds => Ok (true, log_tokenCall c s)
           | token_returns_false => Ok (false, log_tokenCall c s)
           | token_reverts => Revert (token_failure c)
           end.

(** Modelled from the spec: [safeTransfer] and [safeTransferFrom]
    (SafeERC20) as the ledger uses them: the operation reverts unless the
    call went through.  [mint] is called inside a [require] and [burn] as a
    statement whose result is not read; both use the bare [token_call]. *)
Definition external_call (c : TokenCall) : M unit :=
  let* ok := token_call c in
  require ok (token_failure c).

(** ** Fixed-point arithmetic *)

Module FixedPoint.

(** Modelled from the spec: FixedPoint.sol is not among the sources.
    Section 4.1 of the specification: unsigned quantities are integers
    scaled by 18 decimal places. *)
Definition FP_SCALING_FACTOR : Z := 10 ^ 18.

(** Modelled from the spec: FixedPoint.fromUnscaledUint, conversion from an
    integer count of whole units, with its overflow check. *)
Definition fromUnscaledUint (a : Z) : Result Z :=
  if a * FP_SCALING_FACTOR <=? MAX_UINT256 then Ok (a * FP_SCALING_FACTOR)
  else Revert "Overflow".

(** Modelled from the spec: the comparisons of FixedPoint.sol, on raw
    values.  The source also calls them with the literal [0] for the
    right-hand side, which stands for zero whole units, raw value 0. *)
Definition isEqual (a b : Z) : bool := a =? b.

(** Modelled from the spec: see [isEqual]. *)
Definition isGreaterThan (a b : Z) : bool := b <? a.

(** Modelled from the spec: see [isEqual]. *)
Definition isGreaterThanOrEqual (a b : Z) : bool := b <=? a.

(** Modelled from the spec: see [isEqual]. *)
Definition isLessThanOrEqual (a b : Z) : bool := a <=? b.

(** Modelled from the spec: FixedPoint.add, 256-bit with an explicit
    overflow check. *)
Definition add (a b : Z) : Result Z :=
  if a + b <=? MAX_UINT256 then Ok (a + b) else Revert "Overflow".

(** Modelled from the spec: FixedPoint.sub fails with Underflow if the
    result would be negative. *)
Definition sub (a b : Z) : Result Z :=
  if b <=? a then Ok (a - b) else Revert "Underflow".

(** Modelled from the spec: FixedPoint.mul truncates toward zero at the
    scale, with an explicit overflow check on the product. *)
Definition mul (a b : Z) : Result Z :=
  if a * b <=? MAX_UINT256 then Ok (a * b / FP_SCALING_FACTOR)
  else Revert "Overflow".

(** Modelled from the spec: FixedPoint.div fails with DivideByZero and
    truncates toward zero, with an explicit overflow check on the scaled
    numerator. *)
Definition div (a b : Z) : Result Z :=
  if b =? 0 then Revert "DivideByZero"
  else if a * FP_SCALING_FACTOR <=? MAX_UINT256 then Ok (a * FP_SCALING_FACTOR / b)
  else Revert "Overflow".

End FixedPoint.

(** SafeMath addition on plain [uint256] values (timestamps). *)
Definition SafeMath_add (a b : Z) : Result Z :=
  if a + b <=? MAX_UINT256 then Ok (a + b) else Revert "Overflow".

(** ** Fee accrual layer (FeePayer) *)

(** Modelled from the spec: FeePayer.sol is not among the sources.
    Section 4.2: the fee-adjusted value of a raw amount is the raw amount
    times [cumulativeFeeMultiplier]. *)
Definition _getFeeAdjustedCollateral (s : State) (rawCollateral : Z) : Result Z :=
  FixedPoint.mul rawCollateral (cumulativeFeeMultiplier s).

(** Modelled from the spec: FeePayer.sol is not among the sources.
    Section 4.2: a fee-adjusted amount is converted into the equivalent
    raw amount (the inverse of the adjustment). *)
Definition _convertToRawCollateral (s : State) (collateral : Z) : Result Z :=
  FixedPoint.div collateral (cumulativeFeeMultiplier s).

(** The result of [_addCollateral] and [_removeCollateral]: the new value
    of the raw counter they were given by storage reference, and the
    amount they return. *)
Record CounterUpdate : Type := mkCounterUpdate {
  newRawValue : Z;
  returnedAmount : Z
}.

(** Modelled from the spec: FeePayer.sol is not among the sources.
    Section 4.2: converts the fee-adjusted [collateralToAdd] into the
    equivalent raw increase and adds it to the raw counter.  The amount
    returned is the fee-adjusted change of the counter, which is how the
    callers in the position manager document and use it. *)
Definition _addCollateral (s : State) (rawCounter collateralToAdd : Z) : Result CounterUpdate :=
  match _getFeeAdjustedCollateral s rawCounter with
  | Revert msg => Revert msg
  | Ok initialBalance =>
    match _convertToRawCollateral s collateralToAdd with
    | Revert msg => Revert msg
    | Ok adjustedCollateral =>
      match FixedPoint.add rawCounter adjustedCollateral with
      | Revert msg => Revert msg
      | Ok raw' =>
        match _getFeeAdjustedCollateral s raw' with
        | Revert msg => Revert msg
        | Ok finalBalance =>
          match FixedPoint.sub finalBalance initialBalance with
          | Revert msg => Revert msg
          | Ok addedCollateral => Ok (mkCounterUpdate raw' addedCollateral)
          end
        end
      end
    end
  end.

(** Modelled from the spec: FeePayer.sol is not among the sources.
    Section 4.2: the inverse of [_addCollateral]; fails with
    InsufficientCollateral if it would drive the raw counter negative.
    The amount returned is the fee-adjusted change of the counter ("the
    amount that the global collateral is decreased by", as
    [_decrementCollateralBalances] documents). *)
Definition _removeCollateral (s : State) (rawCounter collateralToRemove : Z) : Result CounterUpdate :=
  match _getFeeAdjustedCollateral s rawCounter with
  | Revert msg => Revert msg
  | Ok initialBalance =>
    match _convertToRawCollateral s collateralToRemove with
    | Revert msg => Revert msg
    | Ok adjustedCollateral =>
      if adjustedCollateral <=? rawCounter then
        let raw' := rawCounter - adjustedCollateral in
        match _getFeeAdjustedCollateral s raw' with
        | Revert msg => Revert msg
        | Ok finalBalance =>
          match FixedPoint.sub initialBalance finalBalance with
          | Revert msg => Revert msg
          | Ok removedCollateral => Ok (mkCounterUpdate raw' removedCollateral)
          end
        end
      else Revert "InsufficientCollateral"
    end
  end.

(** Modelled from the spec: the [fees()] modifier of FeePayer is not among
    the sources.  Section 4.2: the multiplier is only ever decreased by a
    separate periodic fee-charging operation and never during the course of
    a single ledger operation; inside an operation the modifier leaves the
    storage as it is.  The fee-charging operation itself is [payFees]
    below. *)
Definition fees : M unit := ret tt.

(** Modelled from the spec: [getCurrentTime()] is inherited from a contract
    that is not among the sources.  Section 5: time is a wall clock that
    the operations only read and compare with stored pass timestamps. *)
Definition getCurrentTime : M Z := fun s => Ok (currentTime s, s).

(** Reading a storage variable. *)
Definition read {A} (f : State -> A) : M A := fun s => Ok (f s, s).

(** Solidity's short-circuit [&&] and [||]: the right operand is only
    evaluated (and can only revert) when the left one does not decide. *)
Definition and_then (b : bool) (m : M bool) : M bool := if b then m else ret false.
Definition or_else (m1 m2 : M bool) : M bool :=
  let* b := m1 in if b then ret true else m2.

(** ** PerpetualPositionManager *)

(** modifier onlyCollateralizedPosition(address sponsor) *)
Definition onlyCollateralizedPosition (sponsor : address) : M unit :=
  let* s := get in
  let* c := lift (_getFeeAdjustedCollateral s (rawCollateral (position s sponsor))) in
  require (FixedPoint.isGreaterThan c 0) "Position has no collateral".

(** The returned storage pointer is the key of the position. *)
Definition _getPositionData (sponsor : address) : M address :=
  onlyCollateralizedPosition sponsor ;;
  ret sponsor.

(** modifier noPendingWithdrawal(address sponsor) *)
Definition noPendingWithdrawal (sponsor : address) : M unit :=
  let* positionData := _getPositionData sponsor in
  let* ts := read (fun s => withdrawalRequestPassTimestamp (position s positionData)) in
  require (ts =? 0) "Pending withdrawal".

Definition _getCollateralizationRatio (collateral numTokens : Z) : Result Z :=
  if negb (FixedPoint.isGreaterThan numTokens 0) then FixedPoint.fromUnscaledUint 0
  else FixedPoint.div collateral numTokens.

Definition _checkCollateralization (collateral numTokens : Z) : M bool :=
  let* s := get in
  let* total := lift (_getFeeAdjustedCollateral s (rawTotalPositionCollateral s)) in
  let* global := lift (_getCollateralizationRatio total (totalTokensOutstanding s)) in
  let* thisChange := lift (_getCollateralizationRatio collateral numTokens) in
  ret (negb (FixedPoint.isGreaterThan global thisChange)).

Definition _checkPositionCollateralization (positionData : address) : M bool :=
  let* s := get in
  let* c := lift (_getFeeAdjustedCollateral s (rawCollateral (position s positionData))) in
  _checkCollateralization c (tokensOutstanding (position s positionData)).

Definition _resetWithdrawalRequest (positionData : address) : M unit :=
  let* zero := lift (FixedPoint.fromUnscaledUint 0) in
  update_position positionData (with_withdrawalRequestAmount zero) ;;
  update_position positionData (with_withdrawalRequestPassTimestamp 0).

Definition _incrementCollateralBalances (positionData : address) (collateralAmount : Z) : M Z :=
  let* s := get in
  let* u := lift (_addCollateral s (rawCollateral (position s positionData)) collateralAmount) in
  update_position positionData (with_rawCollateral (newRawValue u)) ;;
  let* s := get in
  let* u := lift (_addCollateral s (rawTotalPositionCollateral s) collateralAmount) in
  put (set_rawTotalPositionCollateral (newRawValue u) s) ;;
  ret (returnedAmount u).

Definition _decrementCollateralBalances (positionData : address) (collateralAmount : Z) : M Z :=
  let* s := get in
  let* u := lift (_removeCollateral s (rawCollateral (position s positionData)) collateralAmount) in
  update_position positionData (with_rawCollateral (newRawValue u)) ;;
  let* s := get in
  let* u := lift (_removeCollateral s (rawTotalPositionCollateral s) collateralAmount) in
  put (set_rawTotalPositionCollateral (newRawValue u) s) ;;
  ret (returnedAmount u).

Definition _decrementCollateralBalancesCheckGCR (positionData : address) (collateralAmount : Z) : M Z :=
  let* s := get in
  let* u := lift (_removeCollateral s (rawCollateral (position s positionData)) collateralAmount) in
  update_position positionData (with_rawCollateral (newRawValue u)) ;;
  let* ok := _checkPositionCollateralization positionData in
  require ok "CR below GCR" ;;
  let* s := get in
  let* u := lift (_removeCollateral s (rawTotalPositionCollateral s) collateralAmount) in
  put (set_rawTotalPositionCollateral (newRawValue u) s) ;;
  ret (returnedAmount u).

Definition _deleteSponsorPosition (sponsor : address) : M Z :=
  let* positionToLiquidate := _getPositionData sponsor in
  let* s := get in
  let* startingGlobalCollateral := lift (_getFeeAdjustedCollateral s (rawTotalPositionCollateral s)) in
  let remainingRawCollateral := rawCollateral (position s positionToLiquidate) in
  let* total := lift (FixedPoint.sub (rawTotalPositionCollateral s) remainingRawCollateral) in
  put (set_rawTotalPositionCollateral total s) ;;
  let* s := get in
  let* tokens := lift (FixedPoint.sub (totalTokensOutstanding s)
                                      (tokensOutstanding (position s positionToLiquidate))) in
  put (set_totalTokensOutstanding tokens s) ;;
  delete_position sponsor ;;
  let* s := get in
  let* remaining := lift (_getFeeAdjustedCollateral s (rawTotalPositionCollateral s)) in
  lift (FixedPoint.sub startingGlobalCollateral remaining).

Definition _reduceSponsorPosition (sponsor : address)
    (tokensToRemove collateralToRemove withdrawalAmountToRemove : Z) : M unit :=
  let* positionData := _getPositionData sponsor in
  let* s := get in
  let* whole :=
    and_then (FixedPoint.isEqual tokensToRemove (tokensOutstanding (position s positionData)))
      (let* c := lift (_getFeeAdjustedCollateral s (rawCollateral (position s positionData))) in
       ret (FixedPoint.isEqual c collateralToRemove)) in
  if whole then
    _deleteSponsorPosition sponsor ;;
    ret tt
  else
    _decrementCollateralBalances positionData collateralToRemove ;;
    let* s := get in
    let* newTokenCount := lift (FixedPoint.sub (tokensOutstanding (position s positionData))
                                               tokensToRemove) in
    require (FixedPoint.isGreaterThanOrEqual newTokenCount (minSponsorTokens s))
            "Below minimum sponsor position" ;;
    update_position positionData (with_tokensOutstanding newTokenCount) ;;
    let* s := get in
    let* amount := lift (FixedPoint.sub (withdrawalRequestAmount (position s positionData))
                                        withdrawalAmountToRemove) in
    update_position positionData (with_withdrawalRequestAmount amount) ;;
    let* s := get in
    let* tokens := lift (FixedPoint.sub (totalTokensOutstanding s) tokensToRemove) in
    put (set_totalTokensOutstanding tokens s).

Definition requestTransferPosition (msg_sender : address) : M unit :=
  let* positionData := _getPositionData msg_sender in
  let* ts := read (fun s => transferPositionRequestPassTimestamp (position s positionData)) in
  require (ts =? 0) "Pending transfer" ;;
  let* now := getCurrentTime in
  let* liveness := read withdrawalLiveness in
  let* requestPassTime := lift (SafeMath_add now liveness) in
  let* expiry := read expirationTimestamp in
  require (requestPassTime <? expiry) "Request expires post-expiry" ;;
  update_position positionData (with_transferPositionRequestPassTimestamp requestPassTime).

Definition transferPositionPassedRequest (msg_sender newSponsorAddress : address) : M unit :=
  noPendingWithdrawal msg_sender ;;
  let* s := get in
  let* c := lift (_getFeeAdjustedCollateral s (rawCollateral (position s newSponsorAddress))) in
  let* zero := lift (FixedPoint.fromUnscaledUint 0) in
  require (FixedPoint.isEqual c zero) "Sponsor already has position" ;;
  let* positionData := _getPositionData msg_sender in
  let* ts := read (fun s => transferPositionRequestPassTimestamp (position s positionData)) in
  let* now := getCurrentTime in
  require (negb (ts =? 0) && (ts <=? now)) "Invalid transfer request" ;;
  update_position positionData (with_transferPositionRequestPassTimestamp 0) ;;
  let* p := read (fun s => position s positionData) in
  write_position newSponsorAddress p ;;
  delete_position msg_sender.

Definition cancelTransferPosition (msg_sender : address) : M unit :=
  let* positionData := _getPositionData msg_sender in
  let* ts := read (fun s => transferPositionRequestPassTimestamp (position s positionData)) in
  require (negb (ts =? 0)) "No pending transfer" ;;
  update_position positionData (with_transferPositionRequestPassTimestamp 0).

Definition depositTo (msg_sender sponsor : address) (collateralAmount : Z) : M unit :=
  noPendingWithdrawal sponsor ;;
  fees ;;
  require (FixedPoint.isGreaterThan collateralAmount 0) "Invalid collateral amount" ;;
  let* positionData := _getPositionData sponsor in
  _incrementCollateralBalances positionData collateralAmount ;;
  external_call (collateral_safeTransferFrom msg_sender collateralAmount).

Definition deposit (msg_sender : address) (collateralAmount : Z) : M unit :=
  depositTo msg_sender msg_sender collateralAmount.

Definition withdraw (msg_sender : address) (collateralAmount : Z) : M Z :=
  noPendingWithdrawal msg_sender ;;
  fees ;;
  let* positionData := _getPositionData msg_sender in
  require (FixedPoint.isGreaterThan collateralAmount 0) "Invalid collateral amount" ;;
  let* amountWithdrawn := _decrementCollateralBalancesCheckGCR positionData collateralAmount in
  external_call (collateral_safeTransfer msg_sender amountWithdrawn) ;;
  ret amountWithdrawn.

Definition requestWithdrawal (msg_sender : address) (collateralAmount : Z) : M unit :=
  noPendingWithdrawal msg_sender ;;
  let* positionData := _getPositionData msg_sender in
  let* ok :=
    and_then (FixedPoint.isGreaterThan collateralAmount 0)
      (let* s := get in
       let* c := lift (_getFeeAdjustedCollateral s (rawCollateral (position s positionData))) in
       ret (FixedPoint.isLessThanOrEqual collateralAmount c)) in
  require ok "Invalid collateral amount" ;;
  let* now := getCurrentTime in
  let* liveness := read withdrawalLiveness in
  let* requestPassTime := lift (SafeMath_add now liveness) in
  update_position positionData (with_withdrawalRequestPassTimestamp requestPassTime) ;;
  update_position positionData (with_withdrawalRequestAmount collateralAmount).

Definition withdrawPassedRequest (msg_sender : address) : M Z :=
  fees ;;
  let* positionData := _getPositionData msg_sender in
  let* ts := read (fun s => withdrawalRequestPassTimestamp (position s positionData)) in
  let* now := getCurrentTime in
  require (negb (ts =? 0) && (ts <=? now)) "Invalid withdraw request" ;;
  let* s := get in
  let requested := withdrawalRequestAmount (position s positionData) in
  let* c := lift (_getFeeAdjustedCollateral s (rawCollateral (position s positionData))) in
  let* amountToWithdraw :=
    (if FixedPoint.isGreaterThan requested c
     then lift (_getFeeAdjustedCollateral s (rawCollateral (position s positionData)))
     else ret requested) in
  let* amountWithdrawn := _decrementCollateralBalances positionData amountToWithdraw in
  _resetWithdrawalRequest positionData ;;
  external_call (collateral_safeTransfer msg_sender amountWithdrawn) ;;
  ret amountWithdrawn.

Definition cancelWithdrawal (msg_sender : address) : M unit :=
  let* positionData := _getPositionData msg_sender in
  let* ts := read (fun s => withdrawalRequestPassTimestamp (position s positionData)) in
  require (negb (ts =? 0)) "No pending withdrawal" ;;
  _resetWithdrawalRequest positionData.

Definition create (msg_sender : address) (collateralAmount numTokens : Z) : M unit :=
  fees ;;
  let positionData := msg_sender in
  let* s := get in
  let* c := lift (_getFeeAdjustedCollateral s (rawCollateral (position s positionData))) in
  let* newCollateral := lift (FixedPoint.add c collateralAmount) in
  let* newTokens := lift (FixedPoint.add (tokensOutstanding (position s positionData)) numTokens) in
  let* ok := or_else (_checkCollateralization newCollateral newTokens)
                     (_checkCollateralization collateralAmount numTokens) in
  require ok "Insufficient collateral" ;;
  require (withdrawalRequestPassTimestamp (position s positionData) =? 0) "Pending withdrawal" ;;
  (if FixedPoint.isEqual (tokensOutstanding (position s positionData)) 0
   then require (FixedPoint.isGreaterThanOrEqual numTokens (minSponsorTokens s))
                "Below minimum sponsor position"
   else ret tt) ;;
  _incrementCollateralBalances positionData collateralAmount ;;
  let* s := get in
  let* tokens := lift (FixedPoint.add (tokensOutstanding (position s positionData)) numTokens) in
  update_position positionData (with_tokensOutstanding tokens) ;;
  let* s := get in
  let* total := lift (FixedPoint.add (totalTokensOutstanding s) numTokens) in
  put (set_totalTokensOutstanding total s) ;;
  external_call (collateral_safeTransferFrom msg_sender collateralAmount) ;;
  let* minted := token_call (tokenCurrency_mint msg_sender numTokens) in
  require minted "Minting synthetic tokens failed".

Definition redeem (msg_sender : address) (numTokens : Z) : M Z :=
  noPendingWithdrawal msg_sender ;;
  fees ;;
  let* positionData := _getPositionData msg_sender in
  let* s := get in
  require (negb (FixedPoint.isGreaterThan numTokens (tokensOutstanding (position s positionData))))
          "Invalid token amount" ;;
  let* fractionRedeemed :=
    lift (FixedPoint.div numTokens (tokensOutstanding (position s positionData))) in
  let* c := lift (_getFeeAdjustedCollateral s (rawCollateral (position s positionData))) in
  let* collateralRedeemed := lift (FixedPoint.mul fractionRedeemed c) in
  let* amountWithdrawn :=
    (if FixedPoint.isEqual (tokensOutstanding (position s positionData)) numTokens
     then _deleteSponsorPosition msg_sender
     else
       let* amount := _decrementCollateralBalances positionData collateralRedeemed in
       let* s := get in
       let* newTokenCount :=
         lift (FixedPoint.sub (tokensOutstanding (position s positionData)) numTokens) in
       require (FixedPoint.isGreaterThanOrEqual newTokenCount (minSponsorTokens s))
               "Below minimum sponsor position" ;;
       update_position positionData (with_tokensOutstanding newTokenCount) ;;
       let* s := get in
       let* total := lift (FixedPoint.sub (totalTokensOutstanding s) numTokens) in
       put (set_totalTokensOutstanding total s) ;;
       ret amount) in
  external_call (collateral_safeTransfer msg_sender amountWithdrawn) ;;
  external_call (tokenCurrency_safeTransferFrom msg_sender numTokens) ;;
  token_call (tokenCurrency_burn numTokens) ;;
  ret amountWithdrawn.


(** The internal twin of the [noPendingWithdrawal] modifier. *)
Definition _positionHasNoPendingWithdrawal (sponsor : address) : M unit :=
  let* positionData := _getPositionData sponsor in
  let* ts := read (fun s => withdrawalRequestPassTimestamp (position s positionData)) in
  require (ts =? 0) "Pending withdrawal".

(** The oracle the contract reaches through the finder, as the contract
    sees it: for an identifier and a time, whether a price is resolved, and
    the resolved [int256] price.  It is an external contract and is taken
    as a parameter. *)
Record OracleInterface : Type := mkOracleInterface {
  hasPrice : Z -> Z -> bool;
  getPrice : Z -> Z -> Z
}.

(** [int256] range. *)
Definition int256 (x : Z) : Prop := - 2 ^ 255 <= x <= 2 ^ 255 - 1.

(** The conversion [uint256(x)] of an [int256]: two's complement, so a
    negative value wraps around. *)
Definition uint256_of_int256 (x : Z) : Z := x mod 2 ^ 256.

(** function _getOraclePrice(uint256 requestedTime), with the stored
    [priceIdentifier] passed in. *)
Definition _getOraclePrice (oracle : OracleInterface) (priceIdentifier requestedTime : Z)
    : Result Z :=
  if hasPrice oracle priceIdentifier requestedTime then
    let oraclePrice := getPrice oracle priceIdentifier requestedTime in
    let oraclePrice := if oraclePrice <? 0 then 0 else oraclePrice in
    Ok (uint256_of_int256 oraclePrice)
  else Revert "Unresolved oracle price".

(** ** Transactions and the environment *)

(** The external entry points of the contract. *)
Inductive Call : Type :=
| call_requestTransferPosition
| call_transferPositionPassedRequest (newSponsorAddress : address)
| call_cancelTransferPosition
| call_depositTo (sponsor : address) (collateralAmount : Z)
| call_deposit (collateralAmount : Z)
| call_withdraw (collateralAmount : Z)
| call_requestWithdrawal (collateralAmount : Z)
| call_withdrawPassedRequest
| call_cancelWithdrawal
| call_create (collateralAmount numTokens : Z)
| call_redeem (numTokens : Z).

Definition discard {A} (m : M A) : M unit := m ;; ret tt.

Definition dispatch (msg_sender : address) (c : Call) : M unit :=
  match c with
  | call_requestTransferPosition => requestTransferPosition msg_sender
  | call_transferPositionPassedRequest newSponsorAddress =>
      transferPositionPassedRequest msg_sender newSponsorAddress
  | call_cancelTransferPosition => cancelTransferPosition msg_sender
  | call_depositTo sponsor collateralAmount => depositTo msg_sender sponsor collateralAmount
  | call_deposit collateralAmount => deposit msg_sender collateralAmount
  | call_withdraw collateralAmount => discard (withdraw msg_sender collateralAmount)
  | call_requestWithdrawal collateralAmount => requestWithdrawal msg_sender collateralAmount
  | call_withdrawPassedRequest => discard (withdrawPassedRequest msg_sender)
  | call_cancelWithdrawal => cancelWithdrawal msg_sender
  | call_create collateralAmount numTokens => create msg_sender collateralAmount numTokens
  | call_redeem numTokens => discard (redeem msg_sender numTokens)
  end.

Definition is_uint256 (x : Z) : bool := (0 <=? x) && (x <=? MAX_UINT256).

(** Every amount in the call data is a [uint256]. *)
Definition calldata_in_range (c : Call) : bool :=
  match c with
  | call_depositTo _ collateralAmount => is_uint256 collateralAmount
  | call_deposit collateralAmount => is_uint256 collateralAmount
  | call_withdraw collateralAmount => is_uint256 collateralAmount
  | call_requestWithdrawal collateralAmount => is_uint256 collateralAmount
  | call_create collateralAmount numTokens => is_uint256 collateralAmount && is_uint256 numTokens
  | call_redeem numTokens => is_uint256 numTokens
  | _ => true
  end.

(** What can happen to the ledger: a transaction from some account, the
    clock moving forward, the fee-accrual collaborator lowering the
    cumulative fee multiplier between two ledger operations, and the token
    contracts changing (balances and allowances move, so a call that failed
    may go through later and the other way round). *)
Inductive Event : Type :=
| transaction (msg_sender : address) (c : Call)
| timePasses (newTime : Z)
| feesCharged (newMultiplier : Z)
| tokensChange (outcome : TokenCall -> TokenOutcome).

(** Modelled from the spec: the fee-charging operation of FeePayer is not
    among the sources.  Section 3: the multiplier is a monotonically
    non-increasing ratio, owned and mutated exclusively by the fee-accrual
    collaborator. *)
Definition payFees (newMultiplier : Z) : M unit :=
  let* s := get in
  require ((0 <=? newMultiplier) && (newMultiplier <=? cumulativeFeeMultiplier s))
          "Fee multiplier can only decrease" ;;
  put (set_cumulativeFeeMultiplier newMultiplier s).

(** Modelled from the spec: the clock behind [getCurrentTime()] is not
    among the sources; between two operations it moves forward and stays a
    [uint256]. *)
Definition advanceTime (newTime : Z) : M unit :=
  let* s := get in
  require ((currentTime s <=? newTime) && (newTime <=? MAX_UINT256))
          "Time can only move forward" ;;
  put (set_currentTime newTime s).

Definition step (e : Event) (s : State) : Result State :=
  match e with
  | transaction msg_sender c =>
      if calldata_in_range c then
        match dispatch msg_sender c s with
        | Ok (_, s') => Ok s'
        | Revert msg => Revert msg
        end
      else Revert "Call data out of range"
  | timePasses newTime =>
      match advanceTime newTime s with
      | Ok (_, s') => Ok s'
      | Revert msg => Revert msg
      end
  | feesCharged newMultiplier =>
      match payFees newMultiplier s with
      | Ok (_, s') => Ok s'
      | Revert msg => Revert msg
      end
  | tokensChange outcome => Ok (set_tokenOutcome outcome s)
  end.

(** A reverted transaction leaves the storage as it was. *)
Definition after (e : Event) (s : State) : State :=
  match step e s with
  | Ok s' => s'
  | Revert _ => s
  end.

Fixpoint run (es : list Event) (s : State) : Result State :=
  match es with
  | [] => Ok s
  | e :: es' =>
      match step e s with
      | Ok s' => run es' s'
      | Revert msg => Revert msg
      end
  end.

(** The ledger right after construction: no position, multiplier 1.0;
    [tokens] is how the token contracts answer at that time. *)
Definition initial (liveness minTokens expiry startTime : Z)
    (tokens : TokenCall -> TokenOutcome) : State :=
  mkState ∅ 0 0 liveness minTokens expiry FixedPoint.FP_SCALING_FACTOR startTime [] tokens.

Inductive reachable : State -> Prop :=
| reachable_initial liveness minTokens expiry startTime tokens :
    uint256 liveness -> uint256 minTokens -> uint256 expiry -> uint256 startTime ->
    reachable (initial liveness minTokens expiry startTime tokens)
| reachable_step s e s' :
    reachable s -> step e s = Ok s' -> reachable s'.

(** Whole units to raw fixed-point values, for examples. *)
Definition units (n : Z) : Z := n * FixedPoint.FP_SCALING_FACTOR.

(** Sum of a per-position quantity over the stored positions. *)
Definition sum_positions (f : PositionData -> Z) (ps : gmap address PositionData) : Z :=
  map_fold (fun _ p acc => f p + acc) 0 ps.

(** The fee-adjusted collateral of a raw amount as a number (zero where the
    checked computation reverts). *)
Definition adjustedCollateral (s : State) (raw : Z) : Z :=
  match _getFeeAdjustedCollateral s raw with
  | Ok v => v
  | Revert _ => 0
  end.

(** The raw collateral stored in the record that an event overwrites: a
    position transfer replaces whatever is stored under the recipient (a
    record whose fee-adjusted collateral has been truncated to zero can
    still hold raw collateral). *)
Definition overwrittenBy (e : Event) (s : State) : Z :=
  match e with
  | transaction _ (call_transferPositionPassedRequest newSponsorAddress) =>
      rawCollateral (position s newSponsorAddress)
  | _ => 0
  end.

(** The raw collateral overwritten along a sequence of events. *)
Fixpoint overwritten (es : list Event) (s : State) : Z :=
  match es with
  | [] => 0
  | e :: es' =>
      match step e s with
      | Ok s' => overwrittenBy e s + overwritten es' s'
      | Revert _ => 0
      end
  end.

(** ** Predicates used in the statements *)

(** The sponsor passes [onlyCollateralizedPosition]. *)
Definition collateralized (s : State) (sponsor : address) : Prop :=
  exists c, _getFeeAdjustedCollateral s (rawCollateral (position s sponsor)) = Ok c /\ 0 < c.

(** What every stored position satisfies in a ledger with minimum size
    [minTokens]. *)
Definition position_ok (minTokens : Z) (p : PositionData) : Prop :=
  0 <= rawCollateral p /\
  (tokensOutstanding p = 0 \/ (0 < tokensOutstanding p /\ minTokens <= tokensOutstanding p)) /\
  (0 < minTokens -> tokensOutstanding p = 0 -> rawCollateral p = 0).

(** The invariant of the ledger. *)
Record ledger_inv (s : State) : Prop := mk_ledger_inv {
  inv_multiplier : 0 <= cumulativeFeeMultiplier s <= FixedPoint.FP_SCALING_FACTOR;
  inv_minSponsorTokens : 0 <= minSponsorTokens s;
  inv_positions : forall a, position_ok (minSponsorTokens s) (position s a);
  inv_sum : sum_positions rawCollateral (positions s) <= rawTotalPositionCollateral s;
  inv_sum_unit : cumulativeFeeMultiplier s = FixedPoint.FP_SCALING_FACTOR ->
                 sum_positions rawCollateral (positions s) = rawTotalPositionCollateral s;
  inv_total : rawTotalPositionCollateral s * cumulativeFeeMultiplier s <= MAX_UINT256
}.

(** The collateralization ratio of a sponsor's position, as
    [_checkPositionCollateralization] computes it. *)
Definition positionCollateralizationRatio (s : State) (sponsor : address) : Result Z :=
  match _getFeeAdjustedCollateral s (rawCollateral (position s sponsor)) with
  | Ok c => _getCollateralizationRatio c (tokensOutstanding (position s sponsor))
  | Revert msg => Revert msg
  end.

(** The global collateralization ratio, as [_checkCollateralization]
    computes it. *)
Definition globalCollateralizationRatio (s : State) : Result Z :=
  match _getFeeAdjustedCollateral s (rawTotalPositionCollateral s) with
  | Ok c => _getCollateralizationRatio c (totalTokensOutstanding s)
  | Revert msg => Revert msg
  end.

(** The events that the pending-withdrawal guard protects a sponsor's
    position from: a deposit into it, and the sponsor's own [withdraw],
    [create] and [redeem]. *)
Definition guarded_against_pending (e : Event) (sponsor : address) : Prop :=
  match e with
  | transaction _ (call_depositTo target _) => target = sponsor
  | transaction msg_sender (call_deposit _) => msg_sender = sponsor
  | transaction msg_sender (call_withdraw _) => msg_sender = sponsor
  | transaction msg_sender (call_create _ _) => msg_sender = sponsor
  | transaction msg_sender (call_redeem _) => msg_sender = sponsor
  | _ => False
  end.

(** Everything in the storage except the [positions] mapping is the same
    in both states, and no token call was made in between. *)
Definition same_outside_positions (s s' : State) : Prop :=
  totalTokensOutstanding s' = totalTokensOutstanding s /\
  rawTotalPositionCollateral s' = rawTotalPositionCollateral s /\
  withdrawalLiveness s' = withdrawalLiveness s /\
  minSponsorTokens s' = minSponsorTokens s /\
  expirationTimestamp s' = expirationTimestamp s /\
  cumulativeFeeMultiplier s' = cumulativeFeeMultiplier s /\
  currentTime s' = currentTime s /\
  tokenCalls s' = tokenCalls s.

(** ** Accounting over the token calls *)

(** Collateral that a token call moves into the contract (negative when
    it moves out). *)
Definition collateralMoved (c : TokenCall) : Z :=
  match c with
  | collateral_safeTransferFrom _ amount => amount
  | collateral_safeTransfer _ amount => - amount
  | _ => 0
  end.

(** Synthetic tokens that a token call adds to the supply (negative when
    it burns). *)
Definition syntheticIssued (c : TokenCall) : Z :=
  match c with
  | tokenCurrency_mint _ amount => amount
  | tokenCurrency_burn amount => - amount
  | _ => 0
  end.

Definition netCollateral (calls : list TokenCall) : Z :=
  fold_right (fun c acc => collateralMoved c + acc) 0 calls.

Definition netIssued (calls : list TokenCall) : Z :=
  fold_right (fun c acc => syntheticIssued c + acc) 0 calls.

(** The token calls an entry point makes when it succeeds, in order;
    [paid] is the collateral amount it pays out, where it pays. *)
Definition tokenCallsOf (msg_sender : address) (c : Call) (paid : Z) : list TokenCall :=
  match c with
  | call_depositTo _ collateralAmount => [collateral_safeTransferFrom msg_sender collateralAmount]
  | call_deposit collateralAmount => [collateral_safeTransferFrom msg_sender collateralAmount]
  | call_withdraw _ => [collateral_safeTransfer msg_sender paid]
  | call_withdrawPassedRequest => [collateral_safeTransfer msg_sender paid]
  | call_create collateralAmount numTokens =>
      [collateral_safeTransferFrom msg_sender collateralAmount;
       tokenCurrency_mint msg_sender numTokens]
  | call_redeem numTokens =>
      [collateral_safeTransfer msg_sender paid;
       tokenCurrency_safeTransferFrom msg_sender numTokens;
       tokenCurrency_burn numTokens]
  | _ => []
  end.

(** The change an entry point makes to [totalTokensOutstanding]. *)
Definition tokensDelta (c : Call) : Z :=
  match c with
  | call_create _ numTokens => numTokens
  | call_redeem numTokens => - numTokens
  | _ => 0
  end.

(** An oracle with one resolved, negative price, for examples. *)
Definition negative_price_oracle : OracleInterface :=
  mkOracleInterface (fun _ t => t =? 100) (fun _ _ => -5).

(** ** Scenarios *)

(** The state a sequence of events leads to (the starting state if one of
    them reverts). *)
Definition final (es : list Event) (s : State) : State :=
  match run es s with
  | Ok s' => s'
  | Revert _ => s
  end.

Definition alice : address := 1%N.
Definition bob : address := 2%N.

(** Token contracts on which every call goes through. *)
Definition accepting : TokenCall -> TokenOutcome := fun _ => token_succeeds.

(** A ledger with liveness 1000 s and a minimum position of 10 tokens. *)
Definition genesis : State := initial 1000 (units 10) 1000000 0 accepting.

(** The same ledger configured without a minimum position size. *)
Definition genesis_no_minimum : State := initial 1000 0 1000000 0 accepting.

(** Basic lifecycle: create 150/100, deposit 50, request 50, wait, withdraw. *)
Definition lifecycle_events : list Event :=
  [ transaction alice (call_create (units 150) (units 100));
    transaction alice (call_deposit (units 50));
    transaction alice (call_requestWithdrawal (units 50));
    timePasses 2000;
    transaction alice call_withdrawPassedRequest ].

Definition lifecycle_state : State := final lifecycle_events genesis.



(** Alice holds 150/100; Bob created 150/100 and took 140 out through the
    two-phase path, so he holds 10/100 and the global ratio is 0.8. *)
Definition gcr_events : list Event :=
  [ transaction alice (call_create (units 150) (units 100));
    transaction bob (call_create (units 150) (units 100));
    transaction bob (call_requestWithdrawal (units 140));
    timePasses 2000;
    transaction bob call_withdrawPassedRequest ].

Definition gcr_state : State := final gcr_events genesis.

Definition gcr_state_after : State :=
  final [ transaction bob (call_create (units 80) (units 100)) ] gcr_state.

(** Without a minimum size: Bob holds 5 tokens and no collateral, Alice
    holds collateral and no tokens and has a passed transfer request. *)
Definition overwrite_events : list Event :=
  [ transaction bob (call_create 0 5);
    transaction alice (call_create 10 0);
    transaction alice call_requestTransferPosition;
    timePasses 2000 ].

Definition overwrite_state : State := final overwrite_events genesis_no_minimum.

Definition overwrite_state_after : State :=
  final [ transaction alice (call_transferPositionPassedRequest bob) ] overwrite_state.

(** Alice asks for 50 out of 100 units plus one raw unit; before the
    request passes the multiplier drops to 0.7. *)
Definition shrunk_events : list Event :=
  [ transaction alice (call_create (units 100 + 1) (units 50));
    transaction alice (call_requestWithdrawal (units 50));
    feesCharged (7 * 10 ^ 17);
    timePasses 2000 ].

Definition shrunk_state : State := final shrunk_events genesis.

(** Alice asks for her single raw unit; the multiplier drops to 0.9, which
    leaves her no fee-adjusted collateral when the request passes. *)
Definition emptied_events : list Event :=
  [ transaction alice (call_create 1 (units 100));
    transaction alice (call_requestWithdrawal 1);
    feesCharged (9 * 10 ^ 17);
    timePasses 2000 ].

Definition emptied_state : State := final emptied_events genesis.

(** The fee scenario of the specification: 50 raw units requested in full,
    then the multiplier drops to 0.9, leaving 45. *)
Definition fee_events : list Event :=
  [ transaction alice (call_create (units 50) (units 20));
    transaction alice (call_requestWithdrawal (units 50));
    feesCharged (9 * 10 ^ 17);
    timePasses 2000 ].

Definition fee_state : State := final fee_events genesis.

(** Alice holds 150/100 and has a withdrawal request pending. *)
Definition pending_events : list Event :=
  [ transaction alice (call_create (units 150) (units 100));
    transaction alice (call_requestWithdrawal (units 50)) ].

Definition pending_state : State := final pending_events genesis.

(** Alice requested a transfer, then took all her collateral out through
    the two-phase path; the transfer request has passed. *)
Definition drained_events : list Event :=
  [ transaction alice (call_create (units 150) (units 100));
    transaction alice call_requestTransferPosition;
    transaction alice (call_requestWithdrawal (units 150));
    timePasses 2000;
    transaction alice call_withdrawPassedRequest ].

Definition drained_state : State := final drained_events genesis.

(** Alice holds 150/100 and a passed transfer request; Bob holds nothing. *)
Definition handover_events : list Event :=
  [ transaction alice (call_create (units 150) (units 100));
    transaction alice call_requestTransferPosition;
    timePasses 2000 ].

Definition handover_state : State := final handover_events genesis.

Definition handover_state_after : State :=
  final [ transaction alice (call_transferPositionPassedRequest bob) ] handover_state.

(** Alice holds 50/20 with no request pending and the multiplier has
    dropped to 0.9. *)
Definition taxed_events : list Event :=
  [ transaction alice (call_create (units 50) (units 20));
    feesCharged (9 * 10 ^ 17) ].

Definition taxed_state : State := final taxed_events genesis.

(** Alice holds 150/100 and Bob 300/100, no request pending, and the
    multiplier has dropped to 0.7. *)
Definition surplus_events : list Event :=
  [ transaction alice (call_create (units 150) (units 100));
    transaction bob (call_create (units 300) (units 100));
    feesCharged (7 * 10 ^ 17) ].

Definition surplus_state : State := final surplus_events genesis.

(** Alice's record holds one raw unit that fees have truncated to a
    fee-adjusted zero; Bob then transfers his 150/100 position onto it. *)
Definition absorbed_events : list Event :=
  [ transaction alice (call_create 1 (units 100));
    transaction bob (call_create (units 150) (units 100));
    transaction bob call_requestTransferPosition;
    feesCharged (9 * 10 ^ 17);
    timePasses 2000;
    transaction bob (call_transferPositionPassedRequest alice) ].

Definition absorbed_state : State := final absorbed_events genesis.

(** ** Reasoning about contract computations *)

Lemma bind_Ok {A B} (m : M A) (k : A -> M B) s r :
  bind m k s = Ok r -> exists a s1, m s = Ok (a, s1) /\ k a s1 = Ok r.
Proof.
  unfold bind. destruct (m s) as [[a s1]|msg]; [|discriminate].
  intros H. exists a, s1. split; [reflexivity|exact H].
Qed.

Lemma bind_run {A B} (m : M A) (k : A -> M B) s a s1 :
  m s = Ok (a, s1) -> bind m k s = k a s1.
Proof. unfold bind. intros ->. reflexivity. Qed.

Lemma bind_revert {A B} (m : M A) (k : A -> M B) s msg :
  m s = Revert msg -> bind m k s = Revert msg.
Proof. unfold bind. intros ->. reflexivity. Qed.

Lemma ret_Ok {A} (a : A) s r : ret a s = Ok r -> r = (a, s).
Proof. unfold ret. congruence. Qed.

Lemma get_Ok s r : get s = Ok r -> r = (s, s).
Proof. unfold get. congruence. Qed.

Lemma put_Ok s0 s r : put s0 s = Ok r -> r = (tt, s0).
Proof. unfold put. congruence. Qed.

Lemma read_Ok {A} (f : State -> A) s r : read f s = Ok r -> r = (f s, s).
Proof. unfold read. congruence. Qed.

Lemma getCurrentTime_Ok s r : getCurrentTime s = Ok r -> r = (currentTime s, s).
Proof. unfold getCurrentTime. congruence. Qed.

Lemma lift_Ok {A} (x : Result A) s r : lift x s = Ok r -> exists a, x = Ok a /\ r = (a, s).
Proof. unfold lift. destruct x; [|discriminate]. intros H. eexists. split; [reflexivity|congruence]. Qed.

Lemma require_Ok b msg s r : require b msg s = Ok r -> b = true /\ r = (tt, s).
Proof. unfold require. destruct b; [|discriminate]. intros H. split; congruence. Qed.

Lemma update_position_Ok a f s r :
  update_position a f s = Ok r -> r = (tt, set_positions (insert a (f (position s a))) s).
Proof. unfold update_position. congruence. Qed.

Lemma write_position_Ok a p s r :
  write_position a p s = Ok r -> r = (tt, set_positions (insert a p) s).
Proof. unfold write_position. congruence. Qed.

Lemma delete_position_Ok a s r :
  delete_position a s = Ok r -> r = (tt, set_positions (delete a) s).
Proof. unfold delete_position. congruence. Qed.

Lemma token_call_Ok c s b s' :
  token_call c s = Ok (b, s') ->
  s' = log_tokenCall c s /\
  tokenOutcome s c = (if b then token_succeeds else token_returns_false).
Proof.
  unfold token_call. destruct (tokenOutcome s c); intros [= <- <-] || discriminate; auto.
Qed.

Lemma external_call_Ok c s r : external_call c s = Ok r -> r = (tt, log_tokenCall c s).
Proof.
  unfold external_call, bind, token_call, require.
  destruct (tokenOutcome s c); congruence.
Qed.

Lemma external_call_succeeds c s :
  external_call c s = Ok (tt, log_tokenCall c s) <-> tokenOutcome s c = token_succeeds.
Proof.
  unfold external_call, bind, token_call, require.
  destruct (tokenOutcome s c); split; congruence.
Qed.

Lemma external_call_fails c s :
  tokenOutcome s c <> token_succeeds -> external_call c s = Revert (token_failure c).
Proof.
  unfold external_call, bind, token_call, require.
  destruct (tokenOutcome s c); congruence.
Qed.

Lemma fees_Ok s r : fees s = Ok r -> r = (tt, s).
Proof. unfold fees, ret. congruence. Qed.

(** Inversion of a successful computation, one primitive at a time. *)
Ltac inv_prim H :=
  first
    [ apply ret_Ok in H
    | apply get_Ok in H
    | apply put_Ok in H
    | apply read_Ok in H
    | apply getCurrentTime_Ok in H
    | apply fees_Ok in H
    | apply update_position_Ok in H
    | apply write_position_Ok in H
    | apply delete_position_Ok in H
    | apply external_call_Ok in H ];
  inversion H; subst; clear H.

Ltac inv_M :=
  repeat match goal with
  | H : bind _ _ _ = Ok _ |- _ =>
      let a := fresh "a" in let s1 := fresh "s" in let E := fresh "E" in
      apply bind_Ok in H; destruct H as (a & s1 & E & H)
  | H : ret _ _ = Ok _ |- _ => inv_prim H
  | H : get _ = Ok _ |- _ => inv_prim H
  | H : put _ _ = Ok _ |- _ => inv_prim H
  | H : read _ _ = Ok _ |- _ => inv_prim H
  | H : getCurrentTime _ = Ok _ |- _ => inv_prim H
  | H : fees _ = Ok _ |- _ => inv_prim H
  | H : update_position _ _ _ = Ok _ |- _ => inv_prim H
  | H : write_position _ _ _ = Ok _ |- _ => inv_prim H
  | H : delete_position _ _ = Ok _ |- _ => inv_prim H
  | H : external_call _ _ = Ok _ |- _ => inv_prim H
  | H : token_call _ _ = Ok (_, _) |- _ =>
      let E := fresh "Htoken" in
      apply token_call_Ok in H; destruct H as [-> E]
  | H : lift _ _ = Ok _ |- _ =>
      let a := fresh "v" in let E := fresh "E" in
      apply lift_Ok in H; destruct H as (a & E & H); inversion H; subst; clear H
  | H : require _ _ _ = Ok _ |- _ =>
      let E := fresh "R" in
      apply require_Ok in H; destruct H as (E & H); inversion H; subst; clear H
  end.

(** ** Facts about the fixed-point operations *)

Lemma FP_SCALING_FACTOR_pos : 0 < FixedPoint.FP_SCALING_FACTOR.
Proof. reflexivity. Qed.

Lemma MAX_UINT256_pos : 0 < MAX_UINT256.
Proof. reflexivity. Qed.

Lemma fromUnscaledUint_0 : FixedPoint.fromUnscaledUint 0 = Ok 0.
Proof. reflexivity. Qed.

Lemma FixedPoint_mul_Ok a b v :
  FixedPoint.mul a b = Ok v <->
  a * b <= MAX_UINT256 /\ v = a * b / FixedPoint.FP_SCALING_FACTOR.
Proof.
  unfold FixedPoint.mul. destruct (Z.leb_spec (a * b) MAX_UINT256); split.
  - intros [= <-]. split; [assumption|reflexivity].
  - intros [_ ->]. reflexivity.
  - discriminate.
  - intros [? _]. lia.
Qed.

Lemma FixedPoint_div_Ok a b v :
  FixedPoint.div a b = Ok v <->
  b <> 0 /\ a * FixedPoint.FP_SCALING_FACTOR <= MAX_UINT256 /\
  v = a * FixedPoint.FP_SCALING_FACTOR / b.
Proof.
  unfold FixedPoint.div. destruct (Z.eqb_spec b 0).
  - split; [discriminate|]. intros [? _]. contradiction.
  - destruct (Z.leb_spec (a * FixedPoint.FP_SCALING_FACTOR) MAX_UINT256); split.
    + intros [= <-]. auto.
    + intros (_ & _ & ->). reflexivity.
    + discriminate.
    + intros (_ & ? & _). lia.
Qed.

Lemma FixedPoint_add_Ok a b v :
  FixedPoint.add a b = Ok v <-> a + b <= MAX_UINT256 /\ v = a + b.
Proof.
  unfold FixedPoint.add. destruct (Z.leb_spec (a + b) MAX_UINT256); split.
  - intros [= <-]. auto.
  - intros [_ ->]. reflexivity.
  - discriminate.
  - intros [? _]. lia.
Qed.

Lemma FixedPoint_sub_Ok a b v :
  FixedPoint.sub a b = Ok v <-> b <= a /\ v = a - b.
Proof.
  unfold FixedPoint.sub. destruct (Z.leb_spec b a); split.
  - intros [= <-]. auto.
  - intros [_ ->]. reflexivity.
  - discriminate.
  - intros [? _]. lia.
Qed.

Lemma SafeMath_add_Ok a b v :
  SafeMath_add a b = Ok v <-> a + b <= MAX_UINT256 /\ v = a + b.
Proof. exact (FixedPoint_add_Ok a b v). Qed.

Lemma getFeeAdjustedCollateral_Ok s raw v :
  _getFeeAdjustedCollateral s raw = Ok v <->
  raw * cumulativeFeeMultiplier s <= MAX_UINT256 /\
  v = raw * cumulativeFeeMultiplier s / FixedPoint.FP_SCALING_FACTOR.
Proof. apply FixedPoint_mul_Ok. Qed.

Lemma getFeeAdjustedCollateral_0 s : _getFeeAdjustedCollateral s 0 = Ok 0.
Proof. reflexivity. Qed.

Lemma convertToRawCollateral_Ok s c v :
  _convertToRawCollateral s c = Ok v <->
  cumulativeFeeMultiplier s <> 0 /\ c * FixedPoint.FP_SCALING_FACTOR <= MAX_UINT256 /\
  v = c * FixedPoint.FP_SCALING_FACTOR / cumulativeFeeMultiplier s.
Proof. apply FixedPoint_div_Ok. Qed.

(** The fee adjustment only reads the multiplier. *)
Lemma getFeeAdjustedCollateral_ext s1 s2 raw :
  cumulativeFeeMultiplier s1 = cumulativeFeeMultiplier s2 ->
  _getFeeAdjustedCollateral s1 raw = _getFeeAdjustedCollateral s2 raw.
Proof. unfold _getFeeAdjustedCollateral. intros ->. reflexivity. Qed.

Lemma addCollateral_Ok s raw c u :
  _addCollateral s raw c = Ok u ->
  exists d before later,
    _convertToRawCollateral s c = Ok d /\
    _getFeeAdjustedCollateral s raw = Ok before /\
    _getFeeAdjustedCollateral s (raw + d) = Ok later /\
    raw + d <= MAX_UINT256 /\ before <= later /\
    u = mkCounterUpdate (raw + d) (later - before).
Proof.
  unfold _addCollateral.
  destruct (_getFeeAdjustedCollateral s raw) as [before|] eqn:E1; [|discriminate].
  destruct (_convertToRawCollateral s c) as [d|] eqn:E2; [|discriminate].
  destruct (FixedPoint.add raw d) as [raw'|] eqn:E3; [|discriminate].
  apply FixedPoint_add_Ok in E3 as [? ->].
  destruct (_getFeeAdjustedCollateral s (raw + d)) as [later|] eqn:E4; [|discriminate].
  destruct (FixedPoint.sub later before) as [w|] eqn:E5; [|discriminate].
  apply FixedPoint_sub_Ok in E5 as [? ->].
  intros [= <-]. exists d, before, later. auto 10.
Qed.

Lemma removeCollateral_Ok s raw c u :
  _removeCollateral s raw c = Ok u ->
  exists d before later,
    _convertToRawCollateral s c = Ok d /\
    _getFeeAdjustedCollateral s raw = Ok before /\
    _getFeeAdjustedCollateral s (raw - d) = Ok later /\
    d <= raw /\ later <= before /\
    u = mkCounterUpdate (raw - d) (before - later).
Proof.
  unfold _removeCollateral.
  destruct (_getFeeAdjustedCollateral s raw) as [before|] eqn:E1; [|discriminate].
  destruct (_convertToRawCollateral s c) as [d|] eqn:E2; [|discriminate].
  destruct (Z.leb_spec d raw); [|discriminate].
  destruct (_getFeeAdjustedCollateral s (raw - d)) as [later|] eqn:E4; [|discriminate].
  destruct (FixedPoint.sub before later) as [w|] eqn:E5; [|discriminate].
  apply FixedPoint_sub_Ok in E5 as [? ->].
  intros [= <-]. exists d, before, later. auto 10.
Qed.

(** ** Reading positions after a storage write *)

Lemma position_insert s a p b :
  position (set_positions (insert a p) s) b = if decide (a = b) then p else position s b.
Proof.
  unfold position. simpl. rewrite lookup_insert.
  destruct (decide (a = b)); reflexivity.
Qed.

Lemma position_insert_eq s a p : position (set_positions (insert a p) s) a = p.
Proof. rewrite position_insert. destruct (decide (a = a)); congruence. Qed.

Lemma position_insert_ne s a p b :
  a <> b -> position (set_positions (insert a p) s) b = position s b.
Proof. intros. rewrite position_insert. destruct (decide (a = b)); congruence. Qed.

Lemma position_delete s a b :
  position (set_positions (delete a) s) b = if decide (a = b) then emptyPosition else position s b.
Proof.
  unfold position. simpl. rewrite lookup_delete.
  destruct (decide (a = b)); reflexivity.
Qed.

Lemma position_set_rawTotalPositionCollateral v s a :
  position (set_rawTotalPositionCollateral v s) a = position s a.
Proof. reflexivity. Qed.

Lemma position_set_totalTokensOutstanding v s a :
  position (set_totalTokensOutstanding v s) a = position s a.
Proof. reflexivity. Qed.

Lemma position_log_tokenCall c s a : position (log_tokenCall c s) a = position s a.
Proof. reflexivity. Qed.

Lemma State_ext s1 s2 :
  positions s1 = positions s2 ->
  totalTokensOutstanding s1 = totalTokensOutstanding s2 ->
  rawTotalPositionCollateral s1 = rawTotalPositionCollateral s2 ->
  withdrawalLiveness s1 = withdrawalLiveness s2 ->
  minSponsorTokens s1 = minSponsorTokens s2 ->
  expirationTimestamp s1 = expirationTimestamp s2 ->
  cumulativeFeeMultiplier s1 = cumulativeFeeMultiplier s2 ->
  currentTime s1 = currentTime s2 ->
  tokenCalls s1 = tokenCalls s2 ->
  tokenOutcome s1 = tokenOutcome s2 ->
  s1 = s2.
Proof. destruct s1, s2. simpl. congruence. Qed.

Ltac norm_state :=
  repeat first [ rewrite position_set_rawTotalPositionCollateral
               | rewrite position_set_totalTokensOutstanding
               | rewrite position_log_tokenCall
               | rewrite position_insert_eq ];
  cbn [positions totalTokensOutstanding rawTotalPositionCollateral withdrawalLiveness
       minSponsorTokens expirationTimestamp cumulativeFeeMultiplier currentTime tokenCalls
       set_positions log_tokenCall set_rawTotalPositionCollateral set_totalTokensOutstanding];
  unfold with_tokensOutstanding, with_withdrawalRequestPassTimestamp,
    with_withdrawalRequestAmount, with_rawCollateral, with_transferPositionRequestPassTimestamp;
  cbn [tokensOutstanding withdrawalRequestPassTimestamp withdrawalRequestAmount
       rawCollateral transferPositionRequestPassTimestamp];
  rewrite ?insert_insert_eq; rewrite <- ?app_assoc; cbn [app].

Ltac state_eq := apply State_ext; norm_state; reflexivity.

(** ** The internal functions *)

Lemma getPositionData_Ok a s r s' :
  _getPositionData a s = Ok (r, s') ->
  r = a /\ s' = s /\
  exists c, _getFeeAdjustedCollateral s (rawCollateral (position s a)) = Ok c /\ 0 < c.
Proof.
  unfold _getPositionData, onlyCollateralizedPosition. intros H. inv_M.
  unfold FixedPoint.isGreaterThan in R. apply Z.ltb_lt in R. eauto.
Qed.

Lemma getPositionData_run a s c :
  _getFeeAdjustedCollateral s (rawCollateral (position s a)) = Ok c -> 0 < c ->
  _getPositionData a s = Ok (a, s).
Proof.
  intros E Hc. unfold _getPositionData, onlyCollateralizedPosition, bind, get, lift, require, ret.
  rewrite E. unfold FixedPoint.isGreaterThan. apply Z.ltb_lt in Hc. rewrite Hc. reflexivity.
Qed.

Lemma getPositionData_revert a s :
  _getFeeAdjustedCollateral s (rawCollateral (position s a)) = Ok 0 ->
  forall A (k : address -> M A), bind (_getPositionData a) k s = Revert "Position has no collateral".
Proof.
  intros E A k. unfold _getPositionData, onlyCollateralizedPosition, bind, get, lift, require.
  rewrite E. reflexivity.
Qed.

Lemma noPendingWithdrawal_Ok a s r s' :
  noPendingWithdrawal a s = Ok (r, s') ->
  s' = s /\ withdrawalRequestPassTimestamp (position s a) = 0 /\
  exists c, _getFeeAdjustedCollateral s (rawCollateral (position s a)) = Ok c /\ 0 < c.
Proof.
  unfold noPendingWithdrawal. intros H. inv_M.
  apply getPositionData_Ok in E as (-> & -> & Hc).
  apply Z.eqb_eq in R. auto.
Qed.

Lemma noPendingWithdrawal_run a s c :
  _getFeeAdjustedCollateral s (rawCollateral (position s a)) = Ok c -> 0 < c ->
  withdrawalRequestPassTimestamp (position s a) = 0 ->
  noPendingWithdrawal a s = Ok (tt, s).
Proof.
  intros E Hc Hts. unfold noPendingWithdrawal.
  rewrite (bind_run _ _ _ _ _ (getPositionData_run _ _ _ E Hc)).
  unfold bind, read, require. rewrite Hts. reflexivity.
Qed.

Lemma resetWithdrawalRequest_Ok a s r s' :
  _resetWithdrawalRequest a s = Ok (r, s') ->
  s' = set_positions
         (insert a (with_withdrawalRequestPassTimestamp 0
                      (with_withdrawalRequestAmount 0 (position s a)))) s.
Proof.
  unfold _resetWithdrawalRequest. intros H. inv_M.
  rewrite fromUnscaledUint_0 in E0. injection E0 as <-.
  rewrite position_insert_eq. unfold set_positions. simpl.
  rewrite insert_insert_eq. reflexivity.
Qed.

Lemma addCollateral_ext s1 s2 raw c :
  cumulativeFeeMultiplier s1 = cumulativeFeeMultiplier s2 ->
  _addCollateral s1 raw c = _addCollateral s2 raw c.
Proof.
  unfold _addCollateral, _getFeeAdjustedCollateral, _convertToRawCollateral.
  intros ->. reflexivity.
Qed.

Lemma removeCollateral_ext s1 s2 raw c :
  cumulativeFeeMultiplier s1 = cumulativeFeeMultiplier s2 ->
  _removeCollateral s1 raw c = _removeCollateral s2 raw c.
Proof.
  unfold _removeCollateral, _getFeeAdjustedCollateral, _convertToRawCollateral.
  intros ->. reflexivity.
Qed.

Lemma incrementCollateralBalances_Ok a c s r s' :
  _incrementCollateralBalances a c s = Ok (r, s') ->
  exists d,
    _convertToRawCollateral s c = Ok d /\
    (rawTotalPositionCollateral s + d) * cumulativeFeeMultiplier s <= MAX_UINT256 /\
    s' = set_rawTotalPositionCollateral (rawTotalPositionCollateral s + d)
           (set_positions
              (insert a (with_rawCollateral (rawCollateral (position s a) + d) (position s a))) s).
Proof.
  unfold _incrementCollateralBalances. intros H. inv_M.
  match goal with
  | H1 : _addCollateral s _ _ = Ok ?u1, H2 : _addCollateral (set_positions _ _) _ _ = Ok ?u2 |- _ =>
      rewrite (addCollateral_ext _ s) in H2 by reflexivity;
      apply addCollateral_Ok in H1 as (d & b1 & l1 & Hd & _ & _ & _ & _ & ->);
      apply addCollateral_Ok in H2 as (d' & b2 & l2 & Hd' & _ & Hl & _ & _ & ->)
  end.
  simpl in Hd'. rewrite Hd in Hd'. injection Hd' as <-.
  apply getFeeAdjustedCollateral_Ok in Hl as [Hl _]. simpl in *.
  exists d. auto.
Qed.

Lemma decrementCollateralBalances_Ok a c s r s' :
  _decrementCollateralBalances a c s = Ok (r, s') ->
  exists d,
    _convertToRawCollateral s c = Ok d /\
    d <= rawCollateral (position s a) /\ d <= rawTotalPositionCollateral s /\
    (rawTotalPositionCollateral s - d) * cumulativeFeeMultiplier s <= MAX_UINT256 /\
    r = adjustedCollateral s (rawTotalPositionCollateral s)
        - adjustedCollateral s (rawTotalPositionCollateral s - d) /\
    s' = set_rawTotalPositionCollateral (rawTotalPositionCollateral s - d)
           (set_positions
              (insert a (with_rawCollateral (rawCollateral (position s a) - d) (position s a))) s).
Proof.
  unfold _decrementCollateralBalances. intros H. inv_M.
  match goal with
  | H1 : _removeCollateral s _ _ = Ok ?u1, H2 : _removeCollateral (set_positions _ _) _ _ = Ok ?u2 |- _ =>
      rewrite (removeCollateral_ext _ s) in H2 by reflexivity;
      apply removeCollateral_Ok in H1 as (d & b1 & l1 & Hd & _ & _ & ? & _ & ->);
      apply removeCollateral_Ok in H2 as (d' & b2 & l2 & Hd' & Hb & Hl & ? & _ & ->)
  end.
  simpl in Hd'. rewrite Hd in Hd'. injection Hd' as <-.
  simpl in *. exists d. repeat split; auto.
  - apply getFeeAdjustedCollateral_Ok in Hl as [Hl _]. exact Hl.
  - unfold adjustedCollateral. rewrite Hb, Hl. reflexivity.
Qed.

Lemma deleteSponsorPosition_Ok a s r s' :
  _deleteSponsorPosition a s = Ok (r, s') ->
  collateralized s a /\
  rawCollateral (position s a) <= rawTotalPositionCollateral s /\
  (rawTotalPositionCollateral s - rawCollateral (position s a)) * cumulativeFeeMultiplier s
    <= MAX_UINT256 /\
  tokensOutstanding (position s a) <= totalTokensOutstanding s /\
  r = adjustedCollateral s (rawTotalPositionCollateral s)
      - adjustedCollateral s (rawTotalPositionCollateral s - rawCollateral (position s a)) /\
  s' = set_positions (delete a)
         (set_totalTokensOutstanding
            (totalTokensOutstanding s - tokensOutstanding (position s a))
            (set_rawTotalPositionCollateral
               (rawTotalPositionCollateral s - rawCollateral (position s a)) s)).
Proof.
  unfold _deleteSponsorPosition. intros H. inv_M.
  match goal with H : _getPositionData _ _ = Ok _ |- _ =>
    apply getPositionData_Ok in H as (-> & -> & Hc) end.
  repeat match goal with
  | H : FixedPoint.sub _ _ = Ok _ |- _ => apply FixedPoint_sub_Ok in H as [? ->]
  end.
  repeat match goal with
  | H : _getFeeAdjustedCollateral ?s1 _ = Ok _ |- _ =>
      lazymatch s1 with
      | s => fail
      | _ => rewrite (getFeeAdjustedCollateral_ext s1 s) in H by reflexivity
      end
  end.
  simpl in *.
  match goal with
  | H1 : _getFeeAdjustedCollateral s (rawTotalPositionCollateral s) = Ok _,
    H2 : _getFeeAdjustedCollateral s (rawTotalPositionCollateral s - _) = Ok _ |- _ =>
      unfold adjustedCollateral; rewrite H1, H2;
      apply getFeeAdjustedCollateral_Ok in H2 as [H2 _]
  end.
  repeat split; try assumption.
Qed.

(** ** The external functions: what a successful call did *)

Ltac inv_helpers :=
  repeat match goal with
  | H : _getPositionData _ _ = Ok _ |- _ =>
      let Hc := fresh "Hcoll" in apply getPositionData_Ok in H as (-> & -> & Hc)
  | H : noPendingWithdrawal _ _ = Ok _ |- _ =>
      let Hts := fresh "Hnopending" in let Hc := fresh "Hcoll" in
      apply noPendingWithdrawal_Ok in H as (-> & Hts & Hc)
  | H : _resetWithdrawalRequest _ _ = Ok _ |- _ =>
      apply resetWithdrawalRequest_Ok in H as ->
  | H : SafeMath_add _ _ = Ok _ |- _ => apply SafeMath_add_Ok in H as [? ->]
  | H : FixedPoint.add _ _ = Ok _ |- _ => apply FixedPoint_add_Ok in H as [? ->]
  | H : FixedPoint.sub _ _ = Ok _ |- _ => apply FixedPoint_sub_Ok in H as [? ->]
  end.

Lemma requestTransferPosition_Ok a s r s' :
  requestTransferPosition a s = Ok (r, s') ->
  collateralized s a /\
  transferPositionRequestPassTimestamp (position s a) = 0 /\
  currentTime s + withdrawalLiveness s < expirationTimestamp s /\
  s' = set_positions
         (insert a (with_transferPositionRequestPassTimestamp
                      (currentTime s + withdrawalLiveness s) (position s a))) s.
Proof.
  unfold requestTransferPosition. intros H. inv_M. inv_helpers.
  repeat match goal with
  | H : (_ =? _) = true |- _ => apply Z.eqb_eq in H
  | H : (_ <? _) = true |- _ => apply Z.ltb_lt in H
  end.
  auto.
Qed.

Lemma cancelTransferPosition_Ok a s r s' :
  cancelTransferPosition a s = Ok (r, s') ->
  collateralized s a /\
  transferPositionRequestPassTimestamp (position s a) <> 0 /\
  s' = set_positions
         (insert a (with_transferPositionRequestPassTimestamp 0 (position s a))) s.
Proof.
  unfold cancelTransferPosition. intros H. inv_M. inv_helpers.
  match goal with H : negb (_ =? _) = true |- _ =>
    apply negb_true_iff, Z.eqb_neq in H end.
  auto.
Qed.

Lemma cancelWithdrawal_Ok a s r s' :
  cancelWithdrawal a s = Ok (r, s') ->
  collateralized s a /\
  withdrawalRequestPassTimestamp (position s a) <> 0 /\
  s' = set_positions
         (insert a (with_withdrawalRequestPassTimestamp 0
                      (with_withdrawalRequestAmount 0 (position s a)))) s.
Proof.
  unfold cancelWithdrawal. intros H. inv_M. inv_helpers.
  match goal with H : negb (_ =? _) = true |- _ =>
    apply negb_true_iff, Z.eqb_neq in H end.
  auto.
Qed.

Lemma requestWithdrawal_Ok a c s r s' :
  requestWithdrawal a c s = Ok (r, s') ->
  collateralized s a /\
  withdrawalRequestPassTimestamp (position s a) = 0 /\
  0 < c <= adjustedCollateral s (rawCollateral (position s a)) /\
  s' = set_positions
         (insert a (with_withdrawalRequestAmount c
                      (with_withdrawalRequestPassTimestamp
                         (currentTime s + withdrawalLiveness s) (position s a)))) s.
Proof.
  unfold requestWithdrawal, and_then. intros H. inv_M. inv_helpers.
  unfold FixedPoint.isGreaterThan in *.
  destruct (Z.ltb_spec 0 c); inv_M; try discriminate.
  match goal with H : true = FixedPoint.isLessThanOrEqual _ _ |- _ =>
    symmetry in H; unfold FixedPoint.isLessThanOrEqual in H; apply Z.leb_le in H end.
  repeat split; try assumption.
  - unfold adjustedCollateral.
    match goal with H : _getFeeAdjustedCollateral _ _ = Ok _ |- _ => rewrite H end.
    assumption.
  - rewrite position_insert_eq. unfold set_positions. simpl.
    rewrite insert_insert_eq. reflexivity.
Qed.

Lemma depositTo_Ok sender sponsor c s r s' :
  depositTo sender sponsor c s = Ok (r, s') ->
  collateralized s sponsor /\
  withdrawalRequestPassTimestamp (position s sponsor) = 0 /\
  0 < c /\
  exists d,
    _convertToRawCollateral s c = Ok d /\
    (rawTotalPositionCollateral s + d) * cumulativeFeeMultiplier s <= MAX_UINT256 /\
    s' = log_tokenCall (collateral_safeTransferFrom sender c)
           (set_rawTotalPositionCollateral (rawTotalPositionCollateral s + d)
              (set_positions
                 (insert sponsor
                    (with_rawCollateral (rawCollateral (position s sponsor) + d)
                       (position s sponsor))) s)).
Proof.
  unfold depositTo. intros H. inv_M. inv_helpers.
  match goal with H : _incrementCollateralBalances _ _ _ = Ok _ |- _ =>
    apply incrementCollateralBalances_Ok in H as (d & Hd & Hmax & ->) end.
  match goal with H : FixedPoint.isGreaterThan _ _ = true |- _ =>
    unfold FixedPoint.isGreaterThan in H; apply Z.ltb_lt in H end.
  repeat split; try assumption. exists d. auto.
Qed.

Lemma checkCollateralization_Ok c n s b s' :
  _checkCollateralization c n s = Ok (b, s') ->
  s' = s /\
  exists total global this,
    _getFeeAdjustedCollateral s (rawTotalPositionCollateral s) = Ok total /\
    _getCollateralizationRatio total (totalTokensOutstanding s) = Ok global /\
    _getCollateralizationRatio c n = Ok this /\
    b = negb (FixedPoint.isGreaterThan global this).
Proof.
  unfold _checkCollateralization. intros H. inv_M. split; [reflexivity|].
  eauto 10.
Qed.

Lemma checkPositionCollateralization_Ok a s b s' :
  _checkPositionCollateralization a s = Ok (b, s') ->
  s' = s /\
  exists c, _getFeeAdjustedCollateral s (rawCollateral (position s a)) = Ok c /\
            _checkCollateralization c (tokensOutstanding (position s a)) s = Ok (b, s).
Proof.
  unfold _checkPositionCollateralization. intros H. inv_M.
  match goal with H : _checkCollateralization _ _ _ = Ok _ |- _ =>
    pose proof (checkCollateralization_Ok _ _ _ _ _ H) as [-> _] end.
  split; [reflexivity|]. eauto.
Qed.

Lemma decrementCollateralBalancesCheckGCR_Ok a c s r s' :
  _decrementCollateralBalancesCheckGCR a c s = Ok (r, s') ->
  exists d,
    _convertToRawCollateral s c = Ok d /\
    d <= rawCollateral (position s a) /\ d <= rawTotalPositionCollateral s /\
    (rawTotalPositionCollateral s - d) * cumulativeFeeMultiplier s <= MAX_UINT256 /\
    r = adjustedCollateral s (rawTotalPositionCollateral s)
        - adjustedCollateral s (rawTotalPositionCollateral s - d) /\
    (let s1 := set_positions
                 (insert a (with_rawCollateral (rawCollateral (position s a) - d) (position s a))) s in
     _checkPositionCollateralization a s1 = Ok (true, s1) /\
     s' = set_rawTotalPositionCollateral (rawTotalPositionCollateral s - d) s1).
Proof.
  unfold _decrementCollateralBalancesCheckGCR. intros H. inv_M.
  match goal with H : _checkPositionCollateralization _ _ = Ok _ |- _ =>
    pose proof (checkPositionCollateralization_Ok _ _ _ _ H) as [-> _] end.
  match goal with
  | H1 : _removeCollateral s _ _ = Ok ?u1, H2 : _removeCollateral (set_positions _ _) _ _ = Ok ?u2 |- _ =>
      rewrite (removeCollateral_ext _ s) in H2 by reflexivity;
      apply removeCollateral_Ok in H1 as (d & b1 & l1 & Hd & _ & _ & ? & _ & ->);
      apply removeCollateral_Ok in H2 as (d' & b2 & l2 & Hd' & Hb & Hl & ? & _ & ->)
  end.
  simpl in Hd'. rewrite Hd in Hd'. injection Hd' as <-.
  simpl in *. exists d. repeat split; auto.
  - apply getFeeAdjustedCollateral_Ok in Hl as [Hl _]. exact Hl.
  - unfold adjustedCollateral. rewrite Hb, Hl. reflexivity.
Qed.

Lemma withdraw_Ok a c s r s' :
  withdraw a c s = Ok (r, s') ->
  collateralized s a /\
  withdrawalRequestPassTimestamp (position s a) = 0 /\
  0 < c /\
  exists d,
    _convertToRawCollateral s c = Ok d /\
    d <= rawCollateral (position s a) /\ d <= rawTotalPositionCollateral s /\
    (rawTotalPositionCollateral s - d) * cumulativeFeeMultiplier s <= MAX_UINT256 /\
    r = adjustedCollateral s (rawTotalPositionCollateral s)
        - adjustedCollateral s (rawTotalPositionCollateral s - d) /\
    (let s1 := set_positions
                 (insert a (with_rawCollateral (rawCollateral (position s a) - d) (position s a))) s in
     _checkPositionCollateralization a s1 = Ok (true, s1)) /\
    s' = mkState
           (<[a := with_rawCollateral (rawCollateral (position s a) - d) (position s a)]>
              (positions s))
           (totalTokensOutstanding s) (rawTotalPositionCollateral s - d)
           (withdrawalLiveness s) (minSponsorTokens s) (expirationTimestamp s)
           (cumulativeFeeMultiplier s) (currentTime s)
           (tokenCalls s ++ [collateral_safeTransfer a r]) (tokenOutcome s).
Proof.
  unfold withdraw. intros H. inv_M. inv_helpers.
  match goal with H : _decrementCollateralBalancesCheckGCR _ _ _ = Ok _ |- _ =>
    apply decrementCollateralBalancesCheckGCR_Ok in H as (d & Hd & ? & ? & ? & -> & Hchk & ->) end.
  match goal with H : FixedPoint.isGreaterThan _ _ = true |- _ =>
    unfold FixedPoint.isGreaterThan in H; apply Z.ltb_lt in H end.
  repeat split; try assumption. exists d. repeat split; auto.
Qed.

Lemma withdrawPassedRequest_Ok a s r s' :
  withdrawPassedRequest a s = Ok (r, s') ->
  collateralized s a /\
  withdrawalRequestPassTimestamp (position s a) <> 0 /\
  withdrawalRequestPassTimestamp (position s a) <= currentTime s /\
  exists d,
    _convertToRawCollateral s
      (Z.min (withdrawalRequestAmount (position s a))
             (adjustedCollateral s (rawCollateral (position s a)))) = Ok d /\
    d <= rawCollateral (position s a) /\ d <= rawTotalPositionCollateral s /\
    (rawTotalPositionCollateral s - d) * cumulativeFeeMultiplier s <= MAX_UINT256 /\
    r = adjustedCollateral s (rawTotalPositionCollateral s)
        - adjustedCollateral s (rawTotalPositionCollateral s - d) /\
    s' = mkState
           (<[a := mkPositionData (tokensOutstanding (position s a)) 0 0
                     (rawCollateral (position s a) - d)
                     (transferPositionRequestPassTimestamp (position s a))]>
              (positions s))
           (totalTokensOutstanding s) (rawTotalPositionCollateral s - d)
           (withdrawalLiveness s) (minSponsorTokens s) (expirationTimestamp s)
           (cumulativeFeeMultiplier s) (currentTime s)
           (tokenCalls s ++ [collateral_safeTransfer a r]) (tokenOutcome s).
Proof.
  unfold withdrawPassedRequest. intros H. inv_M. inv_helpers.
  match goal with H : (negb (_ =? _) && (_ <=? _))%bool = true |- _ =>
    apply andb_true_iff in H as [Hne Hle];
    apply negb_true_iff, Z.eqb_neq in Hne; apply Z.leb_le in Hle end.
  match goal with H : _getFeeAdjustedCollateral s _ = Ok ?v |- _ => rename v into fa, H into Hfa end.
  unfold FixedPoint.isGreaterThan in *.
  match goal with H : (if ?b then _ else _) _ = Ok (?amt, ?s1) |- _ =>
    assert (amt = Z.min (withdrawalRequestAmount (position s a))
                        (adjustedCollateral s (rawCollateral (position s a))) /\ s1 = s)
      as [-> ->]
  end.
  { unfold adjustedCollateral. rewrite Hfa.
    destruct (Z.ltb_spec fa (withdrawalRequestAmount (position s a))); inv_M.
    - rewrite Z.min_r by lia. split; congruence.
    - rewrite Z.min_l by lia. split; reflexivity. }
  match goal with H : _decrementCollateralBalances _ ?amt _ = Ok _ |- _ =>
    apply decrementCollateralBalances_Ok in H as (d & Hd & ? & ? & ? & -> & ->) end.
  repeat split; try assumption.
  exists d; repeat split; try assumption.
  state_eq.
Qed.

Lemma or_else_state m1 m2 s b s' :
  (forall b1 s1, m1 s = Ok (b1, s1) -> s1 = s) ->
  (forall b2 s2, m2 s = Ok (b2, s2) -> s2 = s) ->
  or_else m1 m2 s = Ok (b, s') -> s' = s.
Proof.
  unfold or_else. intros H1 H2 H. inv_M.
  match goal with H : m1 s = Ok (?b1, ?s1) |- _ =>
    pose proof (H1 _ _ H); subst; destruct b1; inv_M; eauto end.
Qed.

Lemma create_Ok a c n s r s' :
  create a c n s = Ok (r, s') ->
  withdrawalRequestPassTimestamp (position s a) = 0 /\
  (tokensOutstanding (position s a) = 0 -> minSponsorTokens s <= n) /\
  tokensOutstanding (position s a) + n <= MAX_UINT256 /\
  totalTokensOutstanding s + n <= MAX_UINT256 /\
  exists fa d,
    _getFeeAdjustedCollateral s (rawCollateral (position s a)) = Ok fa /\
    or_else (_checkCollateralization (fa + c) (tokensOutstanding (position s a) + n))
            (_checkCollateralization c n) s = Ok (true, s) /\
    _convertToRawCollateral s c = Ok d /\
    (rawTotalPositionCollateral s + d) * cumulativeFeeMultiplier s <= MAX_UINT256 /\
    s' = mkState
           (<[a := with_tokensOutstanding (tokensOutstanding (position s a) + n)
                     (with_rawCollateral (rawCollateral (position s a) + d) (position s a))]>
              (positions s))
           (totalTokensOutstanding s + n) (rawTotalPositionCollateral s + d)
           (withdrawalLiveness s) (minSponsorTokens s) (expirationTimestamp s)
           (cumulativeFeeMultiplier s) (currentTime s)
           (tokenCalls s ++ [collateral_safeTransferFrom a c; tokenCurrency_mint a n]) (tokenOutcome s).
Proof.
  unfold create. intros H. inv_M. inv_helpers.
  match goal with H : or_else _ _ _ = Ok (_, ?s1) |- _ =>
    assert (s1 = s) as ->
      by (eapply or_else_state; [| |exact H];
          intros ? ? Hc; apply checkCollateralization_Ok in Hc as [-> _]; reflexivity)
  end.
  match goal with H : (_ =? _) = true |- _ => apply Z.eqb_eq in H end.
  match goal with H : _incrementCollateralBalances _ _ ?s1 = Ok _ |- _ =>
    assert (s1 = s) as ->
  end.
  { unfold FixedPoint.isEqual in *.
    match goal with H : (if ?b then _ else _) _ = Ok _ |- _ => destruct b; inv_M; reflexivity end. }
  assert (Hmin : tokensOutstanding (position s a) = 0 -> minSponsorTokens s <= n).
  { intros Hz. unfold FixedPoint.isEqual, FixedPoint.isGreaterThanOrEqual in *.
    match goal with H : (if _ =? 0 then _ else _) _ = Ok _ |- _ =>
      rewrite Hz in H; simpl in H; apply require_Ok in H as [H _]; apply Z.leb_le in H; exact H end. }
  match goal with H : _incrementCollateralBalances _ _ _ = Ok _ |- _ =>
    apply incrementCollateralBalances_Ok in H as (d & Hd & Hmax & ->) end.
  repeat match goal with
  | H : _ <= MAX_UINT256 |- _ => revert H
  end.
  norm_state. intros.
  repeat split; try assumption.
  eexists _, d. repeat split; try eassumption.
  state_eq.
Qed.

Lemma redeem_Ok a n s r s' :
  redeem a n s = Ok (r, s') ->
  collateralized s a /\
  withdrawalRequestPassTimestamp (position s a) = 0 /\
  n <= tokensOutstanding (position s a) /\
  tokensOutstanding (position s a) <> 0 /\
  ((n = tokensOutstanding (position s a) /\
    rawCollateral (position s a) <= rawTotalPositionCollateral s /\
    (rawTotalPositionCollateral s - rawCollateral (position s a)) * cumulativeFeeMultiplier s
      <= MAX_UINT256 /\
    tokensOutstanding (position s a) <= totalTokensOutstanding s /\
    r = adjustedCollateral s (rawTotalPositionCollateral s)
        - adjustedCollateral s (rawTotalPositionCollateral s - rawCollateral (position s a)) /\
    s' = mkState (delete a (positions s))
           (totalTokensOutstanding s - tokensOutstanding (position s a))
           (rawTotalPositionCollateral s - rawCollateral (position s a))
           (withdrawalLiveness s) (minSponsorTokens s) (expirationTimestamp s)
           (cumulativeFeeMultiplier s) (currentTime s)
           (tokenCalls s ++ [collateral_safeTransfer a r;
                             tokenCurrency_safeTransferFrom a n; tokenCurrency_burn n]) (tokenOutcome s))
   \/
   (n <> tokensOutstanding (position s a) /\
    minSponsorTokens s <= tokensOutstanding (position s a) - n /\
    n <= totalTokensOutstanding s /\
    exists d,
      d <= rawCollateral (position s a) /\ d <= rawTotalPositionCollateral s /\
      (rawTotalPositionCollateral s - d) * cumulativeFeeMultiplier s <= MAX_UINT256 /\
      r = adjustedCollateral s (rawTotalPositionCollateral s)
          - adjustedCollateral s (rawTotalPositionCollateral s - d) /\
      s' = mkState
             (<[a := with_tokensOutstanding (tokensOutstanding (position s a) - n)
                       (with_rawCollateral (rawCollateral (position s a) - d) (position s a))]>
                (positions s))
             (totalTokensOutstanding s - n) (rawTotalPositionCollateral s - d)
             (withdrawalLiveness s) (minSponsorTokens s) (expirationTimestamp s)
             (cumulativeFeeMultiplier s) (currentTime s)
             (tokenCalls s ++ [collateral_safeTransfer a r;
                               tokenCurrency_safeTransferFrom a n; tokenCurrency_burn n]) (tokenOutcome s))).
Proof.
  unfold redeem. intros H. inv_M. inv_helpers.
  match goal with H : negb (FixedPoint.isGreaterThan _ _) = true |- _ =>
    unfold FixedPoint.isGreaterThan in H; apply negb_true_iff, Z.ltb_ge in H end.
  match goal with H : FixedPoint.div _ _ = Ok _ |- _ =>
    apply FixedPoint_div_Ok in H as (Hnz & _ & _) end.
  repeat split; try assumption.
  unfold FixedPoint.isEqual in *.
  match goal with H : (if ?b then _ else _) _ = Ok _ |- _ =>
    destruct (Z.eqb_spec (tokensOutstanding (position s a)) n) as [Heq|Hne] end.
  - left.
    match goal with H : _deleteSponsorPosition _ _ = Ok _ |- _ =>
      apply deleteSponsorPosition_Ok in H as (_ & ? & ? & ? & -> & ->) end.
    repeat split; try assumption; try congruence.
    state_eq.
  - right. inv_M.
    match goal with H : _decrementCollateralBalances _ _ _ = Ok _ |- _ =>
      apply decrementCollateralBalances_Ok in H as (d & Hd & ? & ? & ? & -> & ->) end.
    inv_helpers.
    match goal with H : FixedPoint.isGreaterThanOrEqual _ _ = true |- _ =>
      unfold FixedPoint.isGreaterThanOrEqual in H; apply Z.leb_le in H; revert H end.
    repeat match goal with H : n <= _ |- _ => revert H end.
    norm_state. intros.
    repeat split; try assumption; try congruence.
    exists d. repeat split; try assumption. state_eq.
Qed.

Lemma transferPositionPassedRequest_Ok a new s r s' :
  transferPositionPassedRequest a new s = Ok (r, s') ->
  collateralized s a /\
  withdrawalRequestPassTimestamp (position s a) = 0 /\
  _getFeeAdjustedCollateral s (rawCollateral (position s new)) = Ok 0 /\
  transferPositionRequestPassTimestamp (position s a) <> 0 /\
  transferPositionRequestPassTimestamp (position s a) <= currentTime s /\
  a <> new /\
  s' = set_positions
         (fun ps => <[new := with_transferPositionRequestPassTimestamp 0 (position s a)]>
                      (delete a ps)) s.
Proof.
  unfold transferPositionPassedRequest. intros H. inv_M. inv_helpers.
  match goal with H : FixedPoint.fromUnscaledUint 0 = Ok _ |- _ =>
    rewrite fromUnscaledUint_0 in H; injection H as <- end.
  match goal with H : FixedPoint.isEqual _ _ = true |- _ =>
    unfold FixedPoint.isEqual in H; apply Z.eqb_eq in H; subst end.
  match goal with H : (negb (_ =? _) && (_ <=? _))%bool = true |- _ =>
    apply andb_true_iff in H as [Hne Hle];
    apply negb_true_iff, Z.eqb_neq in Hne; apply Z.leb_le in Hle end.
  assert (a <> new) as Hnew.
  { intros ->. destruct Hcoll as (c & Hc & Hpos).
    match goal with H : _getFeeAdjustedCollateral _ _ = Ok 0 |- _ => rewrite H in Hc end.
    injection Hc as <-. lia. }
  repeat split; try assumption.
  rewrite position_insert_eq. unfold set_positions. simpl. f_equal.
  rewrite delete_insert_ne by congruence.
  rewrite delete_insert_eq. reflexivity.
Qed.

(** ** Sums over the stored positions *)

Lemma sum_positions_empty f : sum_positions f ∅ = 0.
Proof. unfold sum_positions. apply map_fold_empty. Qed.

Lemma sum_positions_insert_fresh f (ps : gmap address PositionData) a p :
  ps !! a = None -> sum_positions f (<[a:=p]> ps) = f p + sum_positions f ps.
Proof.
  intros Hnone. unfold sum_positions.
  apply (map_fold_insert_L (fun (_ : address) q acc => f q + acc)); [|exact Hnone].
  intros. lia.
Qed.

Lemma sum_positions_lookup f (ps : gmap address PositionData) a p :
  ps !! a = Some p -> sum_positions f ps = f p + sum_positions f (delete a ps).
Proof.
  intros Hsome. unfold sum_positions.
  apply (map_fold_delete_L (fun (_ : address) q acc => f q + acc)); [|exact Hsome].
  intros. lia.
Qed.

Lemma sum_positions_delete f (ps : gmap address PositionData) a :
  f emptyPosition = 0 ->
  sum_positions f (delete a ps) = sum_positions f ps - f (default emptyPosition (ps !! a)).
Proof.
  intros Hf. destruct (ps !! a) as [p|] eqn:E; simpl.
  - rewrite (sum_positions_lookup f ps a p E). lia.
  - rewrite delete_id by exact E. lia.
Qed.

Lemma sum_positions_insert f (ps : gmap address PositionData) a p :
  f emptyPosition = 0 ->
  sum_positions f (<[a:=p]> ps)
  = sum_positions f ps - f (default emptyPosition (ps !! a)) + f p.
Proof.
  intros Hf. rewrite <- insert_delete_eq.
  rewrite sum_positions_insert_fresh by apply lookup_delete_eq.
  rewrite sum_positions_delete by exact Hf. lia.
Qed.

Lemma sum_positions_nonneg f (ps : gmap address PositionData) :
  (forall a p, ps !! a = Some p -> 0 <= f p) -> 0 <= sum_positions f ps.
Proof.
  induction ps as [|a p ps Hnone IH] using map_ind; intros Hf.
  - rewrite sum_positions_empty. lia.
  - rewrite sum_positions_insert_fresh by exact Hnone.
    assert (0 <= f p) by (apply (Hf a); apply lookup_insert_eq).
    assert (0 <= sum_positions f ps).
    { apply IH. intros b q Hb. apply (Hf b). rewrite lookup_insert_ne; [exact Hb|].
      intros ->. congruence. }
    lia.
Qed.



Lemma sum_positions_member_le f (ps : gmap address PositionData) a :
  f emptyPosition = 0 ->
  (forall b p, ps !! b = Some p -> 0 <= f p) ->
  f (default emptyPosition (ps !! a)) <= sum_positions f ps.
Proof.
  intros Hf Hnn. destruct (ps !! a) as [p|] eqn:E; simpl.
  - rewrite (sum_positions_lookup f ps a p E).
    assert (0 <= sum_positions f (delete a ps)).
    { apply sum_positions_nonneg. intros b q Hb.
      apply lookup_delete_Some in Hb as [_ Hb]. eauto. }
    lia.
  - rewrite Hf. apply sum_positions_nonneg. exact Hnn.
Qed.


(** ** The ledger invariant *)

Lemma collateralized_raw_nonzero s a :
  collateralized s a -> rawCollateral (position s a) <> 0.
Proof.
  intros (c & Hc & Hpos) Hz. rewrite Hz in Hc.
  rewrite getFeeAdjustedCollateral_0 in Hc. injection Hc as <-. lia.
Qed.

Lemma collateralized_tokens_positive s a :
  ledger_inv s -> 0 < minSponsorTokens s -> collateralized s a ->
  0 < tokensOutstanding (position s a).
Proof.
  intros Hinv Hmin Hc. pose proof (collateralized_raw_nonzero _ _ Hc).
  destruct (inv_positions s Hinv a) as (_ & [Hz|[? _]] & Hclosed); [|assumption].
  exfalso. auto.
Qed.

Lemma convertToRawCollateral_nonneg s c d :
  0 <= cumulativeFeeMultiplier s -> 0 <= c ->
  _convertToRawCollateral s c = Ok d -> 0 <= d.
Proof.
  intros Hm Hc Hd. apply convertToRawCollateral_Ok in Hd as (Hnz & _ & ->).
  pose proof FP_SCALING_FACTOR_pos.
  apply Z.div_pos; [nia|lia].
Qed.

Lemma ledger_inv_initial liveness minTokens expiry startTime tokens :
  uint256 minTokens -> ledger_inv (initial liveness minTokens expiry startTime tokens).
Proof.
  intros [Hmin _]. pose proof FP_SCALING_FACTOR_pos.
  constructor; simpl; try lia.
  - intros a. unfold position. simpl. rewrite lookup_empty. simpl.
    unfold position_ok. simpl. auto with zarith.
  - rewrite sum_positions_empty. lia.
  - intros _. apply sum_positions_empty.
  - unfold MAX_UINT256. lia.
Qed.

Lemma ledger_inv_update s s' a p :
  ledger_inv s ->
  positions s' = <[a := p]> (positions s) ->
  position_ok (minSponsorTokens s) p ->
  rawTotalPositionCollateral s'
    = rawTotalPositionCollateral s + rawCollateral p - rawCollateral (position s a) ->
  cumulativeFeeMultiplier s' = cumulativeFeeMultiplier s ->
  minSponsorTokens s' = minSponsorTokens s ->
  rawTotalPositionCollateral s' * cumulativeFeeMultiplier s <= MAX_UINT256 ->
  ledger_inv s'.
Proof.
  intros [Hm Hmin Hpos Hsum Hunit Htot] Hps Hp HT Hm' Hmin' Htot'.
  assert (Hs : sum_positions rawCollateral (positions s')
               = sum_positions rawCollateral (positions s)
                 - rawCollateral (position s a) + rawCollateral p).
  { rewrite Hps. apply sum_positions_insert. reflexivity. }
  constructor; rewrite ?Hm', ?Hmin'; try assumption.
  - intros b. unfold position. rewrite Hps, lookup_insert.
    destruct (decide (a = b)); simpl; [assumption|apply Hpos].
  - lia.
  - intros Hu. specialize (Hunit Hu). lia.
Qed.

Lemma ledger_inv_delete s s' a :
  ledger_inv s ->
  positions s' = delete a (positions s) ->
  rawTotalPositionCollateral s'
    = rawTotalPositionCollateral s - rawCollateral (position s a) ->
  cumulativeFeeMultiplier s' = cumulativeFeeMultiplier s ->
  minSponsorTokens s' = minSponsorTokens s ->
  rawTotalPositionCollateral s' * cumulativeFeeMultiplier s <= MAX_UINT256 ->
  ledger_inv s'.
Proof.
  intros [Hm Hmin Hpos Hsum Hunit Htot] Hps HT Hm' Hmin' Htot'.
  assert (Hs : sum_positions rawCollateral (positions s')
               = sum_positions rawCollateral (positions s) - rawCollateral (position s a)).
  { rewrite Hps. apply sum_positions_delete. reflexivity. }
  constructor; rewrite ?Hm', ?Hmin'; try assumption.
  - intros b. unfold position. rewrite Hps, lookup_delete.
    destruct (decide (a = b)); simpl; [|apply Hpos].
    unfold position_ok. simpl. auto with zarith.
  - lia.
  - intros Hu. specialize (Hunit Hu). lia.
Qed.

Lemma unit_multiplier_adjusted_zero s raw :
  cumulativeFeeMultiplier s = FixedPoint.FP_SCALING_FACTOR ->
  _getFeeAdjustedCollateral s raw = Ok 0 -> raw = 0.
Proof.
  intros Hu H. apply getFeeAdjustedCollateral_Ok in H as [_ H].
  rewrite Hu, Z.div_mul in H; [lia|]. pose proof FP_SCALING_FACTOR_pos. lia.
Qed.

Lemma ledger_inv_transfer s s' a new :
  ledger_inv s ->
  a <> new ->
  _getFeeAdjustedCollateral s (rawCollateral (position s new)) = Ok 0 ->
  positions s' = <[new := with_transferPositionRequestPassTimestamp 0 (position s a)]>
                   (delete a (positions s)) ->
  rawTotalPositionCollateral s' = rawTotalPositionCollateral s ->
  cumulativeFeeMultiplier s' = cumulativeFeeMultiplier s ->
  minSponsorTokens s' = minSponsorTokens s ->
  ledger_inv s'.
Proof.
  intros Hinv Hne Hzero Hps HT Hm' Hmin'.
  pose proof Hinv as [Hm Hmin Hpos Hsum Hunit Htot].
  assert (Hs : sum_positions rawCollateral (positions s')
               = sum_positions rawCollateral (positions s)
                 - rawCollateral (position s new)).
  { rewrite Hps, sum_positions_insert by reflexivity.
    rewrite lookup_delete_ne by exact Hne.
    rewrite sum_positions_delete by reflexivity.
    unfold position. simpl. lia. }
  pose proof (Hpos new) as (Hnn & _).
  constructor; rewrite ?Hm', ?Hmin', ?HT; try assumption.
  - intros b. unfold position. rewrite Hps, lookup_insert.
    destruct (decide (new = b)); simpl; [apply (Hpos a)|].
    rewrite lookup_delete. destruct (decide (a = b)); simpl; [|apply Hpos].
    unfold position_ok. simpl. auto with zarith.
  - lia.
  - intros Hu. specialize (Hunit Hu).
    rewrite (unit_multiplier_adjusted_zero s _ Hu Hzero) in Hs. lia.
Qed.

Lemma ledger_inv_total_nonneg s :
  ledger_inv s -> 0 <= rawTotalPositionCollateral s.
Proof.
  intros [Hm Hmin Hpos Hsum Hunit Htot].
  assert (0 <= sum_positions rawCollateral (positions s)); [|lia].
  apply sum_positions_nonneg. intros a p Hp.
  specialize (Hpos a). unfold position in Hpos. rewrite Hp in Hpos. apply Hpos.
Qed.

Lemma ledger_inv_position_le_total s a :
  ledger_inv s -> rawCollateral (position s a) <= rawTotalPositionCollateral s.
Proof.
  intros Hinv. pose proof Hinv as [Hm Hmin Hpos Hsum Hunit Htot].
  assert (rawCollateral (position s a) <= sum_positions rawCollateral (positions s)); [|lia].
  apply (sum_positions_member_le rawCollateral (positions s) a); [reflexivity|].
  intros b p Hp. specialize (Hpos b). unfold position in Hpos. rewrite Hp in Hpos. apply Hpos.
Qed.

Lemma position_ok_same minTokens p q :
  rawCollateral q = rawCollateral p -> tokensOutstanding q = tokensOutstanding p ->
  position_ok minTokens p -> position_ok minTokens q.
Proof. unfold position_ok. intros -> ->. trivial. Qed.

Lemma dispatch_preserves_inv a c s r s' :
  ledger_inv s -> calldata_in_range c = true ->
  dispatch a c s = Ok (r, s') -> ledger_inv s'.
Proof.
  intros Hinv Hrange H.
  pose proof Hinv as [Hm Hmin Hpos Hsum Hunit Htot].
  destruct c; simpl in H, Hrange; unfold discard, deposit in H; inv_M.
  - (* requestTransferPosition *)
    match goal with H : requestTransferPosition _ _ = Ok _ |- _ =>
      apply requestTransferPosition_Ok in H as (_ & _ & _ & ->) end.
    eapply ledger_inv_update; [exact Hinv|reflexivity| | | | |]; simpl; try reflexivity; try lia.
    eapply position_ok_same; [| |apply (Hpos a)]; reflexivity.
  - (* transferPositionPassedRequest *)
    match goal with H : transferPositionPassedRequest _ _ _ = Ok _ |- _ =>
      apply transferPositionPassedRequest_Ok in H as (_ & _ & Hz & _ & _ & Hne & ->) end.
    eapply ledger_inv_transfer; [exact Hinv|exact Hne|exact Hz|reflexivity..].
  - (* cancelTransferPosition *)
    match goal with H : cancelTransferPosition _ _ = Ok _ |- _ =>
      apply cancelTransferPosition_Ok in H as (_ & _ & ->) end.
    eapply ledger_inv_update; [exact Hinv|reflexivity| | | | |]; simpl; try reflexivity; try lia.
    eapply position_ok_same; [| |apply (Hpos a)]; reflexivity.
  - (* depositTo *)
    match goal with H : depositTo _ _ _ _ = Ok _ |- _ =>
      apply depositTo_Ok in H as (Hc & _ & Hpos_c & d & Hd & Hmax & ->) end.
    assert (0 <= d) by (eapply convertToRawCollateral_nonneg; [apply Hm| |exact Hd]; lia).
    pose proof (collateralized_raw_nonzero _ _ Hc).
    eapply ledger_inv_update; [exact Hinv|reflexivity| | | | |]; simpl; try reflexivity; try lia.
    destruct (Hpos sponsor) as (? & ? & ?).
    unfold position_ok; simpl. repeat split; try lia; try assumption.
  - (* deposit *)
    match goal with H : depositTo _ _ _ _ = Ok _ |- _ =>
      apply depositTo_Ok in H as (Hc & _ & Hpos_c & d & Hd & Hmax & ->) end.
    assert (0 <= d) by (eapply convertToRawCollateral_nonneg; [apply Hm| |exact Hd]; lia).
    pose proof (collateralized_raw_nonzero _ _ Hc).
    eapply ledger_inv_update; [exact Hinv|reflexivity| | | | |]; simpl; try reflexivity; try lia.
    destruct (Hpos a) as (? & ? & ?).
    unfold position_ok; simpl. repeat split; try lia; try assumption.
  - (* withdraw *)
    match goal with H : withdraw _ _ _ = Ok _ |- _ =>
      apply withdraw_Ok in H as (Hc & _ & _ & d & Hd & ? & ? & ? & _ & _ & ->) end.
    pose proof (collateralized_raw_nonzero _ _ Hc).
    eapply ledger_inv_update; [exact Hinv|reflexivity| | | | |]; simpl; try reflexivity; try lia.
    destruct (Hpos a) as (? & ? & ?).
    unfold position_ok; simpl. repeat split; try lia; try assumption.
  - (* requestWithdrawal *)
    match goal with H : requestWithdrawal _ _ _ = Ok _ |- _ =>
      apply requestWithdrawal_Ok in H as (_ & _ & _ & ->) end.
    eapply ledger_inv_update; [exact Hinv|reflexivity| | | | |]; simpl; try reflexivity; try lia.
    eapply position_ok_same; [| |apply (Hpos a)]; reflexivity.
  - (* withdrawPassedRequest *)
    match goal with H : withdrawPassedRequest _ _ = Ok _ |- _ =>
      apply withdrawPassedRequest_Ok in H as (Hc & _ & _ & d & Hd & ? & ? & ? & _ & ->) end.
    pose proof (collateralized_raw_nonzero _ _ Hc).
    eapply ledger_inv_update; [exact Hinv|reflexivity| | | | |]; simpl; try reflexivity; try lia.
    destruct (Hpos a) as (? & ? & ?).
    unfold position_ok; simpl. repeat split; try lia; try assumption.
  - (* cancelWithdrawal *)
    match goal with H : cancelWithdrawal _ _ = Ok _ |- _ =>
      apply cancelWithdrawal_Ok in H as (_ & _ & ->) end.
    eapply ledger_inv_update; [exact Hinv|reflexivity| | | | |]; simpl; try reflexivity; try lia.
    eapply position_ok_same; [| |apply (Hpos a)]; reflexivity.
  - (* create *)
    apply andb_true_iff in Hrange as [Hc Hn].
    unfold is_uint256 in Hc, Hn.
    apply andb_true_iff in Hc as [Hc _]. apply andb_true_iff in Hn as [Hn _].
    apply Z.leb_le in Hc, Hn.
    match goal with H : create _ _ _ _ = Ok _ |- _ =>
      apply create_Ok in H as (_ & Hnew & _ & _ & fa & d & _ & _ & Hd & Hmax & ->) end.
    assert (0 <= d) by (eapply convertToRawCollateral_nonneg; [apply Hm| |exact Hd]; lia).
    eapply ledger_inv_update; [exact Hinv|reflexivity| | | | |]; simpl; try reflexivity; try lia.
    destruct (Hpos a) as (? & ? & ?).
    unfold position_ok; simpl. repeat split; try lia.
  - (* redeem *)
    unfold is_uint256 in Hrange. apply andb_true_iff in Hrange as [Hn _]. apply Z.leb_le in Hn.
    match goal with H : redeem _ _ _ = Ok _ |- _ =>
      apply redeem_Ok in H as (Hc & _ & Hle & Hnz & [Hfull|Hpart]) end.
    + destruct Hfull as (_ & ? & ? & _ & _ & ->).
      eapply ledger_inv_delete; [exact Hinv|reflexivity| | | |]; simpl; try reflexivity; try lia.
    + destruct Hpart as (Hne & ? & _ & d & ? & ? & ? & _ & ->).
      eapply ledger_inv_update; [exact Hinv|reflexivity| | | | |]; simpl; try reflexivity; try lia.
      destruct (Hpos a) as (? & ? & ?).
      unfold position_ok; simpl. repeat split; try lia.
Qed.

Lemma step_preserves_inv e s s' :
  ledger_inv s -> step e s = Ok s' -> ledger_inv s'.
Proof.
  intros Hinv H. destruct e as [a c|t|m|o]; simpl in H.
  - destruct (calldata_in_range c) eqn:Hr; [|discriminate].
    destruct (dispatch a c s) as [[r s1]|] eqn:E; [|discriminate].
    injection H as <-. eapply dispatch_preserves_inv; eassumption.
  - destruct (advanceTime t s) as [[r s1]|] eqn:E; [|discriminate].
    injection H as <-. unfold advanceTime in E. inv_M.
    destruct Hinv. constructor; assumption.
  - destruct (payFees m s) as [[r s1]|] eqn:E; [|discriminate].
    injection H as <-. unfold payFees in E. inv_M.
    match goal with H : (_ && _)%bool = true |- _ =>
      apply andb_true_iff in H as [H0 H1]; apply Z.leb_le in H0, H1 end.
    pose proof (ledger_inv_total_nonneg _ Hinv).
    destruct Hinv as [Hm Hmin Hpos Hsum Hunit Htot].
    constructor; simpl; try assumption; try lia.
    nia.
  - injection H as <-. destruct Hinv. constructor; assumption.
Qed.

Lemma reachable_inv s : reachable s -> ledger_inv s.
Proof.
  induction 1 as [liveness minTokens expiry startTime tokens Hl Hm He Ht | s e s' Hr IH Hstep].
  - apply ledger_inv_initial. exact Hm.
  - eapply step_preserves_inv; eassumption.
Qed.

(** ** Which positions a successful call writes *)

Lemma dispatch_positions a c s r s' :
  dispatch a c s = Ok (r, s') ->
  match c with
  | call_transferPositionPassedRequest new =>
      collateralized s a /\ a <> new /\
      _getFeeAdjustedCollateral s (rawCollateral (position s new)) = Ok 0 /\
      positions s' = <[new := with_transferPositionRequestPassTimestamp 0 (position s a)]>
                       (delete a (positions s))
  | call_depositTo sponsor _ =>
      collateralized s sponsor /\
      exists p, positions s' = <[sponsor := p]> (positions s) /\
                tokensOutstanding p = tokensOutstanding (position s sponsor)
  | call_create _ n =>
      exists p, positions s' = <[a := p]> (positions s) /\
                tokensOutstanding p = tokensOutstanding (position s a) + n
  | call_redeem n =>
      collateralized s a /\
      ((n = tokensOutstanding (position s a) /\ positions s' = delete a (positions s)) \/
       (n <> tokensOutstanding (position s a) /\
        minSponsorTokens s <= tokensOutstanding (position s a) - n /\
        exists p, positions s' = <[a := p]> (positions s) /\
                  tokensOutstanding p = tokensOutstanding (position s a) - n))
  | _ =>
      collateralized s a /\
      exists p, positions s' = <[a := p]> (positions s) /\
                tokensOutstanding p = tokensOutstanding (position s a)
  end.
Proof.
  intros H. destruct c; simpl in H; unfold discard, deposit in H; inv_M.
  - match goal with H : requestTransferPosition _ _ = Ok _ |- _ =>
      apply requestTransferPosition_Ok in H as (Hc & _ & _ & ->) end.
    split; [exact Hc|]. eexists. split; reflexivity.
  - match goal with H : transferPositionPassedRequest _ _ _ = Ok _ |- _ =>
      apply transferPositionPassedRequest_Ok in H as (Hc & _ & Hz & _ & _ & Hne & ->) end.
    auto.
  - match goal with H : cancelTransferPosition _ _ = Ok _ |- _ =>
      apply cancelTransferPosition_Ok in H as (Hc & _ & ->) end.
    split; [exact Hc|]. eexists. split; reflexivity.
  - match goal with H : depositTo _ _ _ _ = Ok _ |- _ =>
      apply depositTo_Ok in H as (Hc & _ & _ & d & _ & _ & ->) end.
    split; [exact Hc|]. eexists. split; reflexivity.
  - match goal with H : depositTo _ _ _ _ = Ok _ |- _ =>
      apply depositTo_Ok in H as (Hc & _ & _ & d & _ & _ & ->) end.
    split; [exact Hc|]. eexists. split; reflexivity.
  - match goal with H : withdraw _ _ _ = Ok _ |- _ =>
      apply withdraw_Ok in H as (Hc & _ & _ & d & _ & _ & _ & _ & _ & _ & ->) end.
    split; [exact Hc|]. eexists. split; reflexivity.
  - match goal with H : requestWithdrawal _ _ _ = Ok _ |- _ =>
      apply requestWithdrawal_Ok in H as (Hc & _ & _ & ->) end.
    split; [exact Hc|]. eexists. split; reflexivity.
  - match goal with H : withdrawPassedRequest _ _ = Ok _ |- _ =>
      apply withdrawPassedRequest_Ok in H as (Hc & _ & _ & d & _ & _ & _ & _ & _ & ->) end.
    split; [exact Hc|]. eexists. split; reflexivity.
  - match goal with H : cancelWithdrawal _ _ = Ok _ |- _ =>
      apply cancelWithdrawal_Ok in H as (Hc & _ & ->) end.
    split; [exact Hc|]. eexists. split; reflexivity.
  - match goal with H : create _ _ _ _ = Ok _ |- _ =>
      apply create_Ok in H as (_ & _ & _ & _ & fa & d & _ & _ & _ & _ & ->) end.
    eexists. split; reflexivity.
  - match goal with H : redeem _ _ _ = Ok _ |- _ =>
      apply redeem_Ok in H as (Hc & _ & _ & _ & [Hfull|Hpart]) end.
    + destruct Hfull as (? & _ & _ & _ & _ & ->). split; [exact Hc|]. left. auto.
    + destruct Hpart as (? & ? & _ & d & _ & _ & _ & _ & ->).
      split; [exact Hc|]. right. repeat split; try assumption.
      eexists. split; reflexivity.
Qed.

Lemma step_Ok_cases e s s' :
  step e s = Ok s' ->
  (exists a c r, e = transaction a c /\ calldata_in_range c = true /\
                 dispatch a c s = Ok (r, s')) \/
  (((exists t, e = timePasses t) \/ (exists o, e = tokensChange o)) /\
   positions s' = positions s) \/
  ((exists m, e = feesCharged m /\ 0 <= m <= cumulativeFeeMultiplier s /\
              cumulativeFeeMultiplier s' = m) /\ positions s' = positions s).
Proof.
  intros H. destruct e as [a c|t|m|o]; simpl in H.
  - destruct (calldata_in_range c) eqn:Hr; [|discriminate].
    destruct (dispatch a c s) as [[r s1]|] eqn:E; [|discriminate].
    injection H as <-. left. eauto 10.
  - destruct (advanceTime t s) as [[r s1]|] eqn:E; [|discriminate].
    injection H as <-. unfold advanceTime in E. inv_M. right. left. eauto.
  - destruct (payFees m s) as [[r s1]|] eqn:E; [|discriminate].
    injection H as <-. unfold payFees in E. inv_M.
    match goal with H : (_ && _)%bool = true |- _ =>
      apply andb_true_iff in H as [H0 H1]; apply Z.leb_le in H0, H1 end.
    right. right. split; [|reflexivity]. exists m. simpl. auto.
  - injection H as <-. right. left. eauto.
Qed.

Lemma run_reachable es : forall s s', reachable s -> run es s = Ok s' -> reachable s'.
Proof.
  induction es as [|e es IH]; simpl; intros s s' Hr H.
  - injection H as <-. exact Hr.
  - destruct (step e s) as [s1|] eqn:E; [|discriminate].
    eapply IH; [|exact H]. eapply reachable_step; eassumption.
Qed.

(** ** Scenarios of the specification *)

Lemma genesis_reachable : reachable genesis.
Proof. apply reachable_initial; unfold uint256; vm_compute; split; discriminate. Qed.

Lemma genesis_no_minimum_reachable : reachable genesis_no_minimum.
Proof. apply reachable_initial; unfold uint256; vm_compute; split; discriminate. Qed.

Lemma final_reachable es s s' :
  reachable s -> run es s = Ok s' -> reachable (final es s).
Proof. intros Hr H. unfold final. rewrite H. eapply run_reachable; eassumption. Qed.

Example lifecycle_runs :
  run lifecycle_events genesis = Ok lifecycle_state /\
  position lifecycle_state alice = mkPositionData (units 100) 0 0 (units 150) 0 /\
  tokenCalls lifecycle_state =
    [ collateral_safeTransferFrom alice (units 150); tokenCurrency_mint alice (units 100);
      collateral_safeTransferFrom alice (units 50); collateral_safeTransfer alice (units 50) ] /\
  redeem alice (units 100) lifecycle_state
    = Ok (units 150,
          mkState ∅ 0 0 1000 (units 10) 1000000 FixedPoint.FP_SCALING_FACTOR 2000
            (tokenCalls lifecycle_state ++
               [ collateral_safeTransfer alice (units 150);
                 tokenCurrency_safeTransferFrom alice (units 100);
                 tokenCurrency_burn (units 100) ]) (tokenOutcome lifecycle_state)).
Proof. vm_compute. repeat split; reflexivity. Qed.

Example gcr_gate :
  run [ transaction alice (call_create (units 150) (units 100)) ] genesis
    = Ok (final [ transaction alice (call_create (units 150) (units 100)) ] genesis) /\
  create bob (units 100) (units 100)
         (final [ transaction alice (call_create (units 150) (units 100)) ] genesis)
    = Revert "Insufficient collateral" /\
  position (final [ transaction alice (call_create (units 150) (units 100));
                    transaction bob (call_create (units 160) (units 100)) ] genesis) bob
    = mkPositionData (units 100) 0 0 (units 160) 0.
Proof. vm_compute. repeat split; reflexivity. Qed.

(** ** Global solvency *)

Lemma adjustedCollateral_value s raw :
  raw * cumulativeFeeMultiplier s <= MAX_UINT256 ->
  _getFeeAdjustedCollateral s raw
    = Ok (raw * cumulativeFeeMultiplier s / FixedPoint.FP_SCALING_FACTOR) /\
  adjustedCollateral s raw = raw * cumulativeFeeMultiplier s / FixedPoint.FP_SCALING_FACTOR.
Proof.
  intros H. assert (E : _getFeeAdjustedCollateral s raw
                        = Ok (raw * cumulativeFeeMultiplier s / FixedPoint.FP_SCALING_FACTOR))
    by (apply getFeeAdjustedCollateral_Ok; auto).
  split; [exact E|]. unfold adjustedCollateral. rewrite E. reflexivity.
Qed.

Lemma ledger_inv_position_adjustable s a :
  ledger_inv s ->
  rawCollateral (position s a) * cumulativeFeeMultiplier s <= MAX_UINT256.
Proof.
  intros Hinv. pose proof (ledger_inv_position_le_total s a Hinv).
  destruct Hinv as [Hm Hmin Hpos Hsum Hunit Htot].
  destruct (Hpos a) as (? & _). nia.
Qed.











(** The overwritten record of the example: one raw unit is in the aggregate
    and in no position. *)
Example absorbed_dust :
  run absorbed_events genesis = Ok absorbed_state /\
  overwritten absorbed_events genesis = 1 /\
  rawTotalPositionCollateral absorbed_state = units 150 + 1 /\
  sum_positions rawCollateral (positions absorbed_state) = units 150.
Proof. vm_compute. repeat split; reflexivity. Qed.

(** ** Minimum position size *)

Lemma position_of_lookup (s' : State) (ps : gmap address PositionData) b :
  positions s' = ps -> position s' b = default emptyPosition (ps !! b).
Proof. intros <-. reflexivity. Qed.

(** The internal reduction used by liquidations keeps the same discipline:
    it either deletes the position or leaves at least [minSponsorTokens]. *)
Lemma reduceSponsorPosition_minimum a tokensToRemove collateralToRemove amountToRemove s r s' :
  _reduceSponsorPosition a tokensToRemove collateralToRemove amountToRemove s = Ok (r, s') ->
  position s' a = emptyPosition \/
  (tokensOutstanding (position s' a) = tokensOutstanding (position s a) - tokensToRemove /\
   minSponsorTokens s' <= tokensOutstanding (position s' a)).
Proof.
  unfold _reduceSponsorPosition. intros H.
  apply bind_Ok in H as (p & s1 & Hget & H).
  apply getPositionData_Ok in Hget as (Hp & Hs1 & _). subst p s1.
  apply bind_Ok in H as (s0 & s2 & Hs & H). apply get_Ok in Hs.
  injection Hs as Hs0 Hs2. subst s0 s2.
  apply bind_Ok in H as (whole & s3 & Hwhole & H).
  assert (s3 = s) as ->.
  { unfold and_then in Hwhole.
    destruct (FixedPoint.isEqual _ _); inv_M; reflexivity. }
  destruct whole.
  - left. inv_M.
    match goal with H : _deleteSponsorPosition _ _ = Ok _ |- _ =>
      apply deleteSponsorPosition_Ok in H as (_ & _ & _ & _ & _ & ->) end.
    rewrite position_delete. destruct (decide (a = a)); congruence.
  - right. inv_M.
    match goal with H : _decrementCollateralBalances _ _ _ = Ok _ |- _ =>
      apply decrementCollateralBalances_Ok in H as (d & _ & _ & _ & _ & _ & ->) end.
    inv_helpers.
    match goal with H : FixedPoint.isGreaterThanOrEqual _ _ = true |- _ =>
      unfold FixedPoint.isGreaterThanOrEqual in H; apply Z.leb_le in H; revert H end.
    norm_state. intros Hmin. split; [reflexivity|exact Hmin].
Qed.

(** C3, counterexample.  In a ledger configured with [minSponsorTokens = 0],
    Bob mints 5 tokens against no collateral and Alice deposits collateral
    while minting no tokens; when Alice's transfer request has passed she
    transfers her position to Bob.  Bob's [tokensOutstanding] goes from 5 to
    0 although Bob closed nothing, and his collateral is then 10, not 0. *)
Lemma zero_minimum_position_overwritten :
  reachable overwrite_state /\
  minSponsorTokens overwrite_state = 0 /\
  step (transaction alice (call_transferPositionPassedRequest bob)) overwrite_state
    = Ok overwrite_state_after /\
  tokensOutstanding (position overwrite_state bob) = 5 /\
  tokensOutstanding (position overwrite_state_after bob) = 0 /\
  rawCollateral (position overwrite_state_after bob) = 10.
Proof.
  split.
  - eapply final_reachable; [apply genesis_no_minimum_reachable|]. vm_compute. reflexivity.
  - vm_compute. repeat split; reflexivity.
Qed.

(** C3, as amended.  After every successful operation on a reachable
    ledger, every position has either no tokens outstanding or at least
    [minSponsorTokens].  A position's [tokensOutstanding] goes from positive
    to zero only when its sponsor redeems all of its outstanding tokens or
    transfers the position away, and the position is then absent (all
    fields zero, so its collateral too); or, in a ledger configured with
    [minSponsorTokens] zero, when another sponsor transfers a position
    without tokens onto it, which the ledger accepts because the record's
    fee-adjusted collateral is zero, and which replaces the record by the
    transferred one. *)
Theorem minimum_size_invariant s e s' :
  reachable s -> step e s = Ok s' ->
  (forall a, tokensOutstanding (position s' a) = 0 \/
             minSponsorTokens s' <= tokensOutstanding (position s' a)) /\
  (forall a, 0 < tokensOutstanding (position s a) ->
             tokensOutstanding (position s' a) = 0 ->
             (position s' a = emptyPosition /\
              (e = transaction a (call_redeem (tokensOutstanding (position s a))) \/
               exists newSponsor,
                 e = transaction a (call_transferPositionPassedRequest newSponsor))) \/
             (exists sender,
                sender <> a /\
                e = transaction sender (call_transferPositionPassedRequest a) /\
                minSponsorTokens s = 0 /\
                tokensOutstanding (position s sender) = 0 /\
                _getFeeAdjustedCollateral s (rawCollateral (position s a)) = Ok 0 /\
                position s' a
                = with_transferPositionRequestPassTimestamp 0 (position s sender))).
Proof.
  intros Hr Hstep.
  pose proof (reachable_inv s Hr) as Hinv.
  pose proof (reachable_inv s' (reachable_step s e s' Hr Hstep)) as Hinv'.
  split.
  - intros a. destruct (inv_positions s' Hinv' a) as (_ & [Hz|[_ Hge]] & _); auto.
  - intros b Hpos Hzero.
    apply step_Ok_cases in Hstep as [(a & c & r & -> & Hrange & Hd)|[[_ Hps]|[_ Hps]]].
    2,3: exfalso; rewrite (position_of_lookup _ _ b Hps) in Hzero;
         change (default emptyPosition (positions s !! b)) with (position s b) in Hzero; lia.
    pose proof (dispatch_positions a c s r s' Hd) as Hshape.
    assert (Hsingle : forall x p,
               positions s' = <[x := p]> (positions s) ->
               tokensOutstanding (position s x) <= tokensOutstanding p -> False).
    { intros x p Hps Hle. rewrite (position_of_lookup _ _ b Hps), lookup_insert in Hzero.
      destruct (decide (x = b)) as [->|]; simpl in Hzero; [lia|].
      change (default emptyPosition (positions s !! b)) with (position s b) in Hzero. lia. }
    destruct c; simpl in Hshape, Hrange;
      try (exfalso; destruct Hshape as (_ & p & Hps & Hp); eapply Hsingle; [exact Hps|lia]).
    + (* transferPositionPassedRequest *)
      destruct Hshape as (Hc & Hne & Hzero_new & Hps).
      rewrite (position_of_lookup _ _ b Hps), lookup_insert in Hzero |- *.
      destruct (decide (newSponsorAddress = b)) as [->|]; simpl in Hzero |- *.
      * right. exists a. split; [exact Hne|]. split; [reflexivity|].
        assert (Hmin0 : minSponsorTokens s = 0).
        { pose proof (inv_minSponsorTokens s Hinv) as Hge.
          destruct (Z.eq_dec (minSponsorTokens s) 0) as [|Hnz]; [assumption|].
          assert (Hmin : 0 < minSponsorTokens s) by lia.
          pose proof (collateralized_tokens_positive s a Hinv Hmin Hc). lia. }
        repeat split; assumption.
      * left. rewrite lookup_delete in Hzero |- *.
        destruct (decide (a = b)) as [->|]; simpl in Hzero |- *.
        -- split; [reflexivity|]. right. eauto.
        -- change (default emptyPosition (positions s !! b)) with (position s b) in Hzero. lia.
    + (* create *)
      exfalso. apply andb_true_iff in Hrange as [_ Hn].
      unfold is_uint256 in Hn. apply andb_true_iff in Hn as [Hn _]. apply Z.leb_le in Hn.
      destruct Hshape as (p & Hps & Hp). eapply Hsingle; [exact Hps|lia].
    + (* redeem *)
      destruct Hshape as (Hc & [[Hn Hps]|(Hn & Hge & p & Hps & Hp)]).
      * left. rewrite (position_of_lookup _ _ b Hps), lookup_delete in Hzero |- *.
        destruct (decide (a = b)) as [->|]; simpl in Hzero |- *.
        -- split; [reflexivity|]. left. rewrite Hn. reflexivity.
        -- change (default emptyPosition (positions s !! b)) with (position s b) in Hzero. lia.
      * exfalso. rewrite (position_of_lookup _ _ b Hps), lookup_insert in Hzero.
        destruct (decide (a = b)) as [->|]; simpl in Hzero; [lia|].
        change (default emptyPosition (positions s !! b)) with (position s b) in Hzero. lia.
Qed.

Lemma minimum_size_invariant_witness :
  reachable lifecycle_state /\
  step (transaction alice (call_redeem (units 100))) lifecycle_state
    = Ok (after (transaction alice (call_redeem (units 100))) lifecycle_state) /\
  position (after (transaction alice (call_redeem (units 100))) lifecycle_state) alice
    = emptyPosition.
Proof.
  assert (Hr : reachable lifecycle_state).
  { eapply final_reachable; [apply genesis_reachable|]. vm_compute. reflexivity. }
  assert (Hs : step (transaction alice (call_redeem (units 100))) lifecycle_state
               = Ok (after (transaction alice (call_redeem (units 100))) lifecycle_state)).
  { vm_compute. reflexivity. }
  split; [exact Hr|]. split; [exact Hs|].
  assert (Hpos : 0 < tokensOutstanding (position lifecycle_state alice))
    by (vm_compute; reflexivity).
  assert (Hzero : tokensOutstanding
                    (position (after (transaction alice (call_redeem (units 100)))
                                 lifecycle_state) alice) = 0)
    by (vm_compute; reflexivity).
  destruct (proj2 (minimum_size_invariant lifecycle_state _ _ Hr Hs) alice Hpos Hzero)
    as [[Hempty _] | (sender & _ & Heq & _)].
  - exact Hempty.
  - discriminate Heq.
Defined.

(** ** Collateralization ratio of a zero-token pair *)

Lemma getCollateralizationRatio_zero_tokens collateral :
  _getCollateralizationRatio collateral 0 = Ok 0.
Proof. reflexivity. Qed.

Lemma getCollateralizationRatio_nonneg collateral numTokens r :
  0 <= collateral -> _getCollateralizationRatio collateral numTokens = Ok r -> 0 <= r.
Proof.
  unfold _getCollateralizationRatio, FixedPoint.isGreaterThan. intros Hc.
  destruct (Z.ltb_spec 0 numTokens); simpl.
  - intros Hd. apply FixedPoint_div_Ok in Hd as (_ & _ & ->).
    pose proof FP_SCALING_FACTOR_pos. apply Z.div_pos; nia.
  - rewrite fromUnscaledUint_0. intros [= <-]. lia.
Qed.

Lemma checkCollateralization_run c n s total global this :
  _getFeeAdjustedCollateral s (rawTotalPositionCollateral s) = Ok total ->
  _getCollateralizationRatio total (totalTokensOutstanding s) = Ok global ->
  _getCollateralizationRatio c n = Ok this ->
  _checkCollateralization c n s = Ok (negb (FixedPoint.isGreaterThan global this), s).
Proof.
  intros H1 H2 H3. unfold _checkCollateralization, bind, get, lift, ret.
  rewrite H1, H2, H3. reflexivity.
Qed.

(** C4.  The ratio helper returns exactly zero for a zero token count, for
    every collateral value, without dividing.  Consequently, in every state
    and for every collateral value, a candidate pair with zero tokens passes
    the collateralization check only when the global ratio is not positive,
    and then the marginal check of [create] passes as well: the candidate
    fails unless the marginal-only check passes, and the disjunction of
    [create] is decided by the marginal check alone. *)
Theorem zero_token_candidate_needs_marginal_check
    (s : State) (collateral marginalCollateral marginalTokens marginalRatio : Z) :
  0 <= marginalCollateral ->
  _getCollateralizationRatio marginalCollateral marginalTokens = Ok marginalRatio ->
  _getCollateralizationRatio collateral 0 = Ok 0 /\
  (forall s', _checkCollateralization collateral 0 s = Ok (true, s') ->
     (exists total global,
        _getFeeAdjustedCollateral s (rawTotalPositionCollateral s) = Ok total /\
        _getCollateralizationRatio total (totalTokensOutstanding s) = Ok global /\
        global <= 0) /\
     _checkCollateralization marginalCollateral marginalTokens s = Ok (true, s)) /\
  or_else (_checkCollateralization collateral 0)
          (_checkCollateralization marginalCollateral marginalTokens) s
  = _checkCollateralization marginalCollateral marginalTokens s.
Proof.
  intros Hc Hratio.
  pose proof (getCollateralizationRatio_nonneg _ _ _ Hc Hratio) as Hnn.
  split; [apply getCollateralizationRatio_zero_tokens|].
  assert (Hpass : forall s', _checkCollateralization collateral 0 s = Ok (true, s') ->
            (exists total global,
               _getFeeAdjustedCollateral s (rawTotalPositionCollateral s) = Ok total /\
               _getCollateralizationRatio total (totalTokensOutstanding s) = Ok global /\
               global <= 0) /\
            _checkCollateralization marginalCollateral marginalTokens s = Ok (true, s)).
  { intros s' H.
    apply checkCollateralization_Ok in H as (-> & total & global & this & Ht & Hg & Hthis & Hb).
    rewrite getCollateralizationRatio_zero_tokens in Hthis. injection Hthis as <-.
    symmetry in Hb. apply negb_true_iff in Hb.
    unfold FixedPoint.isGreaterThan in Hb. apply Z.ltb_ge in Hb.
    split; [eauto|].
    rewrite (checkCollateralization_run _ _ _ _ _ _ Ht Hg Hratio).
    unfold FixedPoint.isGreaterThan.
    replace (marginalRatio <? global) with false by (symmetry; apply Z.ltb_ge; lia).
    reflexivity. }
  split; [exact Hpass|].
  unfold or_else, bind.
  destruct (_checkCollateralization collateral 0 s) as [[b s1]|msg] eqn:E.
  - pose proof (checkCollateralization_Ok _ _ _ _ _ E) as (-> & _).
    destruct b; [|reflexivity].
    destruct (Hpass _ eq_refl) as [_ ->]. reflexivity.
  - unfold _checkCollateralization, bind, get, lift in E |- *.
    destruct (_getFeeAdjustedCollateral s (rawTotalPositionCollateral s)) as [total|];
      [|congruence].
    destruct (_getCollateralizationRatio total (totalTokensOutstanding s)) as [global|];
      [|congruence].
    rewrite getCollateralizationRatio_zero_tokens in E. discriminate.
Qed.

Lemma zero_token_candidate_needs_marginal_check_witness :
  _getCollateralizationRatio (units 7) 0 = Ok 0 /\
  or_else (_checkCollateralization (units 7) 0)
          (_checkCollateralization (units 160) (units 100)) gcr_state
  = _checkCollateralization (units 160) (units 100) gcr_state.
Proof.
  assert (H0 : 0 <= units 160) by (vm_compute; discriminate).
  assert (H1 : _getCollateralizationRatio (units 160) (units 100) = Ok 1600000000000000000)
    by (vm_compute; reflexivity).
  destruct (zero_token_candidate_needs_marginal_check gcr_state (units 7) _ _ _ H0 H1)
    as (Ha & _ & Hb).
  split; [exact Ha|exact Hb].
Defined.

(** ** Collateralization of the one-step paths *)

Lemma getCollateralizationRatio_mono c1 c2 n r2 :
  c1 <= c2 -> _getCollateralizationRatio c2 n = Ok r2 ->
  exists r1, _getCollateralizationRatio c1 n = Ok r1 /\ r1 <= r2.
Proof.
  unfold _getCollateralizationRatio, FixedPoint.isGreaterThan. intros Hc.
  destruct (Z.ltb_spec 0 n); simpl.
  - intros Hd. apply FixedPoint_div_Ok in Hd as (Hnz & Hmax & ->).
    pose proof FP_SCALING_FACTOR_pos.
    eexists. split.
    + apply FixedPoint_div_Ok. repeat split; [exact Hnz|nia].
    + apply Z.div_le_mono; [lia|nia].
  - intros ->. eexists. split; [reflexivity|lia].
Qed.

Lemma getFeeAdjustedCollateral_mono s x y v :
  0 <= cumulativeFeeMultiplier s -> y <= x ->
  _getFeeAdjustedCollateral s x = Ok v ->
  exists w, _getFeeAdjustedCollateral s y = Ok w /\ w <= v.
Proof.
  intros Hm Hle H. apply getFeeAdjustedCollateral_Ok in H as [Hmax ->].
  pose proof FP_SCALING_FACTOR_pos.
  eexists. split.
  - apply getFeeAdjustedCollateral_Ok. split; [nia|reflexivity].
  - apply Z.div_le_mono; [lia|nia].
Qed.

(** C2, counterexample.  The global ratio is 0.8 (Alice 150/100, Bob
    10/100).  Bob's [create(80, 100)] succeeds through the marginal check
    (80/100 = 0.8); his resulting position 90/200 has ratio 0.45, strictly
    below the resulting global ratio 240/300 = 0.8. *)
Lemma create_leaves_position_below_resulting_global_ratio :
  reachable gcr_state /\
  create bob (units 80) (units 100) gcr_state = Ok (tt, gcr_state_after) /\
  positionCollateralizationRatio gcr_state_after bob = Ok 450000000000000000 /\
  globalCollateralizationRatio gcr_state_after = Ok 800000000000000000.
Proof.
  split.
  - eapply final_reachable; [apply genesis_reachable|]. vm_compute. reflexivity.
  - vm_compute. repeat split; reflexivity.
Qed.

(** What [create] leaves in the caller's position: the raw equivalent of
    the collateral added, whose fee adjustment is defined. *)
Lemma create_position_collateral a c n s r s' :
  create a c n s = Ok (r, s') ->
  exists d,
    _convertToRawCollateral s c = Ok d /\
    (rawCollateral (position s a) + d) * cumulativeFeeMultiplier s <= MAX_UINT256 /\
    rawCollateral (position s' a) = rawCollateral (position s a) + d /\
    tokensOutstanding (position s' a) = tokensOutstanding (position s a) + n /\
    cumulativeFeeMultiplier s' = cumulativeFeeMultiplier s.
Proof.
  intros H. pose proof H as H0.
  apply create_Ok in H0 as (_ & _ & _ & _ & fa & d & _ & _ & Hd & _ & ->).
  exists d. split; [exact Hd|].
  match type of H with
  | _ = Ok (_, ?st) =>
      assert (Hp : position st a
                   = with_tokensOutstanding (tokensOutstanding (position s a) + n)
                       (with_rawCollateral (rawCollateral (position s a) + d) (position s a)))
        by (unfold position at 1; cbn [positions]; rewrite lookup_insert_eq; reflexivity);
      rewrite !Hp
  end.
  cbn. repeat split; try reflexivity.
  unfold create in H. inv_M. inv_helpers.
  match goal with H : or_else _ _ _ = Ok (_, ?s1) |- _ =>
    assert (s1 = s) as ->
      by (eapply or_else_state; [| |exact H];
          intros ? ? Hc; apply checkCollateralization_Ok in Hc as [-> _]; reflexivity)
  end.
  match goal with H : _incrementCollateralBalances _ _ ?s1 = Ok _ |- _ =>
    assert (s1 = s) as ->
  end.
  { unfold FixedPoint.isEqual in *.
    match goal with H : (if ?b then _ else _) _ = Ok _ |- _ => destruct b; inv_M; reflexivity end. }
  match goal with H : _incrementCollateralBalances _ _ _ = Ok _ |- _ =>
    unfold _incrementCollateralBalances in H; apply bind_Ok in H as (s0 & s1 & Hget & H);
    apply get_Ok in Hget; injection Hget as <- <-;
    apply bind_Ok in H as (u & s2 & Hadd & _); apply lift_Ok in Hadd as (u' & Hadd & _)
  end.
  apply addCollateral_Ok in Hadd as (d' & before & later & Hd' & _ & Hlater & _).
  rewrite Hd in Hd'. injection Hd' as <-.
  apply getFeeAdjustedCollateral_Ok in Hlater as [Hlater _]. exact Hlater.
Qed.

(** C2, as amended.  Every successful [withdraw] leaves the caller's
    position ratio not below the global ratio measured on the aggregate
    before it is decremented, and hence not below the resulting global
    ratio.  Every successful [create] passed one of two checks against the
    global ratio of the state before the call: on the candidate pair
    (fee-adjusted collateral before the call plus [collateralAmount],
    [tokensOutstanding] before the call plus [numTokens]) or on the added
    pair ([collateralAmount], [numTokens]) alone.  The resulting position
    holds exactly the candidate's tokens; its fee-adjusted collateral is at
    most the candidate's and, with a multiplier of at most 1.0, at least the
    candidate's minus one raw unit, so its ratio is at most the candidate's
    ratio; while the multiplier is 1.0 the two coincide.  The resulting
    position may be below the resulting global ratio. *)
Theorem one_step_paths_checked_against_current_global_ratio (a : address) (s s' : State) :
  0 <= cumulativeFeeMultiplier s ->
  (forall c w, withdraw a c s = Ok (w, s') ->
     exists rp rg rg',
       positionCollateralizationRatio s' a = Ok rp /\
       globalCollateralizationRatio s = Ok rg /\
       globalCollateralizationRatio s' = Ok rg' /\
       rg' <= rg /\ rg <= rp) /\
  (forall c n r, create a c n s = Ok (r, s') ->
     exists fa rg,
       _getFeeAdjustedCollateral s (rawCollateral (position s a)) = Ok fa /\
       globalCollateralizationRatio s = Ok rg /\
       ((exists r1, _getCollateralizationRatio
                      (fa + c) (tokensOutstanding (position s a) + n) = Ok r1 /\ rg <= r1) \/
        (exists r2, _getCollateralizationRatio c n = Ok r2 /\ rg <= r2)) /\
       tokensOutstanding (position s' a) = tokensOutstanding (position s a) + n /\
       exists fa',
         _getFeeAdjustedCollateral s' (rawCollateral (position s' a)) = Ok fa' /\
         fa' <= fa + c /\
         (cumulativeFeeMultiplier s <= FixedPoint.FP_SCALING_FACTOR -> fa + c - 1 <= fa') /\
         (cumulativeFeeMultiplier s = FixedPoint.FP_SCALING_FACTOR -> fa' = fa + c) /\
         (forall r1, _getCollateralizationRatio
                       (fa + c) (tokensOutstanding (position s a) + n) = Ok r1 ->
                     exists rp, positionCollateralizationRatio s' a = Ok rp /\ rp <= r1 /\
                                (cumulativeFeeMultiplier s = FixedPoint.FP_SCALING_FACTOR ->
                                 rp = r1))).
Proof.
  intros Hm. split.
  - intros c w H.
    apply withdraw_Ok in H as (_ & _ & Hc & d & Hd & _ & _ & Hmax & _ & Hchk & ->).
    assert (0 <= d) by (eapply convertToRawCollateral_nonneg; [exact Hm| |exact Hd]; lia).
    simpl in Hchk.
    apply checkPositionCollateralization_Ok in Hchk as (_ & fa & Hfa & Hchk).
    apply checkCollateralization_Ok in Hchk as (_ & total & rg & rp & Ht & Hg & Hp & Hb).
    rewrite position_insert_eq in Hfa, Hp. simpl in Hfa, Hp, Ht, Hg.
    symmetry in Hb. apply negb_true_iff in Hb.
    unfold FixedPoint.isGreaterThan in Hb. apply Z.ltb_ge in Hb.
    rewrite (getFeeAdjustedCollateral_ext _ s) in Hfa, Ht by reflexivity.
    assert (Hdec : rawTotalPositionCollateral s - d <= rawTotalPositionCollateral s) by lia.
    destruct (getFeeAdjustedCollateral_mono s _ _ _ Hm Hdec Ht) as (total' & Ht' & Hle).
    destruct (getCollateralizationRatio_mono _ _ _ _ Hle Hg) as (rg' & Hg' & Hle').
    exists rp, rg, rg'.
    unfold positionCollateralizationRatio, globalCollateralizationRatio, position. simpl.
    rewrite lookup_insert_eq. simpl.
    change (default emptyPosition (positions s !! a)) with (position s a).
    unfold _getFeeAdjustedCollateral in *. simpl.
    rewrite Hfa, Ht, Ht'. auto.
  - intros c n r H.
    pose proof (create_position_collateral a c n s r s' H)
      as (d & Hd & Hmaxp & Hraw' & Htok' & Hm').
    apply create_Ok in H as (_ & _ & _ & _ & fa & d0 & Hfa & Hor & _ & _ & _).
    unfold or_else in Hor. apply bind_Ok in Hor as (b1 & s1 & H1 & H2).
    apply checkCollateralization_Ok in H1 as (-> & total & rg & r1 & Ht & Hg & Hr1 & Hb1).
    exists fa, rg. split; [exact Hfa|]. split.
    { unfold globalCollateralizationRatio. rewrite Ht. exact Hg. }
    split.
    { destruct b1.
      + left. exists r1. split; [exact Hr1|].
        symmetry in Hb1. apply negb_true_iff in Hb1.
        unfold FixedPoint.isGreaterThan in Hb1. apply Z.ltb_ge in Hb1. exact Hb1.
      + right.
        apply checkCollateralization_Ok in H2
          as (_ & total2 & rg2 & r2 & Ht2 & Hg2 & Hr2 & Hb2).
        rewrite Ht in Ht2. injection Ht2 as <-. rewrite Hg in Hg2. injection Hg2 as <-.
        exists r2. split; [exact Hr2|].
        symmetry in Hb2. apply negb_true_iff in Hb2.
        unfold FixedPoint.isGreaterThan in Hb2. apply Z.ltb_ge in Hb2. exact Hb2. }
    split; [exact Htok'|].
    pose proof FP_SCALING_FACTOR_pos as HS.
    set (fa' := (rawCollateral (position s a) + d) * cumulativeFeeMultiplier s
                / FixedPoint.FP_SCALING_FACTOR).
    assert (Hfa' : _getFeeAdjustedCollateral s' (rawCollateral (position s' a)) = Ok fa').
    { rewrite Hraw', (getFeeAdjustedCollateral_ext s' s _ Hm').
      apply getFeeAdjustedCollateral_Ok. split; [exact Hmaxp|reflexivity]. }
    apply getFeeAdjustedCollateral_Ok in Hfa as [Hmaxa ->].
    apply convertToRawCollateral_Ok in Hd as (Hnz & _ & ->).
    set (raw := rawCollateral (position s a)) in *.
    set (m := cumulativeFeeMultiplier s) in *.
    set (S := FixedPoint.FP_SCALING_FACTOR) in *.
    assert (Hfloor : m * (c * S / m) <= c * S) by (apply Z.mul_div_le; lia).
    assert (Hceil : c * S < m * Z.succ (c * S / m)) by (apply Z.mul_succ_div_gt; lia).
    assert (Hup : fa' <= raw * m / S + c).
    { unfold fa'.
      assert (Hle : (raw + c * S / m) * m <= raw * m + c * S) by lia.
      apply (Z.div_le_mono _ _ S) in Hle; [|lia].
      rewrite Z.div_add in Hle by lia. exact Hle. }
    assert (Hlow : m <= S -> raw * m / S + c - 1 <= fa').
    { intros HmS. unfold fa'.
      assert (Hle : raw * m + (c - 1) * S <= (raw + c * S / m) * m) by lia.
      apply (Z.div_le_mono _ _ S) in Hle; [|lia].
      rewrite Z.div_add in Hle by lia. lia. }
    assert (Heq : m = S -> fa' = raw * m / S + c).
    { intros HmS. unfold fa'. rewrite HmS, !Z.div_mul by lia. reflexivity. }
    exists fa'. split; [exact Hfa'|]. split; [exact Hup|]. split; [exact Hlow|].
    split; [exact Heq|].
    intros r1' Hr1'.
    destruct (getCollateralizationRatio_mono _ _ _ _ Hup Hr1') as (rp & Hrp & Hle).
    exists rp. unfold positionCollateralizationRatio. rewrite Hfa', Htok'.
    split; [exact Hrp|]. split; [exact Hle|].
    intros HmS. rewrite (Heq HmS) in Hrp. congruence.
Qed.

Lemma one_step_paths_checked_witness :
  0 <= cumulativeFeeMultiplier gcr_state /\
  withdraw alice (units 50) gcr_state
    = Ok (units 50, after (transaction alice (call_withdraw (units 50))) gcr_state) /\
  (exists rp rg rg',
    positionCollateralizationRatio
      (after (transaction alice (call_withdraw (units 50))) gcr_state) alice = Ok rp /\
    globalCollateralizationRatio gcr_state = Ok rg /\
    globalCollateralizationRatio
      (after (transaction alice (call_withdraw (units 50))) gcr_state) = Ok rg' /\
    rg' <= rg /\ rg <= rp) /\
  create bob (units 80) (units 100) gcr_state = Ok (tt, gcr_state_after) /\
  tokensOutstanding (position gcr_state_after bob)
  = tokensOutstanding (position gcr_state bob) + units 100.
Proof.
  assert (Hm : 0 <= cumulativeFeeMultiplier gcr_state) by (vm_compute; discriminate).
  assert (Hw : withdraw alice (units 50) gcr_state
               = Ok (units 50, after (transaction alice (call_withdraw (units 50))) gcr_state))
    by (vm_compute; reflexivity).
  assert (Hcr : create bob (units 80) (units 100) gcr_state = Ok (tt, gcr_state_after))
    by (vm_compute; reflexivity).
  split; [exact Hm|]. split; [exact Hw|]. split; [|split; [exact Hcr|]].
  - exact (proj1 (one_step_paths_checked_against_current_global_ratio alice gcr_state _ Hm)
                 _ _ Hw).
  - destruct (proj2 (one_step_paths_checked_against_current_global_ratio
                       bob gcr_state gcr_state_after Hm) _ _ _ Hcr)
      as (fa & rg & _ & _ & _ & Htok & _).
    exact Htok.
Defined.

(** ** Executing a passed withdrawal request *)

Lemma removeCollateral_run s raw c d :
  0 <= cumulativeFeeMultiplier s ->
  _convertToRawCollateral s c = Ok d ->
  0 <= d <= raw ->
  raw * cumulativeFeeMultiplier s <= MAX_UINT256 ->
  _removeCollateral s raw c
  = Ok (mkCounterUpdate (raw - d)
          (adjustedCollateral s raw - adjustedCollateral s (raw - d))) /\
  0 <= adjustedCollateral s raw - adjustedCollateral s (raw - d).
Proof.
  intros Hm Hd Hle Hmax.
  pose proof FP_SCALING_FACTOR_pos as HS.
  assert (Hmax' : (raw - d) * cumulativeFeeMultiplier s <= MAX_UINT256) by nia.
  destruct (adjustedCollateral_value s raw Hmax) as [E1 V1].
  destruct (adjustedCollateral_value s (raw - d) Hmax') as [E2 V2].
  assert (Hmono : adjustedCollateral s (raw - d) <= adjustedCollateral s raw).
  { rewrite V1, V2. apply Z.div_le_mono; [lia|nia]. }
  split; [|lia].
  unfold _removeCollateral. rewrite E1, Hd.
  destruct (Z.leb_spec d raw); [|lia].
  rewrite E2. unfold FixedPoint.sub.
  rewrite <- V1, <- V2.
  destruct (Z.leb_spec (adjustedCollateral s (raw - d)) (adjustedCollateral s raw)); [|lia].
  reflexivity.
Qed.

Lemma decrementCollateralBalances_run a c s d :
  0 <= cumulativeFeeMultiplier s ->
  _convertToRawCollateral s c = Ok d ->
  0 <= d <= rawCollateral (position s a) ->
  rawCollateral (position s a) <= rawTotalPositionCollateral s ->
  rawTotalPositionCollateral s * cumulativeFeeMultiplier s <= MAX_UINT256 ->
  _decrementCollateralBalances a c s
  = Ok (adjustedCollateral s (rawTotalPositionCollateral s)
        - adjustedCollateral s (rawTotalPositionCollateral s - d),
        set_rawTotalPositionCollateral (rawTotalPositionCollateral s - d)
          (set_positions
             (insert a (with_rawCollateral (rawCollateral (position s a) - d) (position s a))) s)).
Proof.
  intros Hm Hd Hle Hpt Hmax.
  assert (Hmaxp : rawCollateral (position s a) * cumulativeFeeMultiplier s <= MAX_UINT256) by nia.
  destruct (removeCollateral_run s _ c d Hm Hd Hle Hmaxp) as [E1 _].
  destruct (removeCollateral_run s (rawTotalPositionCollateral s) c d Hm Hd ltac:(lia) Hmax)
    as [E2 _].
  unfold _decrementCollateralBalances, bind, get, lift, update_position, put, ret.
  rewrite E1. simpl.
  rewrite (removeCollateral_ext _ s) by reflexivity. rewrite E2. reflexivity.
Qed.

Lemma capped_amount_conversion s raw fa amount :
  0 <= cumulativeFeeMultiplier s ->
  _getFeeAdjustedCollateral s raw = Ok fa -> 0 < fa ->
  0 <= amount <= fa ->
  exists d, _convertToRawCollateral s amount = Ok d /\ 0 <= d <= raw /\
            d * cumulativeFeeMultiplier s <= amount * FixedPoint.FP_SCALING_FACTOR /\
            (cumulativeFeeMultiplier s = FixedPoint.FP_SCALING_FACTOR -> d = amount).
Proof.
  intros Hm Hfa Hpos Hamt.
  pose proof FP_SCALING_FACTOR_pos as HS.
  apply getFeeAdjustedCollateral_Ok in Hfa as [Hmax ->].
  set (m := cumulativeFeeMultiplier s) in *. set (S := FixedPoint.FP_SCALING_FACTOR) in *.
  assert (Hm0 : m <> 0).
  { intros Hz. rewrite Hz, Z.mul_0_r in Hpos. rewrite Z.div_0_l in Hpos; lia. }
  pose proof (Z.mul_div_le (raw * m) S HS) as Hfloor.
  assert (Hbound : amount * S <= raw * m) by nia.
  exists (amount * S / m). split.
  - apply convertToRawCollateral_Ok. fold m S. repeat split; [exact Hm0|lia].
  - split; [split|split].
    + apply Z.div_pos; [nia|lia].
    + apply Z.div_le_upper_bound; [lia|nia].
    + pose proof (Z.mul_div_le (amount * S) m ltac:(lia)). nia.
    + intros ->. apply Z.div_mul. lia.
Qed.

(** C5, counterexample.  Alice has requested 50 units; the request has
    passed and, after fees, her fee-adjusted collateral is 70 units, so
    min(requestAmount, collateral) is 50 units, but the call pays out one
    raw unit less.  And in a second ledger, where fees have truncated her
    fee-adjusted collateral to zero, the call with a passed request does
    not succeed at all. *)
Lemma withdrawPassedRequest_not_exactly_the_minimum :
  (reachable shrunk_state /\
   withdrawalRequestPassTimestamp (position shrunk_state alice) = 1000 /\
   currentTime shrunk_state = 2000 /\
   withdrawalRequestAmount (position shrunk_state alice) = units 50 /\
   _getFeeAdjustedCollateral shrunk_state (rawCollateral (position shrunk_state alice))
     = Ok (units 70) /\
   withdrawPassedRequest alice shrunk_state
     = Ok (units 50 - 1, after (transaction alice call_withdrawPassedRequest) shrunk_state)) /\
  (reachable emptied_state /\
   withdrawalRequestPassTimestamp (position emptied_state alice) = 1000 /\
   currentTime emptied_state = 2000 /\
   withdrawPassedRequest alice emptied_state = Revert "Position has no collateral").
Proof.
  split; split.
  - eapply final_reachable; [apply genesis_reachable|]. vm_compute. reflexivity.
  - vm_compute. repeat split; reflexivity.
  - eapply final_reachable; [apply genesis_reachable|]. vm_compute. reflexivity.
  - vm_compute. repeat split; reflexivity.
Qed.

(** C5, as amended.  For every position with a pending withdrawal request
    whose pass timestamp is nonzero and not after the current time, whose
    fee-adjusted collateral is still strictly positive, in a ledger whose
    aggregate covers the position, [withdrawPassedRequest] succeeds when the
    transfer of the payout to the caller goes through, and reverts with
    the transfer failure otherwise.  On success it has removed the raw
    equivalent of min(requestAmount, fee-adjusted collateral) from the
    position and from the aggregate, cleared the request (amount and pass
    timestamp reset to zero) and paid out the resulting decrease of the
    fee-adjusted aggregate, which is at most that minimum and is exactly
    that minimum while the fee multiplier is 1.0. *)
Theorem withdrawPassedRequest_pays_capped_amount (a : address) (s : State) (fa : Z) :
  0 <= cumulativeFeeMultiplier s ->
  withdrawalRequestPassTimestamp (position s a) <> 0 ->
  withdrawalRequestPassTimestamp (position s a) <= currentTime s ->
  0 <= withdrawalRequestAmount (position s a) ->
  _getFeeAdjustedCollateral s (rawCollateral (position s a)) = Ok fa -> 0 < fa ->
  rawCollateral (position s a) <= rawTotalPositionCollateral s ->
  rawTotalPositionCollateral s * cumulativeFeeMultiplier s <= MAX_UINT256 ->
  exists d w,
    _convertToRawCollateral s (Z.min (withdrawalRequestAmount (position s a)) fa) = Ok d /\
    w = adjustedCollateral s (rawTotalPositionCollateral s)
        - adjustedCollateral s (rawTotalPositionCollateral s - d) /\
    0 <= w <= Z.min (withdrawalRequestAmount (position s a)) fa /\
    (cumulativeFeeMultiplier s = FixedPoint.FP_SCALING_FACTOR ->
     w = Z.min (withdrawalRequestAmount (position s a)) fa) /\
    (tokenOutcome s (collateral_safeTransfer a w) = token_succeeds ->
     withdrawPassedRequest a s
     = Ok (w, mkState
                (<[a := mkPositionData (tokensOutstanding (position s a)) 0 0
                          (rawCollateral (position s a) - d)
                          (transferPositionRequestPassTimestamp (position s a))]>
                   (positions s))
                (totalTokensOutstanding s) (rawTotalPositionCollateral s - d)
                (withdrawalLiveness s) (minSponsorTokens s) (expirationTimestamp s)
                (cumulativeFeeMultiplier s) (currentTime s)
                (tokenCalls s ++ [collateral_safeTransfer a w]) (tokenOutcome s))) /\
    (tokenOutcome s (collateral_safeTransfer a w) <> token_succeeds ->
     withdrawPassedRequest a s = Revert "TransferFailed").
Proof.
  intros Hm Hts Hpassed Hreq Hfa Hpos Hle Hmax.
  pose proof FP_SCALING_FACTOR_pos as HS.
  set (amount := Z.min (withdrawalRequestAmount (position s a)) fa).
  assert (Hamt : 0 <= amount <= fa) by (unfold amount; lia).
  destruct (capped_amount_conversion s _ fa amount Hm Hfa Hpos Hamt)
    as (d & Hd & Hdr & Hdm & Hunit).
  pose proof (decrementCollateralBalances_run a amount s d Hm Hd Hdr Hle Hmax) as Hdec.
  set (w := adjustedCollateral s (rawTotalPositionCollateral s)
            - adjustedCollateral s (rawTotalPositionCollateral s - d)) in *.
  set (s1 := set_rawTotalPositionCollateral (rawTotalPositionCollateral s - d)
               (set_positions
                  (insert a (with_rawCollateral (rawCollateral (position s a) - d)
                               (position s a))) s)) in *.
  set (s2 := set_positions
               (insert a (with_withdrawalRequestPassTimestamp 0
                            (with_withdrawalRequestAmount 0 (position s1 a)))) s1).
  assert (Hrun : withdrawPassedRequest a s
                 = (external_call (collateral_safeTransfer a w) ;; ret w) s2).
  { unfold withdrawPassedRequest.
    rewrite (bind_run _ _ s tt s) by reflexivity.
    rewrite (bind_run _ _ s a s) by (eapply getPositionData_run; eassumption).
    rewrite (bind_run _ _ s _ s) by reflexivity.
    rewrite (bind_run _ _ s _ s) by reflexivity.
    assert (Hreqok : (negb (withdrawalRequestPassTimestamp (position s a) =? 0)
                      && (withdrawalRequestPassTimestamp (position s a) <=? currentTime s))%bool
                     = true).
    { apply andb_true_iff. split; [apply negb_true_iff, Z.eqb_neq|apply Z.leb_le]; assumption. }
    rewrite (bind_run _ _ s tt s) by (unfold require; rewrite Hreqok; reflexivity).
    rewrite (bind_run _ _ s s s) by reflexivity.
    rewrite (bind_run _ _ s fa s) by (unfold lift; rewrite Hfa; reflexivity).
    rewrite (bind_run _ _ s amount s).
    2: { unfold FixedPoint.isGreaterThan, amount.
         destruct (Z.ltb_spec fa (withdrawalRequestAmount (position s a))).
         - unfold lift. rewrite Hfa, Z.min_r by lia. reflexivity.
         - unfold ret. rewrite Z.min_l by lia. reflexivity. }
    rewrite (bind_run _ _ _ _ _ Hdec).
    rewrite (bind_run _ _ s1 tt s2); [reflexivity|].
    unfold _resetWithdrawalRequest, bind, lift, update_position.
    rewrite fromUnscaledUint_0. do 2 f_equal. unfold s2. state_eq. }
  exists d, w. split; [exact Hd|]. split; [reflexivity|].
  assert (Hbounds : 0 <= w <= amount /\
                    (cumulativeFeeMultiplier s = FixedPoint.FP_SCALING_FACTOR -> w = amount)).
  { assert (Hmaxd : (rawTotalPositionCollateral s - d) * cumulativeFeeMultiplier s <= MAX_UINT256)
      by nia.
    unfold w.
    destruct (adjustedCollateral_value s _ Hmax) as [_ ->].
    destruct (adjustedCollateral_value s _ Hmaxd) as [_ ->].
    set (T := rawTotalPositionCollateral s) in *.
    set (m := cumulativeFeeMultiplier s) in *.
    set (S := FixedPoint.FP_SCALING_FACTOR) in *.
    assert (Hlow : (T * m - amount * S) / S <= (T - d) * m / S)
      by (apply Z.div_le_mono; [lia|nia]).
    assert (Hup : (T - d) * m / S <= T * m / S)
      by (apply Z.div_le_mono; [lia|nia]).
    replace (T * m - amount * S) with (T * m + (- amount) * S) in Hlow by ring.
    rewrite Z.div_add in Hlow by lia.
    split; [lia|].
    intros Hu. specialize (Hunit Hu). subst d. rewrite Hu.
    replace ((T - amount) * S) with (T * S + (- amount) * S) by ring.
    rewrite Z.div_add by lia. rewrite Z.div_mul by lia. lia. }
  destruct Hbounds as [Hw Hwu].
  split; [exact Hw|]. split; [exact Hwu|]. split.
  - intros Hok. rewrite Hrun.
    rewrite (bind_run _ _ s2 tt (log_tokenCall (collateral_safeTransfer a w) s2))
      by (apply external_call_succeeds; exact Hok).
    unfold ret. do 2 f_equal. unfold s2, s1. state_eq.
  - intros Hfail. rewrite Hrun. apply bind_revert.
    apply (external_call_fails (collateral_safeTransfer a w) s2). exact Hfail.
Qed.

Lemma withdrawPassedRequest_pays_capped_amount_witness :
  withdrawalRequestAmount (position fee_state alice) = units 50 /\
  withdrawalRequestPassTimestamp (position fee_state alice) = 1000 /\
  currentTime fee_state = 2000 /\
  _getFeeAdjustedCollateral fee_state (rawCollateral (position fee_state alice))
    = Ok (units 45) /\
  exists d w,
    withdrawPassedRequest alice fee_state
    = Ok (w, mkState
               (<[alice := mkPositionData (tokensOutstanding (position fee_state alice)) 0 0
                         (rawCollateral (position fee_state alice) - d)
                         (transferPositionRequestPassTimestamp (position fee_state alice))]>
                  (positions fee_state))
               (totalTokensOutstanding fee_state) (rawTotalPositionCollateral fee_state - d)
               (withdrawalLiveness fee_state) (minSponsorTokens fee_state)
               (expirationTimestamp fee_state)
               (cumulativeFeeMultiplier fee_state) (currentTime fee_state)
               (tokenCalls fee_state ++ [collateral_safeTransfer alice w])
               (tokenOutcome fee_state)) /\
    0 <= w <= Z.min (withdrawalRequestAmount (position fee_state alice)) (units 45).
Proof.
  assert (H1 : 0 <= cumulativeFeeMultiplier fee_state) by (vm_compute; discriminate).
  assert (H2 : withdrawalRequestPassTimestamp (position fee_state alice) <> 0)
    by (vm_compute; discriminate).
  assert (H3 : withdrawalRequestPassTimestamp (position fee_state alice) <= currentTime fee_state)
    by (vm_compute; discriminate).
  assert (H4 : 0 <= withdrawalRequestAmount (position fee_state alice))
    by (vm_compute; discriminate).
  assert (H5 : _getFeeAdjustedCollateral fee_state (rawCollateral (position fee_state alice))
               = Ok (units 45)) by (vm_compute; reflexivity).
  assert (H6 : 0 < units 45) by reflexivity.
  assert (H7 : rawCollateral (position fee_state alice) <= rawTotalPositionCollateral fee_state)
    by (vm_compute; discriminate).
  assert (H8 : rawTotalPositionCollateral fee_state * cumulativeFeeMultiplier fee_state
               <= MAX_UINT256) by (vm_compute; discriminate).
  split; [vm_compute; reflexivity|]. split; [vm_compute; reflexivity|].
  split; [vm_compute; reflexivity|]. split; [exact H5|].
  destruct (withdrawPassedRequest_pays_capped_amount alice fee_state (units 45)
              H1 H2 H3 H4 H5 H6 H7 H8) as (d & w & _ & _ & Hw & _ & Hrun & _).
  exists d, w. split; [apply Hrun; reflexivity|exact Hw].
Defined.

(** The fee scenario of the specification: 50 was requested, the
    fee-adjusted balance is now 45, and 45 is withdrawn. *)
Example withdrawPassedRequest_fee_scenario :
  withdrawalRequestAmount (position fee_state alice) = units 50 /\
  _getFeeAdjustedCollateral fee_state (rawCollateral (position fee_state alice))
    = Ok (units 45) /\
  withdrawPassedRequest alice fee_state
    = Ok (units 45, after (transaction alice call_withdrawPassedRequest) fee_state) /\
  position (after (transaction alice call_withdrawPassedRequest) fee_state) alice
    = mkPositionData (units 20) 0 0 0 0.
Proof. vm_compute. repeat split; reflexivity. Qed.

(** ** Pending withdrawal requests *)

Ltac unfold_contract H :=
  unfold depositTo, deposit, withdraw, redeem, create, requestWithdrawal, withdrawPassedRequest,
    cancelWithdrawal, requestTransferPosition, transferPositionPassedRequest,
    cancelTransferPosition, noPendingWithdrawal,
    _decrementCollateralBalancesCheckGCR, _deleteSponsorPosition,
    _incrementCollateralBalances, _decrementCollateralBalances, _resetWithdrawalRequest,
    _checkPositionCollateralization, _checkCollateralization, _getCollateralizationRatio,
    _getPositionData, onlyCollateralizedPosition,
    _addCollateral, _removeCollateral, _getFeeAdjustedCollateral, _convertToRawCollateral,
    or_else, and_then, fees, getCurrentTime, external_call, token_call, token_failure,
    update_position, write_position,
    delete_position, bind, ret, get, put, read, lift, require,
    FixedPoint.add, FixedPoint.sub, FixedPoint.mul, FixedPoint.div,
    FixedPoint.fromUnscaledUint, SafeMath_add in H; cbv beta in H.

(** Case analysis over every path on which a call can revert. *)
Ltac revert_analysis H Hts :=
  unfold_contract H;
  repeat (case_match; simplify_eq; rewrite ?Hts in *; try discriminate).

Lemma depositTo_not_pending sender a amount s :
  withdrawalRequestPassTimestamp (position s a) = 0 ->
  depositTo sender a amount s <> Revert "Pending withdrawal".
Proof. intros Hts H. revert_analysis H Hts. Qed.

Lemma withdraw_not_pending a amount s :
  withdrawalRequestPassTimestamp (position s a) = 0 ->
  withdraw a amount s <> Revert "Pending withdrawal".
Proof. intros Hts H. revert_analysis H Hts. Qed.

Lemma redeem_not_pending a numTokens s :
  withdrawalRequestPassTimestamp (position s a) = 0 ->
  redeem a numTokens s <> Revert "Pending withdrawal".
Proof. intros Hts H. revert_analysis H Hts. Qed.

Lemma create_not_pending a collateralAmount numTokens s :
  withdrawalRequestPassTimestamp (position s a) = 0 ->
  create a collateralAmount numTokens s <> Revert "Pending withdrawal".
Proof. intros Hts H. revert_analysis H Hts. Qed.

Lemma noPendingWithdrawal_pending a s :
  withdrawalRequestPassTimestamp (position s a) <> 0 ->
  exists msg, noPendingWithdrawal a s = Revert msg /\
              (collateralized s a -> msg = "Pending withdrawal").
Proof.
  intros Hts. unfold noPendingWithdrawal, _getPositionData, onlyCollateralizedPosition,
    bind, get, lift, require, read, ret.
  destruct (_getFeeAdjustedCollateral s (rawCollateral (position s a))) as [c|msg] eqn:E.
  - unfold FixedPoint.isGreaterThan. destruct (Z.ltb_spec 0 c).
    + apply Z.eqb_neq in Hts. rewrite Hts. eauto.
    + eexists. split; [reflexivity|]. intros (c' & Hc' & Hpos).
      rewrite E in Hc'. injection Hc' as <-. lia.
  - eexists. split; [reflexivity|]. intros (c' & Hc' & Hpos). congruence.
Qed.

Lemma step_revert_after e s msg : step e s = Revert msg -> after e s = s.
Proof. unfold after. intros ->. reflexivity. Qed.

(** The collateralization requirement of [create] reads the ledger and
    fails only on an arithmetic overflow. *)
Lemma checkCollateralization_revert c n s msg :
  _checkCollateralization c n s = Revert msg -> msg = "Overflow".
Proof.
  unfold _checkCollateralization, _getCollateralizationRatio, _getFeeAdjustedCollateral,
    bind, get, lift, ret, FixedPoint.mul, FixedPoint.div, FixedPoint.fromUnscaledUint,
    FixedPoint.isGreaterThan.
  intros H.
  repeat (case_match; simplify_eq; try discriminate; try reflexivity; try lia).
Qed.

Lemma create_requirement_revert c1 n1 c2 n2 s msg :
  or_else (_checkCollateralization c1 n1) (_checkCollateralization c2 n2) s = Revert msg ->
  msg = "Overflow".
Proof.
  unfold or_else, bind. intros H.
  destruct (_checkCollateralization c1 n1 s) as [[b s1]|m] eqn:E1.
  - destruct b; [discriminate H|].
    apply checkCollateralization_Ok in E1 as [-> _].
    eapply checkCollateralization_revert; exact H.
  - injection H as <-. eapply checkCollateralization_revert; exact E1.
Qed.

Lemma create_requirement_state c1 n1 c2 n2 s b s' :
  or_else (_checkCollateralization c1 n1) (_checkCollateralization c2 n2) s = Ok (b, s') ->
  s' = s.
Proof.
  apply or_else_state; intros ? ? H; apply checkCollateralization_Ok in H as [-> _];
    reflexivity.
Qed.

(** [create] up to its two requirements, for a position with a pending
    withdrawal request. *)
Lemma create_with_pending_request a c n s :
  withdrawalRequestPassTimestamp (position s a) <> 0 ->
  create a c n s =
  match _getFeeAdjustedCollateral s (rawCollateral (position s a)) with
  | Ok fa =>
      if fa + c <=? MAX_UINT256 then
        if tokensOutstanding (position s a) + n <=? MAX_UINT256 then
          match or_else (_checkCollateralization (fa + c)
                                                 (tokensOutstanding (position s a) + n))
                        (_checkCollateralization c n) s with
          | Ok (true, _) => Revert "Pending withdrawal"
          | Ok (false, _) => Revert "Insufficient collateral"
          | Revert msg => Revert msg
          end
        else Revert "Overflow"
      else Revert "Overflow"
  | Revert msg => Revert msg
  end.
Proof.
  intros Hts. apply Z.eqb_neq in Hts.
  unfold create.
  rewrite (bind_run _ _ s tt s) by reflexivity.
  rewrite (bind_run _ _ s s s) by reflexivity.
  destruct (_getFeeAdjustedCollateral s (rawCollateral (position s a))) as [fa|m] eqn:Hfa.
  2: { apply bind_revert. reflexivity. }
  rewrite (bind_run _ _ s fa s) by reflexivity.
  destruct (fa + c <=? MAX_UINT256) eqn:H1.
  2: { apply bind_revert. unfold lift, FixedPoint.add. rewrite H1. reflexivity. }
  rewrite (bind_run _ _ s (fa + c) s)
    by (unfold lift, FixedPoint.add; rewrite H1; reflexivity).
  destruct (tokensOutstanding (position s a) + n <=? MAX_UINT256) eqn:H2.
  2: { apply bind_revert. unfold lift, FixedPoint.add. rewrite H2. reflexivity. }
  rewrite (bind_run _ _ s (tokensOutstanding (position s a) + n) s)
    by (unfold lift, FixedPoint.add; rewrite H2; reflexivity).
  destruct (or_else (_checkCollateralization (fa + c) (tokensOutstanding (position s a) + n))
                    (_checkCollateralization c n) s) as [[b s1]|m] eqn:Hor.
  2: { apply bind_revert. exact Hor. }
  pose proof (create_requirement_state _ _ _ _ _ _ _ Hor) as ->.
  rewrite (bind_run _ _ _ _ _ Hor).
  destruct b.
  - rewrite (bind_run _ _ s tt s) by reflexivity.
    apply bind_revert. unfold require. rewrite Hts. reflexivity.
  - apply bind_revert. reflexivity.
Qed.

(** C6, counterexample.  Alice holds 150/100 with a withdrawal request
    pending; her [create(0, 100)] fails the collateralization requirement,
    which [create] checks first, and is rejected with "Insufficient
    collateral", not with "Pending withdrawal". *)
Lemma create_with_pending_request_reports_insufficient_collateral :
  reachable pending_state /\
  withdrawalRequestPassTimestamp (position pending_state alice) = 1000 /\
  create alice 0 (units 100) pending_state = Revert "Insufficient collateral".
Proof.
  split.
  - eapply final_reachable; [apply genesis_reachable|]. vm_compute. reflexivity.
  - vm_compute. repeat split; reflexivity.
Qed.

(** C6, as amended.  For every sponsor whose position has a pending
    withdrawal request (pass timestamp nonzero), [depositTo] on that
    sponsor, and [deposit], [withdraw], [create] and [redeem] by that
    sponsor, all fail and leave the state unchanged.  [depositTo],
    [deposit], [withdraw] and [redeem] fail with "Pending withdrawal"
    whenever the position has fee-adjusted collateral.  [create] checks
    its collateralization requirement first: it fails with "Pending
    withdrawal" exactly when the requirement can be evaluated and is met,
    with "Insufficient collateral" exactly when the requirement can be
    evaluated and is not met, and otherwise with "Overflow", the arithmetic
    error raised while evaluating the requirement.  After a successful
    [cancelWithdrawal] or [withdrawPassedRequest] the pass timestamp is
    zero and none of these operations is rejected with "Pending
    withdrawal". *)
Theorem pending_withdrawal_blocks_sponsor (a : address) (s : State) :
  withdrawalRequestPassTimestamp (position s a) <> 0 ->
  (forall e, guarded_against_pending e a ->
     (exists msg, step e s = Revert msg) /\ after e s = s) /\
  (collateralized s a ->
     (forall sender amount, depositTo sender a amount s = Revert "Pending withdrawal") /\
     (forall amount, deposit a amount s = Revert "Pending withdrawal") /\
     (forall amount, withdraw a amount s = Revert "Pending withdrawal") /\
     (forall numTokens, redeem a numTokens s = Revert "Pending withdrawal")) /\
  (forall collateralAmount numTokens fa,
     _getFeeAdjustedCollateral s (rawCollateral (position s a)) = Ok fa ->
     fa + collateralAmount <= MAX_UINT256 ->
     tokensOutstanding (position s a) + numTokens <= MAX_UINT256 ->
     or_else (_checkCollateralization (fa + collateralAmount)
                                      (tokensOutstanding (position s a) + numTokens))
             (_checkCollateralization collateralAmount numTokens) s = Ok (true, s) ->
     create a collateralAmount numTokens s = Revert "Pending withdrawal") /\
  (forall collateralAmount numTokens fa,
     _getFeeAdjustedCollateral s (rawCollateral (position s a)) = Ok fa ->
     fa + collateralAmount <= MAX_UINT256 ->
     tokensOutstanding (position s a) + numTokens <= MAX_UINT256 ->
     or_else (_checkCollateralization (fa + collateralAmount)
                                      (tokensOutstanding (position s a) + numTokens))
             (_checkCollateralization collateralAmount numTokens) s = Ok (false, s) ->
     create a collateralAmount numTokens s = Revert "Insufficient collateral") /\
  (forall collateralAmount numTokens,
     exists msg,
       create a collateralAmount numTokens s = Revert msg /\
       (msg = "Pending withdrawal" \/ msg = "Insufficient collateral" \/ msg = "Overflow") /\
       (msg = "Pending withdrawal" ->
        exists fa,
          _getFeeAdjustedCollateral s (rawCollateral (position s a)) = Ok fa /\
          fa + collateralAmount <= MAX_UINT256 /\
          tokensOutstanding (position s a) + numTokens <= MAX_UINT256 /\
          or_else (_checkCollateralization (fa + collateralAmount)
                                           (tokensOutstanding (position s a) + numTokens))
                  (_checkCollateralization collateralAmount numTokens) s = Ok (true, s)) /\
       (msg = "Insufficient collateral" ->
        exists fa,
          _getFeeAdjustedCollateral s (rawCollateral (position s a)) = Ok fa /\
          fa + collateralAmount <= MAX_UINT256 /\
          tokensOutstanding (position s a) + numTokens <= MAX_UINT256 /\
          or_else (_checkCollateralization (fa + collateralAmount)
                                           (tokensOutstanding (position s a) + numTokens))
                  (_checkCollateralization collateralAmount numTokens) s = Ok (false, s))) /\
  (forall s',
     ((exists r, cancelWithdrawal a s = Ok (r, s')) \/
      (exists w, withdrawPassedRequest a s = Ok (w, s'))) ->
     withdrawalRequestPassTimestamp (position s' a) = 0 /\
     (forall sender amount, depositTo sender a amount s' <> Revert "Pending withdrawal") /\
     (forall amount, deposit a amount s' <> Revert "Pending withdrawal") /\
     (forall amount, withdraw a amount s' <> Revert "Pending withdrawal") /\
     (forall collateralAmount numTokens,
        create a collateralAmount numTokens s' <> Revert "Pending withdrawal") /\
     (forall numTokens, redeem a numTokens s' <> Revert "Pending withdrawal")).
Proof.
  intros Hts.
  destruct (noPendingWithdrawal_pending a s Hts) as (msg0 & Hguard & Hmsg0).
  assert (Hcreate : forall c n, exists msg, create a c n s = Revert msg).
  { intros c n. destruct (create a c n s) as [[r s']|msg] eqn:E; [|eauto].
    apply create_Ok in E as (Hz & _). contradiction. }
  assert (Hdeposit : forall sender amount, depositTo sender a amount s = Revert msg0)
    by (intros; unfold depositTo; apply bind_revert; exact Hguard).
  assert (Hwithdraw : forall amount, withdraw a amount s = Revert msg0)
    by (intros; unfold withdraw; apply bind_revert; exact Hguard).
  assert (Hredeem : forall n, redeem a n s = Revert msg0)
    by (intros; unfold redeem; apply bind_revert; exact Hguard).
  split; [|split; [|split; [|split; [|split]]]].
  - intros e He.
    assert (Hrev : exists msg, step e s = Revert msg).
    { destruct e as [sender c|t|m|o]; simpl in He; try contradiction.
      unfold step. destruct (calldata_in_range c); [|eauto].
      destruct c; simpl in He; try contradiction; subst; unfold dispatch, discard, deposit.
      - rewrite Hdeposit. eauto.
      - rewrite Hdeposit. eauto.
      - rewrite (bind_revert _ _ _ _ (Hwithdraw _)). eauto.
      - destruct (Hcreate collateralAmount numTokens) as (msg & ->). eauto.
      - rewrite (bind_revert _ _ _ _ (Hredeem _)). eauto. }
    split; [exact Hrev|]. destruct Hrev as (msg & Hrev). eapply step_revert_after; exact Hrev.
  - intros Hc. specialize (Hmsg0 Hc). subst msg0.
    unfold deposit. repeat split; intros; auto.
  - intros c n fa Hfa Hadd1 Hadd2 Hor.
    unfold create.
    rewrite (bind_run _ _ s tt s) by reflexivity.
    rewrite (bind_run _ _ s s s) by reflexivity.
    rewrite (bind_run _ _ s fa s) by (unfold lift; rewrite Hfa; reflexivity).
    rewrite (bind_run _ _ s (fa + c) s).
    2: { unfold lift, FixedPoint.add. destruct (Z.leb_spec (fa + c) MAX_UINT256); [reflexivity|lia]. }
    rewrite (bind_run _ _ s (tokensOutstanding (position s a) + n) s).
    2: { unfold lift, FixedPoint.add.
         destruct (Z.leb_spec (tokensOutstanding (position s a) + n) MAX_UINT256);
           [reflexivity|lia]. }
    rewrite (bind_run _ _ _ _ _ Hor).
    rewrite (bind_run _ _ s tt s) by reflexivity.
    apply bind_revert. unfold require. apply Z.eqb_neq in Hts. rewrite Hts. reflexivity.
  - intros c n fa Hfa Hadd1 Hadd2 Hor.
    rewrite (create_with_pending_request a c n s Hts), Hfa.
    apply Z.leb_le in Hadd1, Hadd2. rewrite Hadd1, Hadd2, Hor. reflexivity.
  - intros c n.
    rewrite (create_with_pending_request a c n s Hts).
    destruct (_getFeeAdjustedCollateral s (rawCollateral (position s a))) as [fa|m] eqn:Hfa.
    2: { unfold _getFeeAdjustedCollateral, FixedPoint.mul in Hfa.
         case_match; simplify_eq.
         eexists. split; [reflexivity|]. split; [auto|]. split; discriminate. }
    destruct (Z.leb_spec (fa + c) MAX_UINT256) as [H1|H1].
    2: { eexists. split; [reflexivity|]. split; [auto|]. split; discriminate. }
    destruct (Z.leb_spec (tokensOutstanding (position s a) + n) MAX_UINT256) as [H2|H2].
    2: { eexists. split; [reflexivity|]. split; [auto|]. split; discriminate. }
    destruct (or_else (_checkCollateralization (fa + c) (tokensOutstanding (position s a) + n))
                      (_checkCollateralization c n) s) as [[b s1]|m] eqn:Hor.
    2: { apply create_requirement_revert in Hor as ->.
         eexists. split; [reflexivity|]. split; [auto|]. split; discriminate. }
    pose proof (create_requirement_state _ _ _ _ _ _ _ Hor) as ->.
    destruct b; (eexists; split; [reflexivity|]; split; [auto|]; split;
                 [try discriminate|try discriminate]); intros _; exists fa; auto.
  - intros s' Hclear.
    assert (Hz : withdrawalRequestPassTimestamp (position s' a) = 0).
    { destruct Hclear as [(r & H)|(w & H)].
      - apply cancelWithdrawal_Ok in H as (_ & _ & ->). norm_state. reflexivity.
      - apply withdrawPassedRequest_Ok in H as (_ & _ & _ & d & _ & _ & _ & _ & _ & ->).
        unfold position. cbn [positions]. rewrite lookup_insert_eq. reflexivity. }
    split; [exact Hz|]. unfold deposit.
    repeat split; intros.
    + apply depositTo_not_pending; exact Hz.
    + apply depositTo_not_pending; exact Hz.
    + apply withdraw_not_pending; exact Hz.
    + apply create_not_pending; exact Hz.
    + apply redeem_not_pending; exact Hz.
Qed.

Lemma pending_withdrawal_blocks_sponsor_witness :
  withdrawalRequestPassTimestamp (position pending_state alice) <> 0 /\
  deposit alice (units 1) pending_state = Revert "Pending withdrawal" /\
  after (transaction alice (call_redeem (units 100))) pending_state = pending_state.
Proof.
  assert (Hts : withdrawalRequestPassTimestamp (position pending_state alice) <> 0)
    by (vm_compute; discriminate).
  assert (Hc : collateralized pending_state alice).
  { exists (units 150). split; [vm_compute; reflexivity|reflexivity]. }
  destruct (pending_withdrawal_blocks_sponsor alice pending_state Hts)
    as (Hblocked & Hmsg & _ & _).
  split; [exact Hts|]. split.
  - apply (Hmsg Hc).
  - apply (Hblocked (transaction alice (call_redeem (units 100)))). reflexivity.
Defined.

(** With a request pending, a [create] whose collateral amount overflows
    the addition is rejected with the arithmetic error. *)
Example create_with_pending_request_overflow :
  create alice MAX_UINT256 (units 100) pending_state = Revert "Overflow".
Proof. vm_compute. reflexivity. Qed.

(** ** Deleting a position by full redemption *)

Lemma uncollateralized_guard s a :
  _getFeeAdjustedCollateral s (rawCollateral (position s a)) = Ok 0 ->
  _getPositionData a s = Revert "Position has no collateral" /\
  noPendingWithdrawal a s = Revert "Position has no collateral".
Proof.
  intros E.
  assert (H : _getPositionData a s = Revert "Position has no collateral").
  { unfold _getPositionData, onlyCollateralizedPosition, bind, get, lift, require.
    rewrite E. reflexivity. }
  split; [exact H|]. unfold noPendingWithdrawal. apply bind_revert. exact H.
Qed.

(** C7.  A successful [redeem] of exactly all of a sponsor's outstanding
    tokens deletes the position: every read of that sponsor's position in
    the resulting state returns the absent record (zero tokens, zero
    collateral, no requests), and a second [redeem] by that sponsor, for any
    token amount, fails with "Position has no collateral". *)
Theorem redeem_all_deletes_position (a : address) (s s' : State) (w : Z) :
  redeem a (tokensOutstanding (position s a)) s = Ok (w, s') ->
  positions s' !! a = None /\
  position s' a = emptyPosition /\
  tokensOutstanding (position s' a) = 0 /\
  rawCollateral (position s' a) = 0 /\
  (forall numTokens, redeem a numTokens s' = Revert "Position has no collateral").
Proof.
  intros H. apply redeem_Ok in H as (_ & _ & _ & _ & [Hfull|Hpart]).
  2: { destruct Hpart as (Hne & _). contradiction. }
  destruct Hfull as (_ & _ & _ & _ & _ & ->).
  match goal with |- positions ?s1 !! a = None /\ _ => set (s' := s1) end.
  assert (Hnone : positions s' !! a = None) by apply lookup_delete_eq.
  assert (Hempty : position s' a = emptyPosition).
  { unfold position. rewrite Hnone. reflexivity. }
  split; [exact Hnone|].
  rewrite Hempty. repeat split.
  intros numTokens. unfold redeem. apply bind_revert.
  apply uncollateralized_guard. rewrite Hempty. reflexivity.
Qed.

Lemma redeem_all_deletes_position_witness :
  redeem alice (tokensOutstanding (position lifecycle_state alice)) lifecycle_state
    = Ok (units 150, after (transaction alice (call_redeem (units 100))) lifecycle_state) /\
  position (after (transaction alice (call_redeem (units 100))) lifecycle_state) alice
    = emptyPosition /\
  redeem alice (units 1) (after (transaction alice (call_redeem (units 100))) lifecycle_state)
    = Revert "Position has no collateral".
Proof.
  assert (H : redeem alice (tokensOutstanding (position lifecycle_state alice)) lifecycle_state
              = Ok (units 150,
                    after (transaction alice (call_redeem (units 100))) lifecycle_state))
    by (vm_compute; reflexivity).
  destruct (redeem_all_deletes_position alice lifecycle_state _ _ H) as (_ & He & _ & _ & Hr).
  split; [exact H|]. split; [exact He|apply Hr].
Defined.

(** ** Transferring a position *)

(** C8, counterexample.  Alice requested a transfer and then withdrew all
    of her collateral through the two-phase path.  Her transfer request has
    a nonzero pass timestamp that has passed, she has no pending withdrawal
    and Bob's fee-adjusted collateral is zero, yet the transfer is rejected:
    her own position has no collateral. *)
Lemma transfer_without_collateral_is_rejected :
  reachable drained_state /\
  transferPositionRequestPassTimestamp (position drained_state alice) = 1000 /\
  currentTime drained_state = 2000 /\
  withdrawalRequestPassTimestamp (position drained_state alice) = 0 /\
  _getFeeAdjustedCollateral drained_state (rawCollateral (position drained_state bob)) = Ok 0 /\
  transferPositionPassedRequest alice bob drained_state = Revert "Position has no collateral".
Proof.
  split.
  - eapply final_reachable; [apply genesis_reachable|]. vm_compute. reflexivity.
  - vm_compute. repeat split; reflexivity.
Qed.

(** C8, as amended.  [transferPositionPassedRequest(newSponsor)] succeeds
    exactly when the caller's position has strictly positive fee-adjusted
    collateral, the caller has no pending withdrawal, the caller's transfer
    request has a nonzero pass timestamp that has passed, and newSponsor's
    fee-adjusted collateral is zero.  On success the caller's whole record,
    with the transfer request cleared, is stored under the new sponsor, the
    caller's position becomes absent, every other position, the aggregate
    counters and the token-call log are unchanged. *)
Theorem transferPositionPassedRequest_succeeds_iff (a newSponsor : address) (s : State) :
  ((exists r s', transferPositionPassedRequest a newSponsor s = Ok (r, s')) <->
   (collateralized s a /\
    withdrawalRequestPassTimestamp (position s a) = 0 /\
    _getFeeAdjustedCollateral s (rawCollateral (position s newSponsor)) = Ok 0 /\
    transferPositionRequestPassTimestamp (position s a) <> 0 /\
    transferPositionRequestPassTimestamp (position s a) <= currentTime s)) /\
  (forall r s', transferPositionPassedRequest a newSponsor s = Ok (r, s') ->
     position s' newSponsor
       = mkPositionData (tokensOutstanding (position s a))
                        (withdrawalRequestPassTimestamp (position s a))
                        (withdrawalRequestAmount (position s a))
                        (rawCollateral (position s a)) 0 /\
     position s' a = emptyPosition /\
     (forall b, b <> a -> b <> newSponsor -> position s' b = position s b) /\
     totalTokensOutstanding s' = totalTokensOutstanding s /\
     rawTotalPositionCollateral s' = rawTotalPositionCollateral s /\
     cumulativeFeeMultiplier s' = cumulativeFeeMultiplier s /\
     tokenCalls s' = tokenCalls s).
Proof.
  split; [split|].
  - intros (r & s' & H).
    apply transferPositionPassedRequest_Ok in H as (? & ? & ? & ? & ? & _ & _). auto.
  - intros ((c & Hc & Hpos) & Hw & Hnew & Hts & Hpassed).
    do 2 eexists. unfold transferPositionPassedRequest.
    rewrite (bind_run _ _ s tt s) by (eapply noPendingWithdrawal_run; eassumption).
    rewrite (bind_run _ _ s s s) by reflexivity.
    rewrite (bind_run _ _ s 0 s) by (unfold lift; rewrite Hnew; reflexivity).
    rewrite (bind_run _ _ s 0 s) by reflexivity.
    rewrite (bind_run _ _ s tt s) by reflexivity.
    rewrite (bind_run _ _ s a s) by (eapply getPositionData_run; eassumption).
    rewrite (bind_run _ _ s _ s) by reflexivity.
    rewrite (bind_run _ _ s _ s) by reflexivity.
    rewrite (bind_run _ _ s tt s).
    2: { unfold require. apply Z.eqb_neq in Hts. apply Z.leb_le in Hpassed.
         rewrite Hts, Hpassed. reflexivity. }
    unfold bind, update_position, read, write_position, delete_position. reflexivity.
  - intros r s' H.
    apply transferPositionPassedRequest_Ok in H as (_ & _ & _ & _ & _ & Hne & ->).
    unfold position. cbn [positions set_positions totalTokensOutstanding
                          rawTotalPositionCollateral cumulativeFeeMultiplier tokenCalls].
    rewrite lookup_insert_eq, lookup_insert_ne, lookup_delete_eq by congruence.
    repeat split.
    intros b Hba Hbn. rewrite lookup_insert_ne, lookup_delete_ne by congruence. reflexivity.
Qed.

Lemma transferPositionPassedRequest_succeeds_iff_witness :
  transferPositionPassedRequest alice bob handover_state = Ok (tt, handover_state_after) /\
  position handover_state_after bob = mkPositionData (units 100) 0 0 (units 150) 0 /\
  position handover_state_after alice = emptyPosition.
Proof.
  assert (H : transferPositionPassedRequest alice bob handover_state
              = Ok (tt, handover_state_after)) by (vm_compute; reflexivity).
  destruct (proj2 (transferPositionPassedRequest_succeeds_iff alice bob handover_state) _ _ H)
    as (Hb & Ha & _).
  split; [exact H|]. split; [exact Hb|exact Ha].
Defined.

(** ** Sponsors without collateral *)

(** C9, counterexample.  Bob has no position (zero fee-adjusted
    collateral) and never calls [create]; Alice's
    [transferPositionPassedRequest(bob)] gives him her position of 100
    tokens against 150 collateral. *)
Lemma absent_sponsor_enters_by_transfer :
  reachable handover_state /\
  _getFeeAdjustedCollateral handover_state (rawCollateral (position handover_state bob))
    = Ok 0 /\
  step (transaction alice (call_transferPositionPassedRequest bob)) handover_state
    = Ok handover_state_after /\
  position handover_state_after bob = mkPositionData (units 100) 0 0 (units 150) 0.
Proof.
  split.
  - eapply final_reachable; [apply genesis_reachable|]. vm_compute. reflexivity.
  - vm_compute. repeat split; reflexivity.
Qed.

(** C9, as amended.  For every sponsor whose fee-adjusted collateral is
    zero, every operation that looks the position up through
    [_getPositionData] fails with "Position has no collateral": [depositTo]
    and [deposit] (whatever the amount), [withdraw], [requestWithdrawal],
    [withdrawPassedRequest], [cancelWithdrawal], [requestTransferPosition],
    [transferPositionPassedRequest], [cancelTransferPosition] and [redeem].
    The sponsor's position record can then only change through the
    sponsor's own [create] or by another sponsor transferring a position to
    it with [transferPositionPassedRequest]. *)
Theorem uncollateralized_sponsor_is_rejected (a : address) (s : State) :
  _getFeeAdjustedCollateral s (rawCollateral (position s a)) = Ok 0 ->
  (forall sender amount, depositTo sender a amount s = Revert "Position has no collateral") /\
  (forall amount, deposit a amount s = Revert "Position has no collateral") /\
  (forall amount, withdraw a amount s = Revert "Position has no collateral") /\
  (forall amount, requestWithdrawal a amount s = Revert "Position has no collateral") /\
  withdrawPassedRequest a s = Revert "Position has no collateral" /\
  cancelWithdrawal a s = Revert "Position has no collateral" /\
  requestTransferPosition a s = Revert "Position has no collateral" /\
  (forall newSponsor,
     transferPositionPassedRequest a newSponsor s = Revert "Position has no collateral") /\
  cancelTransferPosition a s = Revert "Position has no collateral" /\
  (forall numTokens, redeem a numTokens s = Revert "Position has no collateral") /\
  (forall e s', step e s = Ok s' -> position s' a <> position s a ->
     (exists collateralAmount numTokens,
        e = transaction a (call_create collateralAmount numTokens)) \/
     (exists sender, sender <> a /\
        e = transaction sender (call_transferPositionPassedRequest a))).
Proof.
  intros Hzero.
  destruct (uncollateralized_guard s a Hzero) as [Hget Hguard].
  assert (Hnot : ~ collateralized s a).
  { intros (c & Hc & Hpos). rewrite Hzero in Hc. injection Hc as <-. lia. }
  repeat split; intros.
  - unfold depositTo. apply bind_revert. exact Hguard.
  - unfold deposit, depositTo. apply bind_revert. exact Hguard.
  - unfold withdraw. apply bind_revert. exact Hguard.
  - unfold requestWithdrawal. apply bind_revert. exact Hguard.
  - unfold withdrawPassedRequest. rewrite (bind_run _ _ s tt s) by reflexivity.
    apply bind_revert. exact Hget.
  - unfold cancelWithdrawal. apply bind_revert. exact Hget.
  - unfold requestTransferPosition. apply bind_revert. exact Hget.
  - unfold transferPositionPassedRequest. apply bind_revert. exact Hguard.
  - unfold cancelTransferPosition. apply bind_revert. exact Hget.
  - unfold redeem. apply bind_revert. exact Hguard.
  - match goal with Hs : step _ _ = Ok _, Hd : position _ _ <> _ |- _ =>
      rename Hs into Hstep, Hd into Hdiff end.
    apply step_Ok_cases in Hstep as [(x & c & r & -> & _ & Hd)|[[_ Hps]|[_ Hps]]].
    2,3: exfalso; apply Hdiff; unfold position; rewrite Hps; reflexivity.
    pose proof (dispatch_positions x c s r s' Hd) as Hshape.
    assert (Hsame : forall y p, positions s' = <[y := p]> (positions s) -> y <> a -> False).
    { intros y p Hps Hy. apply Hdiff. unfold position. rewrite Hps, lookup_insert_ne by exact Hy.
      reflexivity. }
    assert (Hsingle : forall y, collateralized s y ->
               (exists p, positions s' = <[y := p]> (positions s) /\
                          tokensOutstanding p = tokensOutstanding (position s y)) -> False).
    { intros y Hc (p & Hps & _). destruct (decide (y = a)) as [->|Hy]; [auto|eauto]. }
    destruct c; simpl in Hshape;
      try (exfalso; destruct Hshape as (Hc & Hex); eapply Hsingle; eassumption).
    + (* transferPositionPassedRequest *)
      destruct Hshape as (Hc & Hne & _ & Hps).
      right. exists x.
      destruct (decide (newSponsorAddress = a)) as [->|Hn]; [auto|].
      exfalso. destruct (decide (x = a)) as [->|Hx]; [auto|].
      apply Hdiff. unfold position.
      rewrite Hps, lookup_insert_ne, lookup_delete_ne by assumption. reflexivity.
    + (* create *)
      destruct Hshape as (p & Hps & _).
      destruct (decide (x = a)) as [->|Hx]; [left; eauto|].
      exfalso. eauto.
    + (* redeem *)
      exfalso. destruct Hshape as (Hc & [[_ Hps]|(_ & _ & p & Hps & _)]).
      * destruct (decide (x = a)) as [->|Hx]; [auto|].
        apply Hdiff. unfold position. rewrite Hps, lookup_delete_ne by assumption. reflexivity.
      * destruct (decide (x = a)) as [->|Hx]; [auto|eauto].
Qed.

Lemma uncollateralized_sponsor_is_rejected_witness :
  _getFeeAdjustedCollateral handover_state (rawCollateral (position handover_state bob))
    = Ok 0 /\
  deposit bob (units 5) handover_state = Revert "Position has no collateral" /\
  redeem bob (units 1) handover_state = Revert "Position has no collateral".
Proof.
  assert (H : _getFeeAdjustedCollateral handover_state
                (rawCollateral (position handover_state bob)) = Ok 0)
    by (vm_compute; reflexivity).
  destruct (uncollateralized_sponsor_is_rejected bob handover_state H)
    as (_ & Hd & _ & _ & _ & _ & _ & _ & _ & Hr & _).
  split; [exact H|]. split; [apply Hd|apply Hr].
Defined.

(** ** Cancelling requests *)

(** C10.  A successful [cancelWithdrawal] changes only the caller's
    [withdrawalRequestAmount] and [withdrawalRequestPassTimestamp], which
    become zero, and a successful [cancelTransferPosition] changes only the
    caller's [transferPositionRequestPassTimestamp], which becomes zero: the
    caller's [tokensOutstanding] and [rawCollateral], every other sponsor's
    position, [totalTokensOutstanding], [rawTotalPositionCollateral] and the
    rest of the storage are unchanged, and no token call is made. *)
Theorem cancellations_only_clear_the_request (a : address) (s : State) :
  (forall r s', cancelWithdrawal a s = Ok (r, s') ->
     position s' a
       = mkPositionData (tokensOutstanding (position s a)) 0 0
                        (rawCollateral (position s a))
                        (transferPositionRequestPassTimestamp (position s a)) /\
     (forall b, b <> a -> position s' b = position s b) /\
     same_outside_positions s s') /\
  (forall r s', cancelTransferPosition a s = Ok (r, s') ->
     position s' a
       = mkPositionData (tokensOutstanding (position s a))
                        (withdrawalRequestPassTimestamp (position s a))
                        (withdrawalRequestAmount (position s a))
                        (rawCollateral (position s a)) 0 /\
     (forall b, b <> a -> position s' b = position s b) /\
     same_outside_positions s s').
Proof.
  split; intros r s' H.
  - apply cancelWithdrawal_Ok in H as (_ & _ & ->).
    split; [|split].
    + rewrite position_insert_eq. reflexivity.
    + intros b Hb. apply position_insert_ne. congruence.
    + unfold same_outside_positions. cbn. repeat split.
  - apply cancelTransferPosition_Ok in H as (_ & _ & ->).
    split; [|split].
    + rewrite position_insert_eq. reflexivity.
    + intros b Hb. apply position_insert_ne. congruence.
    + unfold same_outside_positions. cbn. repeat split.
Qed.

Lemma cancellations_only_clear_the_request_witness :
  cancelWithdrawal alice pending_state
    = Ok (tt, after (transaction alice call_cancelWithdrawal) pending_state) /\
  position (after (transaction alice call_cancelWithdrawal) pending_state) alice
    = mkPositionData (units 100) 0 0 (units 150) 0 /\
  same_outside_positions pending_state
    (after (transaction alice call_cancelWithdrawal) pending_state) /\
  cancelTransferPosition alice handover_state
    = Ok (tt, after (transaction alice call_cancelTransferPosition) handover_state) /\
  position (after (transaction alice call_cancelTransferPosition) handover_state) alice
    = mkPositionData (units 100) 0 0 (units 150) 0.
Proof.
  assert (H1 : cancelWithdrawal alice pending_state
               = Ok (tt, after (transaction alice call_cancelWithdrawal) pending_state))
    by (vm_compute; reflexivity).
  assert (H2 : cancelTransferPosition alice handover_state
               = Ok (tt, after (transaction alice call_cancelTransferPosition) handover_state))
    by (vm_compute; reflexivity).
  destruct (proj1 (cancellations_only_clear_the_request alice pending_state) _ _ H1)
    as (Ha & _ & Hframe).
  destruct (proj2 (cancellations_only_clear_the_request alice handover_state) _ _ H2)
    as (Hb & _).
  split; [exact H1|]. split; [exact Ha|]. split; [exact Hframe|].
  split; [exact H2|exact Hb].
Defined.

(** ** Requests: round trips, repetition and liveness *)

Lemma collateralized_stored s a :
  collateralized s a -> positions s !! a = Some (position s a).
Proof.
  intros Hc. pose proof (collateralized_raw_nonzero s a Hc) as Hnz.
  unfold position in *. destruct (positions s !! a); [reflexivity|].
  simpl in Hnz. contradiction.
Qed.

Lemma collateralized_same_collateral s s1 a :
  cumulativeFeeMultiplier s1 = cumulativeFeeMultiplier s ->
  rawCollateral (position s1 a) = rawCollateral (position s a) ->
  collateralized s a -> collateralized s1 a.
Proof.
  intros Hm Hraw (c & Hc & Hpos). exists c. split; [|exact Hpos].
  rewrite Hraw, (getFeeAdjustedCollateral_ext s1 s _ Hm). exact Hc.
Qed.

Lemma collateralized_run s a :
  collateralized s a -> _getPositionData a s = Ok (a, s).
Proof. intros (c & Hc & Hpos). eapply getPositionData_run; eassumption. Qed.

Lemma cancelTransferPosition_run a s :
  collateralized s a ->
  transferPositionRequestPassTimestamp (position s a) <> 0 ->
  cancelTransferPosition a s
  = Ok (tt, set_positions
              (insert a (with_transferPositionRequestPassTimestamp 0 (position s a))) s).
Proof.
  intros Hc Hts. unfold cancelTransferPosition.
  rewrite (bind_run _ _ _ _ _ (collateralized_run s a Hc)).
  rewrite (bind_run _ _ s _ s) by reflexivity.
  apply Z.eqb_neq in Hts.
  rewrite (bind_run _ _ s tt s) by (unfold require; rewrite Hts; reflexivity).
  reflexivity.
Qed.

Lemma resetWithdrawalRequest_run a s :
  _resetWithdrawalRequest a s
  = Ok (tt, set_positions
              (insert a (with_withdrawalRequestPassTimestamp 0
                           (with_withdrawalRequestAmount 0 (position s a)))) s).
Proof.
  destruct (_resetWithdrawalRequest a s) as [[[] s']|msg] eqn:E.
  - apply resetWithdrawalRequest_Ok in E. rewrite E. reflexivity.
  - unfold _resetWithdrawalRequest, bind, lift, update_position in E.
    rewrite fromUnscaledUint_0 in E. discriminate.
Qed.

Lemma cancelWithdrawal_run a s :
  collateralized s a ->
  withdrawalRequestPassTimestamp (position s a) <> 0 ->
  cancelWithdrawal a s
  = Ok (tt, set_positions
              (insert a (with_withdrawalRequestPassTimestamp 0
                           (with_withdrawalRequestAmount 0 (position s a)))) s).
Proof.
  intros Hc Hts. unfold cancelWithdrawal.
  rewrite (bind_run _ _ _ _ _ (collateralized_run s a Hc)).
  rewrite (bind_run _ _ s _ s) by reflexivity.
  apply Z.eqb_neq in Hts.
  rewrite (bind_run _ _ s tt s) by (unfold require; rewrite Hts; reflexivity).
  apply resetWithdrawalRequest_run.
Qed.

Lemma set_positions_stored s a p :
  positions s !! a = Some p -> set_positions (insert a p) s = s.
Proof.
  intros H. apply State_ext; try reflexivity.
  cbn [positions set_positions]. apply insert_id. exact H.
Qed.

(** X1.  Requesting a position transfer and then cancelling it restores
    the storage exactly, provided the request's pass time, the current time
    plus the liveness, is not zero (a zero pass timestamp reads as "no
    request", so the cancellation would be rejected). *)
Theorem transfer_request_then_cancel_restores (a : address) (s s1 : State) (r : unit) :
  requestTransferPosition a s = Ok (r, s1) ->
  currentTime s + withdrawalLiveness s <> 0 ->
  cancelTransferPosition a s1 = Ok (tt, s).
Proof.
  intros H Hnz.
  apply requestTransferPosition_Ok in H as (Hc & Hts & _ & ->).
  pose proof (collateralized_stored s a Hc) as Hstored.
  rewrite cancelTransferPosition_run.
  - do 2 f_equal. rewrite position_insert_eq.
    apply State_ext; try reflexivity.
    cbn [positions set_positions]. rewrite insert_insert_eq.
    apply insert_id. rewrite Hstored. f_equal.
    destruct (position s a). simpl in *. subst. reflexivity.
  - eapply collateralized_same_collateral; [| |exact Hc]; [reflexivity|].
    rewrite position_insert_eq. reflexivity.
  - rewrite position_insert_eq. exact Hnz.
Qed.

Lemma transfer_request_then_cancel_restores_witness :
  requestTransferPosition alice lifecycle_state
    = Ok (tt, after (transaction alice call_requestTransferPosition) lifecycle_state) /\
  cancelTransferPosition alice
    (after (transaction alice call_requestTransferPosition) lifecycle_state)
    = Ok (tt, lifecycle_state).
Proof.
  assert (H : requestTransferPosition alice lifecycle_state
              = Ok (tt, after (transaction alice call_requestTransferPosition) lifecycle_state))
    by (vm_compute; reflexivity).
  assert (Hnz : currentTime lifecycle_state + withdrawalLiveness lifecycle_state <> 0)
    by (vm_compute; discriminate).
  split; [exact H|].
  exact (transfer_request_then_cancel_restores alice lifecycle_state _ tt H Hnz).
Defined.

(** X2.  Requesting a withdrawal and then cancelling it restores the
    storage exactly, provided no stale request amount was stored before and
    the request's pass time is not zero. *)
Theorem withdrawal_request_then_cancel_restores
    (a : address) (collateralAmount : Z) (s s1 : State) (r : unit) :
  requestWithdrawal a collateralAmount s = Ok (r, s1) ->
  withdrawalRequestAmount (position s a) = 0 ->
  currentTime s + withdrawalLiveness s <> 0 ->
  cancelWithdrawal a s1 = Ok (tt, s).
Proof.
  intros H Hamount Hnz.
  apply requestWithdrawal_Ok in H as (Hc & Hts & _ & ->).
  pose proof (collateralized_stored s a Hc) as Hstored.
  rewrite cancelWithdrawal_run.
  - do 2 f_equal. rewrite position_insert_eq.
    apply State_ext; try reflexivity.
    cbn [positions set_positions]. rewrite insert_insert_eq.
    apply insert_id. rewrite Hstored. f_equal.
    destruct (position s a). simpl in *. subst. reflexivity.
  - eapply collateralized_same_collateral; [| |exact Hc]; [reflexivity|].
    rewrite position_insert_eq. reflexivity.
  - rewrite position_insert_eq. exact Hnz.
Qed.

Lemma withdrawal_request_then_cancel_restores_witness :
  requestWithdrawal alice (units 20) lifecycle_state
    = Ok (tt, after (transaction alice (call_requestWithdrawal (units 20))) lifecycle_state) /\
  cancelWithdrawal alice
    (after (transaction alice (call_requestWithdrawal (units 20))) lifecycle_state)
    = Ok (tt, lifecycle_state).
Proof.
  assert (H : requestWithdrawal alice (units 20) lifecycle_state
              = Ok (tt, after (transaction alice (call_requestWithdrawal (units 20)))
                              lifecycle_state))
    by (vm_compute; reflexivity).
  assert (Ha : withdrawalRequestAmount (position lifecycle_state alice) = 0)
    by (vm_compute; reflexivity).
  assert (Hnz : currentTime lifecycle_state + withdrawalLiveness lifecycle_state <> 0)
    by (vm_compute; discriminate).
  split; [exact H|].
  exact (withdrawal_request_then_cancel_restores alice _ lifecycle_state _ tt H Ha Hnz).
Defined.

Lemma position_set_currentTime t s a : position (set_currentTime t s) a = position s a.
Proof. reflexivity. Qed.

Lemma collateralized_set_currentTime t s a :
  collateralized s a -> collateralized (set_currentTime t s) a.
Proof. apply collateralized_same_collateral; reflexivity. Qed.

Lemma withdrawPassedRequest_too_early a s :
  collateralized s a ->
  withdrawalRequestPassTimestamp (position s a) = 0 \/
  currentTime s < withdrawalRequestPassTimestamp (position s a) ->
  withdrawPassedRequest a s = Revert "Invalid withdraw request".
Proof.
  intros Hc Hts. unfold withdrawPassedRequest.
  rewrite (bind_run _ _ s tt s) by reflexivity.
  rewrite (bind_run _ _ _ _ _ (collateralized_run s a Hc)).
  rewrite (bind_run _ _ s _ s) by reflexivity.
  rewrite (bind_run _ _ s _ s) by reflexivity.
  apply bind_revert. unfold require.
  destruct Hts as [-> | Hlt]; [reflexivity|].
  apply Z.leb_gt in Hlt. rewrite Hlt, andb_false_r. reflexivity.
Qed.

Lemma transferPositionPassedRequest_too_early a new s :
  collateralized s a ->
  withdrawalRequestPassTimestamp (position s a) = 0 ->
  _getFeeAdjustedCollateral s (rawCollateral (position s new)) = Ok 0 ->
  transferPositionRequestPassTimestamp (position s a) = 0 \/
  currentTime s < transferPositionRequestPassTimestamp (position s a) ->
  transferPositionPassedRequest a new s = Revert "Invalid transfer request".
Proof.
  intros Hc Hw Hnew Hts. unfold transferPositionPassedRequest.
  destruct Hc as (c & Hc & Hpos).
  rewrite (bind_run _ _ _ _ _ (noPendingWithdrawal_run a s c Hc Hpos Hw)).
  rewrite (bind_run _ _ s s s) by reflexivity.
  rewrite (bind_run _ _ s 0 s) by (unfold lift; rewrite Hnew; reflexivity).
  rewrite (bind_run _ _ s 0 s) by (unfold lift; rewrite fromUnscaledUint_0; reflexivity).
  rewrite (bind_run _ _ s tt s) by reflexivity.
  rewrite (bind_run _ _ _ _ _ (getPositionData_run a s c Hc Hpos)).
  rewrite (bind_run _ _ s _ s) by reflexivity.
  rewrite (bind_run _ _ s _ s) by reflexivity.
  apply bind_revert. unfold require.
  destruct Hts as [-> | Hlt]; [reflexivity|].
  apply Z.leb_gt in Hlt. rewrite Hlt, andb_false_r. reflexivity.
Qed.

(** X5.  A passed withdrawal request pays once: after a successful
    [withdrawPassedRequest], the same sponsor's next
    [withdrawPassedRequest] is rejected however much later it comes, and
    with "Invalid withdraw request" while the position still holds
    collateral. *)
Theorem withdrawPassedRequest_pays_once (a : address) (s s1 : State) (w t : Z) :
  withdrawPassedRequest a s = Ok (w, s1) ->
  exists msg,
    withdrawPassedRequest a (set_currentTime t s1) = Revert msg /\
    (collateralized s1 a -> msg = "Invalid withdraw request").
Proof.
  intros H.
  apply withdrawPassedRequest_Ok in H as (_ & _ & _ & d & _ & _ & _ & _ & _ & ->).
  match goal with |- context [set_currentTime t ?st] => set (s1 := st) end.
  assert (Hts : withdrawalRequestPassTimestamp (position (set_currentTime t s1) a) = 0).
  { rewrite position_set_currentTime. unfold s1, position. cbn [positions].
    rewrite lookup_insert_eq. reflexivity. }
  destruct (withdrawPassedRequest a (set_currentTime t s1)) as [[u s2]|msg] eqn:E.
  - apply withdrawPassedRequest_Ok in E as (_ & Hne & _). contradiction.
  - exists msg. split; [reflexivity|]. intros Hc.
    rewrite withdrawPassedRequest_too_early in E.
    + congruence.
    + apply collateralized_set_currentTime. exact Hc.
    + left. exact Hts.
Qed.

Lemma withdrawPassedRequest_pays_once_witness :
  withdrawPassedRequest alice (set_currentTime 5000 lifecycle_state)
  = Revert "Invalid withdraw request".
Proof.
  assert (H : withdrawPassedRequest alice (final (firstn 4 lifecycle_events) genesis)
              = Ok (units 50, lifecycle_state))
    by (vm_compute; reflexivity).
  destruct (withdrawPassedRequest_pays_once alice _ lifecycle_state (units 50) 5000 H)
    as (msg & E & Hmsg).
  rewrite E, Hmsg; [reflexivity|].
  exists (units 150). split; [vm_compute; reflexivity | reflexivity].
Defined.

(** X6.  A cancellation cannot be repeated: after a successful
    [cancelWithdrawal] a second one is rejected with "No pending
    withdrawal", and after a successful [cancelTransferPosition] a second
    one is rejected with "No pending transfer". *)
Theorem cancellation_cannot_be_repeated (a : address) (s s1 : State) (r : unit) :
  (cancelWithdrawal a s = Ok (r, s1) ->
   cancelWithdrawal a s1 = Revert "No pending withdrawal") /\
  (cancelTransferPosition a s = Ok (r, s1) ->
   cancelTransferPosition a s1 = Revert "No pending transfer").
Proof.
  split; intros H.
  - apply cancelWithdrawal_Ok in H as (Hc & _ & ->).
    match goal with |- cancelWithdrawal a ?st = _ => set (s1 := st) end.
    assert (Hrun : _getPositionData a s1 = Ok (a, s1)).
    { apply collateralized_run.
      eapply collateralized_same_collateral; [| |exact Hc]; [reflexivity|].
      unfold s1. rewrite position_insert_eq. reflexivity. }
    unfold cancelWithdrawal. rewrite (bind_run _ _ _ _ _ Hrun).
    unfold bind, read, require, s1. rewrite position_insert_eq. reflexivity.
  - apply cancelTransferPosition_Ok in H as (Hc & _ & ->).
    match goal with |- cancelTransferPosition a ?st = _ => set (s1 := st) end.
    assert (Hrun : _getPositionData a s1 = Ok (a, s1)).
    { apply collateralized_run.
      eapply collateralized_same_collateral; [| |exact Hc]; [reflexivity|].
      unfold s1. rewrite position_insert_eq. reflexivity. }
    unfold cancelTransferPosition. rewrite (bind_run _ _ _ _ _ Hrun).
    unfold bind, read, require, s1. rewrite position_insert_eq. reflexivity.
Qed.

Lemma cancellation_cannot_be_repeated_witness :
  cancelWithdrawal alice (after (transaction alice call_cancelWithdrawal) pending_state)
    = Revert "No pending withdrawal" /\
  cancelTransferPosition alice
    (after (transaction alice call_cancelTransferPosition) handover_state)
    = Revert "No pending transfer".
Proof.
  split.
  - apply (proj1 (cancellation_cannot_be_repeated alice pending_state _ tt)).
    vm_compute. reflexivity.
  - apply (proj2 (cancellation_cannot_be_repeated alice handover_state _ tt)).
    vm_compute. reflexivity.
Defined.

(** X7.  One request of a kind at a time: while a sponsor with collateral
    has a withdrawal request pending, a further [requestWithdrawal] and the
    execution of a position transfer are rejected with "Pending
    withdrawal"; while a transfer request is pending, a further
    [requestTransferPosition] is rejected with "Pending transfer". *)
Theorem pending_request_blocks_further_requests
    (a new : address) (collateralAmount : Z) (s : State) :
  collateralized s a ->
  (withdrawalRequestPassTimestamp (position s a) <> 0 ->
   requestWithdrawal a collateralAmount s = Revert "Pending withdrawal" /\
   transferPositionPassedRequest a new s = Revert "Pending withdrawal") /\
  (transferPositionRequestPassTimestamp (position s a) <> 0 ->
   requestTransferPosition a s = Revert "Pending transfer").
Proof.
  intros Hc. split.
  - intros Hts.
    destruct (noPendingWithdrawal_pending a s Hts) as (msg & Hrev & Hmsg).
    rewrite (Hmsg Hc) in Hrev.
    split; [unfold requestWithdrawal | unfold transferPositionPassedRequest];
      apply bind_revert; exact Hrev.
  - intros Hts. unfold requestTransferPosition.
    rewrite (bind_run _ _ _ _ _ (collateralized_run s a Hc)).
    rewrite (bind_run _ _ s _ s) by reflexivity.
    apply bind_revert. unfold require. apply Z.eqb_neq in Hts. rewrite Hts. reflexivity.
Qed.

Lemma pending_request_blocks_further_requests_witness :
  (requestWithdrawal alice (units 1) pending_state = Revert "Pending withdrawal" /\
   transferPositionPassedRequest alice bob pending_state = Revert "Pending withdrawal") /\
  requestTransferPosition alice handover_state = Revert "Pending transfer".
Proof.
  split.
  - apply (pending_request_blocks_further_requests alice bob (units 1) pending_state).
    + exists (units 150). split; [vm_compute; reflexivity | reflexivity].
    + vm_compute. discriminate.
  - apply (pending_request_blocks_further_requests alice bob (units 1) handover_state).
    + exists (units 150). split; [vm_compute; reflexivity | reflexivity].
    + vm_compute. discriminate.
Defined.

(** X8.  Rejected amounts.  For a sponsor with collateral and no pending
    withdrawal: a deposit into the position or a fast withdrawal of amount
    zero, and a withdrawal request of amount zero or of more than the
    position's fee-adjusted collateral, are rejected with "Invalid
    collateral amount"; a redemption of more tokens than the position has
    outstanding is rejected with "Invalid token amount". *)
Theorem invalid_amounts_are_rejected
    (sender a : address) (collateralAmount numTokens : Z) (s : State) :
  collateralized s a ->
  withdrawalRequestPassTimestamp (position s a) = 0 ->
  depositTo sender a 0 s = Revert "Invalid collateral amount" /\
  withdraw a 0 s = Revert "Invalid collateral amount" /\
  (collateralAmount = 0 \/
   adjustedCollateral s (rawCollateral (position s a)) < collateralAmount ->
   requestWithdrawal a collateralAmount s = Revert "Invalid collateral amount") /\
  (tokensOutstanding (position s a) < numTokens ->
   redeem a numTokens s = Revert "Invalid token amount").
Proof.
  intros Hcol Hts. pose proof Hcol as (c & Hc & Hpos).
  pose proof (noPendingWithdrawal_run a s c Hc Hpos Hts) as Hguard.
  pose proof (getPositionData_run a s c Hc Hpos) as Hdata.
  repeat split.
  - unfold depositTo. rewrite (bind_run _ _ _ _ _ Hguard).
    rewrite (bind_run _ _ s tt s) by reflexivity.
    apply bind_revert. reflexivity.
  - unfold withdraw. rewrite (bind_run _ _ _ _ _ Hguard).
    rewrite (bind_run _ _ s tt s) by reflexivity.
    rewrite (bind_run _ _ _ _ _ Hdata).
    apply bind_revert. reflexivity.
  - intros Hbad. unfold requestWithdrawal. rewrite (bind_run _ _ _ _ _ Hguard).
    rewrite (bind_run _ _ _ _ _ Hdata).
    rewrite (bind_run _ _ s false s).
    + apply bind_revert. reflexivity.
    + unfold and_then, FixedPoint.isGreaterThan.
      destruct (Z.ltb_spec 0 collateralAmount) as [Hlt|Hle]; [|reflexivity].
      unfold bind, get, lift, ret. rewrite Hc.
      unfold adjustedCollateral in Hbad. rewrite Hc in Hbad.
      unfold FixedPoint.isLessThanOrEqual.
      destruct (Z.leb_spec collateralAmount c); [lia | reflexivity].
  - intros Hbad. unfold redeem. rewrite (bind_run _ _ _ _ _ Hguard).
    rewrite (bind_run _ _ s tt s) by reflexivity.
    rewrite (bind_run _ _ _ _ _ Hdata).
    rewrite (bind_run _ _ s s s) by reflexivity.
    apply bind_revert. unfold require, FixedPoint.isGreaterThan.
    apply Z.ltb_lt in Hbad. rewrite Hbad. reflexivity.
Qed.

Lemma invalid_amounts_are_rejected_witness :
  depositTo bob alice 0 lifecycle_state = Revert "Invalid collateral amount" /\
  withdraw alice 0 lifecycle_state = Revert "Invalid collateral amount" /\
  requestWithdrawal alice (units 151) lifecycle_state = Revert "Invalid collateral amount" /\
  redeem alice (units 101) lifecycle_state = Revert "Invalid token amount".
Proof.
  destruct (invalid_amounts_are_rejected bob alice (units 151) (units 101) lifecycle_state)
    as (Hdeposit & Hwithdraw & Hrequest & Hredeem).
  - exists (units 150). split; [vm_compute; reflexivity | reflexivity].
  - vm_compute. reflexivity.
  - split; [exact Hdeposit|]. split; [exact Hwithdraw|]. split.
    + apply Hrequest. right. vm_compute. reflexivity.
    + apply Hredeem. vm_compute. reflexivity.
Defined.

(** ** Accounting of an operation against its token calls *)

Lemma dispatch_ledger a c s r s' :
  dispatch a c s = Ok (r, s') ->
  withdrawalLiveness s' = withdrawalLiveness s /\
  minSponsorTokens s' = minSponsorTokens s /\
  expirationTimestamp s' = expirationTimestamp s /\
  cumulativeFeeMultiplier s' = cumulativeFeeMultiplier s /\
  currentTime s' = currentTime s /\
  totalTokensOutstanding s' = totalTokensOutstanding s + tokensDelta c /\
  tokenCalls s' =
    (tokenCalls s ++
     tokenCallsOf a c (adjustedCollateral s (rawTotalPositionCollateral s)
                       - adjustedCollateral s (rawTotalPositionCollateral s')))%list.
Proof.
  intros H. destruct c; simpl in H; unfold discard, deposit in H; inv_M.
  - match goal with H : requestTransferPosition _ _ = Ok _ |- _ =>
      apply requestTransferPosition_Ok in H as (_ & _ & _ & ->) end.
    cbn. rewrite app_nil_r. repeat split; lia.
  - match goal with H : transferPositionPassedRequest _ _ _ = Ok _ |- _ =>
      apply transferPositionPassedRequest_Ok in H as (_ & _ & _ & _ & _ & _ & ->) end.
    cbn. rewrite app_nil_r. repeat split; lia.
  - match goal with H : cancelTransferPosition _ _ = Ok _ |- _ =>
      apply cancelTransferPosition_Ok in H as (_ & _ & ->) end.
    cbn. rewrite app_nil_r. repeat split; lia.
  - match goal with H : depositTo _ _ _ _ = Ok _ |- _ =>
      apply depositTo_Ok in H as (_ & _ & _ & d & _ & _ & ->) end.
    cbn. repeat split; lia.
  - match goal with H : depositTo _ _ _ _ = Ok _ |- _ =>
      apply depositTo_Ok in H as (_ & _ & _ & d & _ & _ & ->) end.
    cbn. repeat split; lia.
  - match goal with H : withdraw _ _ _ = Ok _ |- _ =>
      apply withdraw_Ok in H as (_ & _ & _ & d & _ & _ & _ & _ & -> & _ & ->) end.
    cbn. repeat split; lia.
  - match goal with H : requestWithdrawal _ _ _ = Ok _ |- _ =>
      apply requestWithdrawal_Ok in H as (_ & _ & _ & ->) end.
    cbn. rewrite app_nil_r. repeat split; lia.
  - match goal with H : withdrawPassedRequest _ _ = Ok _ |- _ =>
      apply withdrawPassedRequest_Ok in H as (_ & _ & _ & d & _ & _ & _ & _ & -> & ->) end.
    cbn. repeat split; lia.
  - match goal with H : cancelWithdrawal _ _ = Ok _ |- _ =>
      apply cancelWithdrawal_Ok in H as (_ & _ & ->) end.
    cbn. rewrite app_nil_r. repeat split; lia.
  - match goal with H : create _ _ _ _ = Ok _ |- _ =>
      apply create_Ok in H as (_ & _ & _ & _ & fa & d & _ & _ & _ & _ & ->) end.
    cbn. repeat split; lia.
  - match goal with H : redeem _ _ _ = Ok _ |- _ =>
      apply redeem_Ok in H as (_ & _ & _ & _ & [Hfull|Hpart]) end.
    + destruct Hfull as (-> & _ & _ & _ & -> & ->). cbn. repeat split; lia.
    + destruct Hpart as (_ & _ & _ & d & _ & _ & _ & -> & ->). cbn. repeat split; lia.
Qed.

Lemma adjustedCollateral_ext s1 s2 raw :
  cumulativeFeeMultiplier s1 = cumulativeFeeMultiplier s2 ->
  adjustedCollateral s1 raw = adjustedCollateral s2 raw.
Proof.
  intros Hm. unfold adjustedCollateral.
  rewrite (getFeeAdjustedCollateral_ext s1 s2 raw Hm). reflexivity.
Qed.

Lemma dispatch_rawTotal a c s r s' :
  dispatch a c s = Ok (r, s') ->
  match c with
  | call_depositTo _ amount | call_deposit amount | call_create amount _ =>
      exists d, _convertToRawCollateral s amount = Ok d /\
                (rawTotalPositionCollateral s + d) * cumulativeFeeMultiplier s <= MAX_UINT256 /\
                rawTotalPositionCollateral s' = rawTotalPositionCollateral s + d
  | call_withdraw _ | call_withdrawPassedRequest | call_redeem _ => True
  | _ => rawTotalPositionCollateral s' = rawTotalPositionCollateral s
  end.
Proof.
  intros H. destruct c; simpl in H; unfold discard, deposit in H; inv_M; try exact I.
  - match goal with H : requestTransferPosition _ _ = Ok _ |- _ =>
      apply requestTransferPosition_Ok in H as (_ & _ & _ & ->) end.
    reflexivity.
  - match goal with H : transferPositionPassedRequest _ _ _ = Ok _ |- _ =>
      apply transferPositionPassedRequest_Ok in H as (_ & _ & _ & _ & _ & _ & ->) end.
    reflexivity.
  - match goal with H : cancelTransferPosition _ _ = Ok _ |- _ =>
      apply cancelTransferPosition_Ok in H as (_ & _ & ->) end.
    reflexivity.
  - match goal with H : depositTo _ _ _ _ = Ok _ |- _ =>
      apply depositTo_Ok in H as (_ & _ & _ & d & Hd & Hmax & ->) end.
    exists d. auto.
  - match goal with H : depositTo _ _ _ _ = Ok _ |- _ =>
      apply depositTo_Ok in H as (_ & _ & _ & d & Hd & Hmax & ->) end.
    exists d. auto.
  - match goal with H : requestWithdrawal _ _ _ = Ok _ |- _ =>
      apply requestWithdrawal_Ok in H as (_ & _ & _ & ->) end.
    reflexivity.
  - match goal with H : cancelWithdrawal _ _ = Ok _ |- _ =>
      apply cancelWithdrawal_Ok in H as (_ & _ & ->) end.
    reflexivity.
  - match goal with H : create _ _ _ _ = Ok _ |- _ =>
      apply create_Ok in H as (_ & _ & _ & _ & fa & d & _ & _ & Hd & Hmax & ->) end.
    exists d. auto.
Qed.

Lemma netCollateral_app l1 l2 :
  netCollateral (l1 ++ l2) = netCollateral l1 + netCollateral l2.
Proof. unfold netCollateral. induction l1 as [|c l1 IH]; simpl; [reflexivity|]. rewrite IH. lia. Qed.

Lemma netIssued_app l1 l2 : netIssued (l1 ++ l2) = netIssued l1 + netIssued l2.
Proof. unfold netIssued. induction l1 as [|c l1 IH]; simpl; [reflexivity|]. rewrite IH. lia. Qed.

Lemma netIssued_tokenCallsOf a c paid : netIssued (tokenCallsOf a c paid) = tokensDelta c.
Proof. destruct c; cbn; lia. Qed.

Lemma deposit_flow s amount d :
  0 < cumulativeFeeMultiplier s <= FixedPoint.FP_SCALING_FACTOR ->
  rawTotalPositionCollateral s * cumulativeFeeMultiplier s <= MAX_UINT256 ->
  _convertToRawCollateral s amount = Ok d ->
  (rawTotalPositionCollateral s + d) * cumulativeFeeMultiplier s <= MAX_UINT256 ->
  adjustedCollateral s (rawTotalPositionCollateral s + d)
  - adjustedCollateral s (rawTotalPositionCollateral s) <= amount /\
  (cumulativeFeeMultiplier s = FixedPoint.FP_SCALING_FACTOR ->
   adjustedCollateral s (rawTotalPositionCollateral s + d)
   - adjustedCollateral s (rawTotalPositionCollateral s) = amount).
Proof.
  intros Hm HT Hd HTd. pose proof FP_SCALING_FACTOR_pos as HS.
  apply convertToRawCollateral_Ok in Hd as (_ & _ & ->).
  destruct (adjustedCollateral_value s _ HT) as [_ ->].
  destruct (adjustedCollateral_value s _ HTd) as [_ ->].
  set (T := rawTotalPositionCollateral s) in *.
  set (m := cumulativeFeeMultiplier s) in *.
  set (S := FixedPoint.FP_SCALING_FACTOR) in *.
  split.
  - assert (Hfloor : m * (amount * S / m) <= amount * S) by (apply Z.mul_div_le; lia).
    assert (Hle : (T + amount * S / m) * m <= T * m + amount * S) by lia.
    apply (Z.div_le_mono _ _ S) in Hle; [|lia].
    rewrite Z.div_add in Hle by lia. lia.
  - intros ->. rewrite !Z.div_mul by lia. lia.
Qed.

Lemma dispatch_collateral_flow a c s r s' :
  ledger_inv s ->
  dispatch a c s = Ok (r, s') ->
  adjustedCollateral s' (rawTotalPositionCollateral s')
  - adjustedCollateral s (rawTotalPositionCollateral s)
  <= netCollateral (tokenCalls s') - netCollateral (tokenCalls s) /\
  (cumulativeFeeMultiplier s = FixedPoint.FP_SCALING_FACTOR ->
   adjustedCollateral s' (rawTotalPositionCollateral s')
   - adjustedCollateral s (rawTotalPositionCollateral s)
   = netCollateral (tokenCalls s') - netCollateral (tokenCalls s)).
Proof.
  intros Hinv H.
  destruct (dispatch_ledger a c s r s' H) as (_ & _ & _ & Hm & _ & _ & Hcalls).
  pose proof (dispatch_rawTotal a c s r s' H) as HT.
  rewrite Hcalls, netCollateral_app, (adjustedCollateral_ext s' s _ Hm).
  assert (Hdeposit : forall amount d,
            _convertToRawCollateral s amount = Ok d ->
            (rawTotalPositionCollateral s + d) * cumulativeFeeMultiplier s <= MAX_UINT256 ->
            adjustedCollateral s (rawTotalPositionCollateral s + d)
            - adjustedCollateral s (rawTotalPositionCollateral s) <= amount /\
            (cumulativeFeeMultiplier s = FixedPoint.FP_SCALING_FACTOR ->
             adjustedCollateral s (rawTotalPositionCollateral s + d)
             - adjustedCollateral s (rawTotalPositionCollateral s) = amount)).
  { intros amount d Hd Hmax. apply deposit_flow; try assumption.
    - apply convertToRawCollateral_Ok in Hd as (Hnz & _).
      pose proof (inv_multiplier s Hinv). lia.
    - apply (inv_total s Hinv). }
  destruct c; cbn [tokenCallsOf netCollateral fold_right collateralMoved];
    try (rewrite HT; split; [lia | intros _; lia]);
    try (split; [lia | intros _; lia]).
  - destruct HT as (d & Hd & Hmax & ->).
    destruct (Hdeposit _ _ Hd Hmax) as [Hle Heq]. split; [lia | intros Hu; rewrite Heq by exact Hu; lia].
  - destruct HT as (d & Hd & Hmax & ->).
    destruct (Hdeposit _ _ Hd Hmax) as [Hle Heq]. split; [lia | intros Hu; rewrite Heq by exact Hu; lia].
  - destruct HT as (d & Hd & Hmax & ->).
    destruct (Hdeposit _ _ Hd Hmax) as [Hle Heq]. split; [lia | intros Hu; rewrite Heq by exact Hu; lia].
Qed.

Lemma step_timePasses t s s' :
  step (timePasses t) s = Ok s' -> s' = set_currentTime t s.
Proof.
  simpl. destruct (advanceTime t s) as [[r s1]|] eqn:E; [|discriminate].
  intros [= <-]. unfold advanceTime in E. inv_M. reflexivity.
Qed.

Lemma step_feesCharged m s s' :
  step (feesCharged m) s = Ok s' ->
  0 <= m <= cumulativeFeeMultiplier s /\ s' = set_cumulativeFeeMultiplier m s.
Proof.
  simpl. destruct (payFees m s) as [[r s1]|] eqn:E; [|discriminate].
  intros [= <-]. unfold payFees in E. inv_M.
  match goal with H : (_ && _)%bool = true |- _ =>
    apply andb_true_iff in H as [H0 H1]; apply Z.leb_le in H0, H1 end.
  auto.
Qed.

Lemma step_tokensChange o s s' :
  step (tokensChange o) s = Ok s' -> s' = set_tokenOutcome o s.
Proof. simpl. congruence. Qed.

Lemma step_transaction a c s s' :
  step (transaction a c) s = Ok s' -> exists r, dispatch a c s = Ok (r, s').
Proof.
  simpl. destruct (calldata_in_range c); [|discriminate].
  destruct (dispatch a c s) as [[r s1]|] eqn:E; [|discriminate].
  intros [= <-]. eauto.
Qed.

(** ** Liveness of requests *)

Ltac stamps :=
  unfold position;
  cbn [positions set_positions set_totalTokensOutstanding set_rawTotalPositionCollateral
       log_tokenCall];
  rewrite ?lookup_insert, ?lookup_delete;
  repeat case_decide; subst; cbn; auto.

(** The request timestamps of a position after an operation: unchanged,
    cleared, or set to the current time plus [withdrawalLiveness]. *)
Lemma dispatch_request_timestamps a c s r s' b :
  dispatch a c s = Ok (r, s') ->
  (withdrawalRequestPassTimestamp (position s' b)
     = withdrawalRequestPassTimestamp (position s b) \/
   withdrawalRequestPassTimestamp (position s' b) = 0 \/
   withdrawalRequestPassTimestamp (position s' b) = currentTime s + withdrawalLiveness s) /\
  (transferPositionRequestPassTimestamp (position s' b)
     = transferPositionRequestPassTimestamp (position s b) \/
   transferPositionRequestPassTimestamp (position s' b) = 0 \/
   transferPositionRequestPassTimestamp (position s' b)
     = currentTime s + withdrawalLiveness s).
Proof.
  intros H. destruct c; simpl in H; unfold discard, deposit in H; inv_M.
  - match goal with H : requestTransferPosition _ _ = Ok _ |- _ =>
      apply requestTransferPosition_Ok in H as (_ & _ & _ & ->) end.
    split; stamps.
  - match goal with H : transferPositionPassedRequest _ _ _ = Ok _ |- _ =>
      apply transferPositionPassedRequest_Ok in H as (_ & Hw & _ & _ & _ & _ & ->) end.
    split; stamps.
  - match goal with H : cancelTransferPosition _ _ = Ok _ |- _ =>
      apply cancelTransferPosition_Ok in H as (_ & _ & ->) end.
    split; stamps.
  - match goal with H : depositTo _ _ _ _ = Ok _ |- _ =>
      apply depositTo_Ok in H as (_ & _ & _ & d & _ & _ & ->) end.
    split; stamps.
  - match goal with H : depositTo _ _ _ _ = Ok _ |- _ =>
      apply depositTo_Ok in H as (_ & _ & _ & d & _ & _ & ->) end.
    split; stamps.
  - match goal with H : withdraw _ _ _ = Ok _ |- _ =>
      apply withdraw_Ok in H as (_ & _ & _ & d & _ & _ & _ & _ & _ & _ & ->) end.
    split; stamps.
  - match goal with H : requestWithdrawal _ _ _ = Ok _ |- _ =>
      apply requestWithdrawal_Ok in H as (_ & _ & _ & ->) end.
    split; stamps.
  - match goal with H : withdrawPassedRequest _ _ = Ok _ |- _ =>
      apply withdrawPassedRequest_Ok in H as (_ & _ & _ & d & _ & _ & _ & _ & _ & ->) end.
    split; stamps.
  - match goal with H : cancelWithdrawal _ _ = Ok _ |- _ =>
      apply cancelWithdrawal_Ok in H as (_ & _ & ->) end.
    split; stamps.
  - match goal with H : create _ _ _ _ = Ok _ |- _ =>
      apply create_Ok in H as (_ & _ & _ & _ & fa & d & _ & _ & _ & _ & ->) end.
    split; stamps.
  - match goal with H : redeem _ _ _ = Ok _ |- _ =>
      apply redeem_Ok in H as (_ & _ & _ & _ & [Hfull|Hpart]) end.
    + destruct Hfull as (? & _ & _ & _ & _ & ->). split; stamps.
    + destruct Hpart as (? & ? & _ & d & _ & _ & _ & _ & ->). split; stamps.
Qed.

Lemma step_request_timestamps e s s' b :
  step e s = Ok s' ->
  withdrawalLiveness s' = withdrawalLiveness s /\
  currentTime s <= currentTime s' /\
  (withdrawalRequestPassTimestamp (position s' b)
     = withdrawalRequestPassTimestamp (position s b) \/
   withdrawalRequestPassTimestamp (position s' b) = 0 \/
   withdrawalRequestPassTimestamp (position s' b) = currentTime s + withdrawalLiveness s) /\
  (transferPositionRequestPassTimestamp (position s' b)
     = transferPositionRequestPassTimestamp (position s b) \/
   transferPositionRequestPassTimestamp (position s' b) = 0 \/
   transferPositionRequestPassTimestamp (position s' b)
     = currentTime s + withdrawalLiveness s).
Proof.
  intros H. destruct e as [a c|t|m|o].
  - apply step_transaction in H as [r H].
    destruct (dispatch_ledger a c s r s' H) as (HL & _ & _ & _ & Ht & _).
    destruct (dispatch_request_timestamps a c s r s' b H) as [Hw Htr].
    rewrite HL, Ht. repeat split; [lia|exact Hw|exact Htr].
  - simpl in H. destruct (advanceTime t s) as [[r s1]|] eqn:E; [|discriminate].
    injection H as <-. unfold advanceTime in E. inv_M.
    match goal with H : (_ && _)%bool = true |- _ =>
      apply andb_true_iff in H as [H0 _]; apply Z.leb_le in H0 end.
    cbn. auto.
  - apply step_feesCharged in H as [_ ->]. cbn. repeat split; (lia || auto).
  - apply step_tokensChange in H as ->. cbn. repeat split; (lia || auto).
Qed.

(** A request whose pass time is not before [T] stays so, or is cleared, as
    long as requests made later cannot pass before [T] either. *)
Lemma run_request_timestamps es : forall s s' b T,
  run es s = Ok s' ->
  T <= currentTime s + withdrawalLiveness s ->
  withdrawalLiveness s' = withdrawalLiveness s /\
  T <= currentTime s' + withdrawalLiveness s' /\
  (withdrawalRequestPassTimestamp (position s b) = 0 \/
   T <= withdrawalRequestPassTimestamp (position s b) ->
   withdrawalRequestPassTimestamp (position s' b) = 0 \/
   T <= withdrawalRequestPassTimestamp (position s' b)) /\
  (transferPositionRequestPassTimestamp (position s b) = 0 \/
   T <= transferPositionRequestPassTimestamp (position s b) ->
   transferPositionRequestPassTimestamp (position s' b) = 0 \/
   T <= transferPositionRequestPassTimestamp (position s' b)).
Proof.
  induction es as [|e es IH]; simpl; intros s s' b T H HT.
  - injection H as <-. auto.
  - destruct (step e s) as [s1|] eqn:E; [|discriminate].
    destruct (step_request_timestamps e s s1 b E) as (HL & Ht & Hw & Htr).
    destruct (IH s1 s' b T H ltac:(lia)) as (HL' & HT' & Hw' & Htr').
    split; [congruence|]. split; [exact HT'|].
    split; intros H0; [apply Hw'|apply Htr']; lia.
Qed.

(** In a reachable state the fee-adjusted collateral of every position is
    defined and not negative. *)
Lemma reachable_position_adjusted s a :
  reachable s ->
  exists c, _getFeeAdjustedCollateral s (rawCollateral (position s a)) = Ok c /\ 0 <= c.
Proof.
  intros Hr. pose proof (reachable_inv s Hr) as Hinv.
  destruct (adjustedCollateral_value s _ (ledger_inv_position_adjustable s a Hinv)) as [E _].
  eexists. split; [exact E|].
  destruct Hinv as [Hm Hmin Hpos Hsum Hunit Htot].
  destruct (Hpos a) as (? & _).
  apply Z.div_pos; [|reflexivity]. nia.
Qed.

(** X3.  Liveness of the slow withdrawal.  From a reachable state, once
    [requestWithdrawal] has succeeded, [withdrawPassedRequest] by the same
    sponsor is rejected in every state that a later sequence of events
    (transactions of any account, the clock moving, fees being charged, the
    tokens changing) leads to while the clock is before the request time
    plus [withdrawalLiveness]: with "Invalid withdraw request" if the
    position still has fee-adjusted collateral, and with "Position has no
    collateral" if fees have left it none. *)
Theorem withdrawal_request_not_payable_before_liveness
    (a : address) (collateralAmount : Z) (es : list Event) (s s1 s2 : State) :
  reachable s ->
  step (transaction a (call_requestWithdrawal collateralAmount)) s = Ok s1 ->
  run es s1 = Ok s2 ->
  currentTime s2 < currentTime s + withdrawalLiveness s ->
  exists msg,
    withdrawPassedRequest a s2 = Revert msg /\
    (collateralized s2 a -> msg = "Invalid withdraw request") /\
    (~ collateralized s2 a -> msg = "Position has no collateral").
Proof.
  intros Hr Hreq Hrun Ht.
  assert (Hr2 : reachable s2).
  { eapply run_reachable; [|exact Hrun]. eapply reachable_step; eassumption. }
  apply step_transaction in Hreq as [r Hreq].
  destruct (dispatch_ledger _ _ _ _ _ Hreq) as (HL & _ & _ & _ & Hnow & _).
  simpl in Hreq. apply requestWithdrawal_Ok in Hreq as (_ & _ & _ & Hs1).
  assert (Hts1 : withdrawalRequestPassTimestamp (position s1 a)
                 = currentTime s + withdrawalLiveness s).
  { rewrite Hs1, position_insert_eq. reflexivity. }
  destruct (run_request_timestamps es s1 s2 a (currentTime s + withdrawalLiveness s) Hrun
              ltac:(lia)) as (_ & _ & Hw & _).
  specialize (Hw ltac:(lia)).
  destruct (reachable_position_adjusted s2 a Hr2) as (c & E & Hc).
  destruct (Z.eq_dec c 0) as [->|Hne].
  - exists "Position has no collateral". split; [|split].
    + unfold withdrawPassedRequest.
      rewrite (bind_run _ _ s2 tt s2) by reflexivity.
      apply bind_revert. apply uncollateralized_guard. exact E.
    + intros (c' & E' & Hpos). rewrite E in E'. injection E' as <-. lia.
    + reflexivity.
  - assert (Hcol : collateralized s2 a) by (exists c; split; [exact E|lia]).
    exists "Invalid withdraw request". split; [|split].
    + apply withdrawPassedRequest_too_early; [exact Hcol|].
      destruct Hw as [Hw|Hw]; [left; exact Hw|right; lia].
    + reflexivity.
    + intros Hn. contradiction.
Qed.

Lemma withdrawal_request_not_payable_before_liveness_witness :
  withdrawPassedRequest alice
    (final [transaction alice (call_requestWithdrawal (units 20)); timePasses 2999]
           lifecycle_state)
    = Revert "Invalid withdraw request" /\
  withdrawPassedRequest alice
    (final [transaction alice (call_create 1 (units 100));
            transaction alice (call_requestWithdrawal 1);
            feesCharged (9 * 10 ^ 17)] genesis)
    = Revert "Position has no collateral".
Proof.
  split.
  - assert (Hr : reachable lifecycle_state).
    { eapply final_reachable; [apply genesis_reachable | vm_compute; reflexivity]. }
    set (s1 := after (transaction alice (call_requestWithdrawal (units 20))) lifecycle_state).
    set (s2 := final [timePasses 2999] s1).
    assert (Hreq : step (transaction alice (call_requestWithdrawal (units 20))) lifecycle_state
                   = Ok s1) by (vm_compute; reflexivity).
    assert (Hrun : run [timePasses 2999] s1 = Ok s2) by (vm_compute; reflexivity).
    assert (Ht : currentTime s2 < currentTime lifecycle_state + withdrawalLiveness lifecycle_state)
      by (vm_compute; reflexivity).
    destruct (withdrawal_request_not_payable_before_liveness
                alice (units 20) [timePasses 2999] lifecycle_state s1 s2 Hr Hreq Hrun Ht)
      as (msg & Hrev & Hcol & _).
    change (withdrawPassedRequest alice s2 = Revert "Invalid withdraw request").
    rewrite Hrev. f_equal. apply Hcol.
    eexists. split; [vm_compute; reflexivity | reflexivity].
  - set (s := final [transaction alice (call_create 1 (units 100))] genesis).
    assert (Hr : reachable s).
    { eapply final_reachable; [apply genesis_reachable | vm_compute; reflexivity]. }
    set (s1 := after (transaction alice (call_requestWithdrawal 1)) s).
    set (s2 := final [feesCharged (9 * 10 ^ 17)] s1).
    assert (Hreq : step (transaction alice (call_requestWithdrawal 1)) s = Ok s1)
      by (vm_compute; reflexivity).
    assert (Hrun : run [feesCharged (9 * 10 ^ 17)] s1 = Ok s2) by (vm_compute; reflexivity).
    assert (Ht : currentTime s2 < currentTime s + withdrawalLiveness s)
      by (vm_compute; reflexivity).
    destruct (withdrawal_request_not_payable_before_liveness
                alice 1 [feesCharged (9 * 10 ^ 17)] s s1 s2 Hr Hreq Hrun Ht)
      as (msg & Hrev & _ & Hnone).
    change (withdrawPassedRequest alice s2 = Revert "Position has no collateral").
    rewrite Hrev. f_equal. apply Hnone.
    intros (c & Hc & Hpos). vm_compute in Hc. injection Hc as <-. discriminate Hpos.
Defined.

(** X4.  Liveness of a position transfer.  From a reachable state, once
    [requestTransferPosition] has succeeded, [transferPositionPassedRequest]
    by the same sponsor, to any recipient, is rejected in every state that
    a later sequence of events leads to while the clock is before the
    request time plus [withdrawalLiveness].  The rejection is the first
    failing check of the source: "Position has no collateral" if the
    sponsor has no fee-adjusted collateral left, else "Pending withdrawal"
    if the sponsor has a withdrawal request pending, else "Sponsor already
    has position" if the recipient holds fee-adjusted collateral, and
    otherwise "Invalid transfer request". *)
Theorem transfer_request_not_executable_before_liveness
    (a new : address) (es : list Event) (s s1 s2 : State) :
  reachable s ->
  step (transaction a call_requestTransferPosition) s = Ok s1 ->
  run es s1 = Ok s2 ->
  currentTime s2 < currentTime s + withdrawalLiveness s ->
  exists msg,
    transferPositionPassedRequest a new s2 = Revert msg /\
    (~ collateralized s2 a -> msg = "Position has no collateral") /\
    (collateralized s2 a ->
     (withdrawalRequestPassTimestamp (position s2 a) <> 0 -> msg = "Pending withdrawal") /\
     (withdrawalRequestPassTimestamp (position s2 a) = 0 ->
      (collateralized s2 new -> msg = "Sponsor already has position") /\
      (~ collateralized s2 new -> msg = "Invalid transfer request"))).
Proof.
  intros Hr Hreq Hrun Ht.
  assert (Hr2 : reachable s2).
  { eapply run_reachable; [|exact Hrun]. eapply reachable_step; eassumption. }
  apply step_transaction in Hreq as [r Hreq].
  simpl in Hreq. apply requestTransferPosition_Ok in Hreq as (_ & _ & _ & Hs1).
  assert (Hts1 : transferPositionRequestPassTimestamp (position s1 a)
                 = currentTime s + withdrawalLiveness s).
  { rewrite Hs1, position_insert_eq. reflexivity. }
  assert (Hnow : currentTime s1 = currentTime s) by (rewrite Hs1; reflexivity).
  assert (HL : withdrawalLiveness s1 = withdrawalLiveness s) by (rewrite Hs1; reflexivity).
  destruct (run_request_timestamps es s1 s2 a (currentTime s + withdrawalLiveness s) Hrun
              ltac:(lia)) as (_ & _ & _ & Htr).
  specialize (Htr ltac:(lia)).
  destruct (reachable_position_adjusted s2 a Hr2) as (c & E & Hc).
  destruct (Z.eq_dec c 0) as [->|Hne].
  { exists "Position has no collateral". split; [|split].
    - unfold transferPositionPassedRequest.
      apply bind_revert. apply uncollateralized_guard. exact E.
    - reflexivity.
    - intros (c' & E' & Hpos). rewrite E in E'. injection E' as <-. lia. }
  assert (Hpos : 0 < c) by lia.
  assert (Hcol : collateralized s2 a) by (exists c; split; [exact E|lia]).
  destruct (Z.eq_dec (withdrawalRequestPassTimestamp (position s2 a)) 0) as [Hw|Hw].
  2: { exists "Pending withdrawal". split; [|split].
       - unfold transferPositionPassedRequest. apply bind_revert.
         destruct (noPendingWithdrawal_pending a s2 Hw) as (msg & -> & Hmsg).
         f_equal. apply Hmsg. exact Hcol.
       - intros Hn. contradiction.
       - intros _. split; [reflexivity|]. intros Hz. contradiction. }
  destruct (reachable_position_adjusted s2 new Hr2) as (cn & En & Hcn).
  destruct (Z.eq_dec cn 0) as [->|Hnn].
  - exists "Invalid transfer request". split; [|split].
    + apply transferPositionPassedRequest_too_early; try assumption.
      destruct Htr as [Htr|Htr]; [left; exact Htr|right; lia].
    + intros Hn. contradiction.
    + intros _. split; [intros Hnz; contradiction|]. intros _. split; [|reflexivity].
      intros (c' & E' & Hpos'). rewrite En in E'. injection E' as <-. lia.
  - exists "Sponsor already has position". split; [|split].
    + unfold transferPositionPassedRequest.
      rewrite (bind_run _ _ _ _ _ (noPendingWithdrawal_run a s2 c E Hpos Hw)).
      rewrite (bind_run _ _ s2 s2 s2) by reflexivity.
      rewrite (bind_run _ _ s2 cn s2) by (unfold lift; rewrite En; reflexivity).
      rewrite (bind_run _ _ s2 0 s2) by (unfold lift; rewrite fromUnscaledUint_0; reflexivity).
      apply bind_revert. unfold require, FixedPoint.isEqual.
      apply Z.eqb_neq in Hnn. rewrite Hnn. reflexivity.
    + intros Hn. contradiction.
    + intros _. split; [intros Hnz; contradiction|]. intros _. split; [reflexivity|].
      intros Hn. exfalso. apply Hn. exists cn. split; [exact En|lia].
Qed.

Lemma transfer_request_not_executable_before_liveness_witness :
  transferPositionPassedRequest alice bob
    (final [transaction alice call_requestTransferPosition; timePasses 2999] lifecycle_state)
    = Revert "Invalid transfer request" /\
  transferPositionPassedRequest alice bob
    (final [transaction alice (call_create 1 (units 100));
            transaction alice call_requestTransferPosition;
            feesCharged (9 * 10 ^ 17)] genesis)
    = Revert "Position has no collateral".
Proof.
  split.
  - assert (Hr : reachable lifecycle_state).
    { eapply final_reachable; [apply genesis_reachable | vm_compute; reflexivity]. }
    set (s1 := after (transaction alice call_requestTransferPosition) lifecycle_state).
    set (s2 := final [timePasses 2999] s1).
    assert (Hreq : step (transaction alice call_requestTransferPosition) lifecycle_state
                   = Ok s1) by (vm_compute; reflexivity).
    assert (Hrun : run [timePasses 2999] s1 = Ok s2) by (vm_compute; reflexivity).
    assert (Ht : currentTime s2 < currentTime lifecycle_state + withdrawalLiveness lifecycle_state)
      by (vm_compute; reflexivity).
    destruct (transfer_request_not_executable_before_liveness
                alice bob [timePasses 2999] lifecycle_state s1 s2 Hr Hreq Hrun Ht)
      as (msg & Hrev & _ & Hcol).
    change (transferPositionPassedRequest alice bob s2 = Revert "Invalid transfer request").
    rewrite Hrev. f_equal.
    assert (Hc : collateralized s2 alice)
      by (eexists; split; [vm_compute; reflexivity | reflexivity]).
    destruct (Hcol Hc) as [_ Hz].
    apply Hz; [vm_compute; reflexivity|].
    intros (c & Hb & Hpos). vm_compute in Hb. injection Hb as <-. discriminate Hpos.
  - set (s := final [transaction alice (call_create 1 (units 100))] genesis).
    assert (Hr : reachable s).
    { eapply final_reachable; [apply genesis_reachable | vm_compute; reflexivity]. }
    set (s1 := after (transaction alice call_requestTransferPosition) s).
    set (s2 := final [feesCharged (9 * 10 ^ 17)] s1).
    assert (Hreq : step (transaction alice call_requestTransferPosition) s = Ok s1)
      by (vm_compute; reflexivity).
    assert (Hrun : run [feesCharged (9 * 10 ^ 17)] s1 = Ok s2) by (vm_compute; reflexivity).
    assert (Ht : currentTime s2 < currentTime s + withdrawalLiveness s)
      by (vm_compute; reflexivity).
    destruct (transfer_request_not_executable_before_liveness
                alice bob [feesCharged (9 * 10 ^ 17)] s s1 s2 Hr Hreq Hrun Ht)
      as (msg & Hrev & Hnone & _).
    change (transferPositionPassedRequest alice bob s2 = Revert "Position has no collateral").
    rewrite Hrev. f_equal. apply Hnone.
    intros (c & Hc & Hpos). vm_compute in Hc. injection Hc as <-. discriminate Hpos.
Defined.

(** X9.  The token calls of an operation.  A successful entry point
    appends exactly its own token calls to the log, in the order of the
    source: a deposit pulls the deposited amount from the caller; [create]
    pulls the collateral from the caller and mints the tokens to the caller;
    [withdraw], [withdrawPassedRequest] and [redeem] send collateral to the
    caller only, and the amount sent is the decrease of the fee-adjusted
    aggregate collateral; [redeem] then pulls and burns the redeemed tokens;
    the request, cancel and transfer operations call no token. *)
Theorem entry_point_token_calls (a : address) (c : Call) (s s' : State) (r : unit) :
  dispatch a c s = Ok (r, s') ->
  tokenCalls s' =
    (tokenCalls s ++
     tokenCallsOf a c (adjustedCollateral s (rawTotalPositionCollateral s)
                       - adjustedCollateral s (rawTotalPositionCollateral s')))%list.
Proof. intros H. apply (dispatch_ledger a c s r s' H). Qed.

Lemma entry_point_token_calls_witness :
  tokenCalls lifecycle_state =
    (tokenCalls (final (firstn 4 lifecycle_events) genesis) ++
     tokenCallsOf alice call_withdrawPassedRequest
       (adjustedCollateral (final (firstn 4 lifecycle_events) genesis)
          (rawTotalPositionCollateral (final (firstn 4 lifecycle_events) genesis))
        - adjustedCollateral (final (firstn 4 lifecycle_events) genesis)
            (rawTotalPositionCollateral lifecycle_state)))%list.
Proof.
  apply (entry_point_token_calls alice call_withdrawPassedRequest _ lifecycle_state tt).
  vm_compute. reflexivity.
Defined.

(** X10.  No entry point changes the configuration: a successful
    operation leaves [withdrawalLiveness], [minSponsorTokens] and the
    expiration timestamp as they were, and it only reads the clock. *)
Theorem entry_points_keep_configuration (a : address) (c : Call) (s s' : State) (r : unit) :
  dispatch a c s = Ok (r, s') ->
  withdrawalLiveness s' = withdrawalLiveness s /\
  minSponsorTokens s' = minSponsorTokens s /\
  expirationTimestamp s' = expirationTimestamp s /\
  currentTime s' = currentTime s.
Proof.
  intros H.
  destruct (dispatch_ledger a c s r s' H) as (H1 & H2 & H3 & _ & H5 & _).
  auto.
Qed.

Lemma entry_points_keep_configuration_witness :
  withdrawalLiveness gcr_state_after = withdrawalLiveness gcr_state /\
  minSponsorTokens gcr_state_after = minSponsorTokens gcr_state /\
  expirationTimestamp gcr_state_after = expirationTimestamp gcr_state /\
  currentTime gcr_state_after = currentTime gcr_state.
Proof.
  apply (entry_points_keep_configuration bob (call_create (units 80) (units 100))
           gcr_state gcr_state_after tt).
  vm_compute. reflexivity.
Defined.

(** X11.  In every reachable state [totalTokensOutstanding] is the net
    issuance recorded in the token calls: what [create] minted minus what
    [redeem] burned. *)
Theorem totalTokensOutstanding_is_net_issuance (s : State) :
  reachable s -> totalTokensOutstanding s = netIssued (tokenCalls s).
Proof.
  induction 1 as [liveness minTokens expiry startTime tokens Hl Hm He Ht | s e s' Hr IH Hstep].
  - reflexivity.
  - destruct e as [a c|t|m|o].
    + apply step_transaction in Hstep as [r H].
      destruct (dispatch_ledger a c s r s' H) as (_ & _ & _ & _ & _ & Htot & Hcalls).
      rewrite Htot, Hcalls, netIssued_app, netIssued_tokenCallsOf, IH. reflexivity.
    + apply step_timePasses in Hstep as ->. exact IH.
    + apply step_feesCharged in Hstep as [_ ->]. exact IH.
    + apply step_tokensChange in Hstep as ->. exact IH.
Qed.

Lemma totalTokensOutstanding_is_net_issuance_witness :
  totalTokensOutstanding emptied_state = netIssued (tokenCalls emptied_state).
Proof.
  apply (totalTokensOutstanding_is_net_issuance emptied_state).
  eapply final_reachable; [apply genesis_reachable | vm_compute; reflexivity].
Defined.

(** X12.  Within one operation from a reachable state, the fee-adjusted
    aggregate collateral grows by no more than the collateral the operation
    pulled in and shrinks by exactly what it paid out: its change is at most
    the net collateral moved by the operation's token calls, and equal to it
    while the fee multiplier is 1.0. *)
Theorem aggregate_collateral_follows_token_calls
    (a : address) (c : Call) (s s' : State) (r : unit) :
  reachable s ->
  dispatch a c s = Ok (r, s') ->
  adjustedCollateral s' (rawTotalPositionCollateral s')
  - adjustedCollateral s (rawTotalPositionCollateral s)
  <= netCollateral (tokenCalls s') - netCollateral (tokenCalls s) /\
  (cumulativeFeeMultiplier s = FixedPoint.FP_SCALING_FACTOR ->
   adjustedCollateral s' (rawTotalPositionCollateral s')
   - adjustedCollateral s (rawTotalPositionCollateral s)
   = netCollateral (tokenCalls s') - netCollateral (tokenCalls s)).
Proof.
  intros Hr H. apply (dispatch_collateral_flow a c s r s'); [|exact H].
  apply reachable_inv. exact Hr.
Qed.

Lemma aggregate_collateral_follows_token_calls_witness :
  adjustedCollateral (after (transaction alice (call_deposit (units 7))) taxed_state)
    (rawTotalPositionCollateral (after (transaction alice (call_deposit (units 7))) taxed_state))
  - adjustedCollateral taxed_state (rawTotalPositionCollateral taxed_state)
  <= netCollateral (tokenCalls (after (transaction alice (call_deposit (units 7))) taxed_state))
     - netCollateral (tokenCalls taxed_state).
Proof.
  apply (aggregate_collateral_follows_token_calls alice (call_deposit (units 7))
           taxed_state _ tt).
  - eapply final_reachable; [apply genesis_reachable | vm_compute; reflexivity].
  - vm_compute. reflexivity.
Defined.

(** X13.  While no fee has been charged (the multiplier is still 1.0),
    the aggregate raw collateral of a reachable state is exactly the net
    collateral that the token calls moved into the contract. *)
Theorem unit_multiplier_collateral_is_net_transfers (s : State) :
  reachable s ->
  cumulativeFeeMultiplier s = FixedPoint.FP_SCALING_FACTOR ->
  rawTotalPositionCollateral s = netCollateral (tokenCalls s).
Proof.
  induction 1 as [liveness minTokens expiry startTime tokens Hl Hm He Ht | s e s' Hr IH Hstep];
    intros Hu.
  - reflexivity.
  - pose proof (reachable_inv s Hr) as Hinv.
    pose proof FP_SCALING_FACTOR_pos as HS.
    assert (Hadj : forall st, cumulativeFeeMultiplier st = FixedPoint.FP_SCALING_FACTOR ->
                   ledger_inv st ->
                   adjustedCollateral st (rawTotalPositionCollateral st)
                   = rawTotalPositionCollateral st).
    { intros st Hst Hi.
      destruct (adjustedCollateral_value st _ (inv_total st Hi)) as [_ ->].
      rewrite Hst. apply Z.div_mul. lia. }
    destruct e as [a c|t|m|o].
    + pose proof (reachable_step s _ s' Hr Hstep) as Hr'.
      apply step_transaction in Hstep as [r H].
      destruct (dispatch_ledger a c s r s' H) as (_ & _ & _ & Hm & _).
      rewrite Hm in Hu.
      destruct (dispatch_collateral_flow a c s r s' Hinv H) as [_ Heq].
      specialize (Heq Hu). specialize (IH Hu).
      rewrite (Hadj s Hu Hinv) in Heq.
      rewrite (Hadj s') in Heq; [lia| congruence | apply reachable_inv; exact Hr'].
    + apply step_timePasses in Hstep as ->. apply IH. exact Hu.
    + apply step_feesCharged in Hstep as [Hm ->].
      cbn in Hu |- *. apply IH.
      pose proof (inv_multiplier s Hinv). lia.
    + apply step_tokensChange in Hstep as ->. apply IH. exact Hu.
Qed.

Lemma unit_multiplier_collateral_is_net_transfers_witness :
  rawTotalPositionCollateral gcr_state_after = netCollateral (tokenCalls gcr_state_after).
Proof.
  apply (unit_multiplier_collateral_is_net_transfers gcr_state_after).
  - eapply final_reachable; [|vm_compute; reflexivity].
    eapply final_reachable; [apply genesis_reachable | vm_compute; reflexivity].
  - vm_compute. reflexivity.
Defined.

(** X14.  In every reachable state the tokens recorded in the positions
    never exceed [totalTokensOutstanding]: the sum of [tokensOutstanding]
    over the stored positions is at most the global counter. *)
Theorem position_tokens_within_total (s : State) :
  reachable s ->
  sum_positions tokensOutstanding (positions s) <= totalTokensOutstanding s.
Proof.
  induction 1 as [liveness minTokens expiry startTime tokens Hl Hm He Ht | s e s' Hr IH Hstep].
  - cbn. rewrite sum_positions_empty. lia.
  - pose proof (reachable_inv s Hr) as Hinv.
    destruct e as [a c|t|m|o].
    + apply step_transaction in Hstep as [r H].
      destruct (dispatch_ledger a c s r s' H) as (_ & _ & _ & _ & _ & Htot & _).
      pose proof (dispatch_positions a c s r s' H) as Hpos.
      rewrite Htot.
      assert (Hins : forall b p, positions s' = <[b := p]> (positions s) ->
                sum_positions tokensOutstanding (positions s')
                = sum_positions tokensOutstanding (positions s)
                  - tokensOutstanding (position s b) + tokensOutstanding p).
      { intros b p ->. apply sum_positions_insert. reflexivity. }
      destruct c; cbn [tokensDelta];
        try (destruct Hpos as (_ & p & Hp & Ht); rewrite (Hins _ _ Hp); lia).
      * destruct Hpos as (_ & Hne & _ & ->).
        rewrite sum_positions_insert by reflexivity.
        rewrite lookup_delete_ne by exact Hne.
        rewrite sum_positions_delete by reflexivity.
        cbn [tokensOutstanding with_transferPositionRequestPassTimestamp].
        destruct (inv_positions s Hinv newSponsorAddress) as (_ & Hnew & _).
        unfold position in *.
        destruct (positions s !! a), (positions s !! newSponsorAddress);
          cbn in *; lia.
      * destruct Hpos as (p & Hp & Ht). rewrite (Hins _ _ Hp). lia.
      * destruct Hpos as (_ & [(-> & ->) | (_ & _ & p & Hp & Ht)]).
        -- rewrite sum_positions_delete by reflexivity. unfold position. lia.
        -- rewrite (Hins _ _ Hp). lia.
    + apply step_timePasses in Hstep as ->. exact IH.
    + apply step_feesCharged in Hstep as [_ ->]. exact IH.
    + apply step_tokensChange in Hstep as ->. exact IH.
Qed.

Lemma position_tokens_within_total_witness :
  sum_positions tokensOutstanding (positions overwrite_state_after)
  <= totalTokensOutstanding overwrite_state_after.
Proof.
  apply (position_tokens_within_total overwrite_state_after).
  eapply final_reachable; [|vm_compute; reflexivity].
  eapply final_reachable; [apply genesis_no_minimum_reachable | vm_compute; reflexivity].
Defined.

(** ** Isolation between sponsors *)

(** X15.  A position that holds collateral is changed by nobody but its
    sponsor, except through a deposit into it: after a successful operation
    by another account that is not [depositTo] on that sponsor, the
    sponsor's position record is exactly as before. *)
Theorem position_changed_only_by_sponsor_or_deposit
    (x b : address) (c : Call) (s s' : State) (r : unit) :
  dispatch x c s = Ok (r, s') ->
  b <> x ->
  collateralized s b ->
  (forall amount, c <> call_depositTo b amount) ->
  position s' b = position s b.
Proof.
  intros H Hne Hcol Hdep.
  pose proof (dispatch_positions x c s r s' H) as Hpos.
  assert (Hins : forall a p, a <> b -> positions s' = <[a := p]> (positions s) ->
                 position s' b = position s b).
  { intros a p Hab Hp. rewrite (position_of_lookup s' _ b Hp).
    rewrite lookup_insert_ne by exact Hab. reflexivity. }
  destruct c; try (destruct Hpos as (_ & p & Hp & _); apply (Hins x p); [congruence|exact Hp]).
  - destruct Hpos as (_ & _ & Hzero & Hp).
    rewrite (position_of_lookup s' _ b Hp).
    assert (newSponsorAddress <> b).
    { intros ->. destruct Hcol as (v & Hv & Hlt). rewrite Hzero in Hv.
      injection Hv as <-. lia. }
    rewrite lookup_insert_ne by assumption.
    rewrite lookup_delete_ne by congruence. reflexivity.
  - destruct Hpos as (_ & p & Hp & _). apply (Hins sponsor p); [|exact Hp].
    intros ->. apply (Hdep collateralAmount). reflexivity.
  - destruct Hpos as (p & Hp & _). apply (Hins x p); [congruence|exact Hp].
  - destruct Hpos as (_ & [(_ & Hp) | (_ & _ & p & Hp & _)]).
    + rewrite (position_of_lookup s' _ b Hp).
      rewrite lookup_delete_ne by congruence. reflexivity.
    + apply (Hins x p); [congruence|exact Hp].
Qed.

Lemma position_changed_only_by_sponsor_or_deposit_witness :
  position gcr_state_after alice = position gcr_state alice.
Proof.
  apply (position_changed_only_by_sponsor_or_deposit
           bob alice (call_create (units 80) (units 100)) gcr_state gcr_state_after tt).
  - vm_compute. reflexivity.
  - discriminate.
  - eexists. split; [vm_compute; reflexivity | reflexivity].
  - discriminate.
Defined.

(** ** The internal position reduction *)

Lemma reduceSponsorPosition_Ok a tokensToRemove collateralToRemove amountToRemove s r s' :
  _reduceSponsorPosition a tokensToRemove collateralToRemove amountToRemove s = Ok (r, s') ->
  collateralized s a /\
  ((tokensToRemove = tokensOutstanding (position s a) /\
    adjustedCollateral s (rawCollateral (position s a)) = collateralToRemove /\
    rawCollateral (position s a) <= rawTotalPositionCollateral s /\
    (rawTotalPositionCollateral s - rawCollateral (position s a)) * cumulativeFeeMultiplier s
      <= MAX_UINT256 /\
    tokensOutstanding (position s a) <= totalTokensOutstanding s /\
    s' = set_positions (delete a)
           (set_totalTokensOutstanding
              (totalTokensOutstanding s - tokensOutstanding (position s a))
              (set_rawTotalPositionCollateral
                 (rawTotalPositionCollateral s - rawCollateral (position s a)) s)))
   \/
   (~ (tokensToRemove = tokensOutstanding (position s a) /\
       adjustedCollateral s (rawCollateral (position s a)) = collateralToRemove) /\
    exists d,
      _convertToRawCollateral s collateralToRemove = Ok d /\
      d <= rawCollateral (position s a) /\ d <= rawTotalPositionCollateral s /\
      (rawTotalPositionCollateral s - d) * cumulativeFeeMultiplier s <= MAX_UINT256 /\
      tokensToRemove <= tokensOutstanding (position s a) /\
      minSponsorTokens s <= tokensOutstanding (position s a) - tokensToRemove /\
      amountToRemove <= withdrawalRequestAmount (position s a) /\
      tokensToRemove <= totalTokensOutstanding s /\
      s' = mkState
             (<[a := mkPositionData
                       (tokensOutstanding (position s a) - tokensToRemove)
                       (withdrawalRequestPassTimestamp (position s a))
                       (withdrawalRequestAmount (position s a) - amountToRemove)
                       (rawCollateral (position s a) - d)
                       (transferPositionRequestPassTimestamp (position s a))]>
                (positions s))
             (totalTokensOutstanding s - tokensToRemove)
             (rawTotalPositionCollateral s - d)
             (withdrawalLiveness s) (minSponsorTokens s) (expirationTimestamp s)
             (cumulativeFeeMultiplier s) (currentTime s) (tokenCalls s) (tokenOutcome s))).
Proof.
  unfold _reduceSponsorPosition. intros H.
  apply bind_Ok in H as (p & s1 & Hget & H).
  apply getPositionData_Ok in Hget as (Hp & Hs1 & Hcol). subst p s1.
  split; [exact Hcol|].
  apply bind_Ok in H as (s0 & s2 & Hs & H). apply get_Ok in Hs.
  injection Hs as Hs0 Hs2. subst s0 s2.
  apply bind_Ok in H as (whole & s3 & Hwhole & H).
  destruct Hcol as (c & Hc & Hpos).
  assert (Hw : s3 = s /\
               (whole = true <->
                tokensToRemove = tokensOutstanding (position s a) /\
                adjustedCollateral s (rawCollateral (position s a)) = collateralToRemove)).
  { unfold and_then, FixedPoint.isEqual in Hwhole. unfold adjustedCollateral. rewrite Hc.
    destruct (Z.eqb_spec tokensToRemove (tokensOutstanding (position s a))); inv_M.
    - split; [reflexivity|].
      match goal with H : _getFeeAdjustedCollateral _ _ = Ok _ |- _ =>
        rewrite Hc in H; injection H as <- end.
      destruct (Z.eqb_spec c collateralToRemove); split; intros; try tauto; try discriminate.
    - split; [reflexivity|]. split; [discriminate|]. intros [? _]. contradiction. }
  destruct Hw as [-> Hw].
  destruct whole.
  - left. destruct (proj1 Hw eq_refl) as [Ht Hcr]. inv_M.
    match goal with H : _deleteSponsorPosition _ _ = Ok _ |- _ =>
      apply deleteSponsorPosition_Ok in H as (_ & ? & ? & ? & _ & ->) end.
    repeat split; assumption.
  - right. split; [intros Hboth; apply Hw in Hboth; discriminate|]. inv_M.
    match goal with H : _decrementCollateralBalances _ _ _ = Ok _ |- _ =>
      apply decrementCollateralBalances_Ok in H as (d & Hd & ? & ? & ? & _ & ->) end.
    inv_helpers.
    repeat match goal with
    | H : FixedPoint.sub _ _ = Ok _ |- _ => apply FixedPoint_sub_Ok in H as [? ->]
    | H : FixedPoint.isGreaterThanOrEqual _ _ = true |- _ =>
        unfold FixedPoint.isGreaterThanOrEqual in H; apply Z.leb_le in H
    end.
    repeat match goal with
    | H : _ <= _ |- _ => revert H
    end.
    norm_state. intros.
    exists d. repeat split; try assumption.
    state_eq.
Qed.

(** X16.  [_reduceSponsorPosition], the internal reduction of a position
    by given token, collateral and withdrawal amounts, keeps the ledger
    sound: on success the ledger invariant still holds, no token call was
    made, [totalTokensOutstanding] dropped by exactly the tokens removed,
    every other sponsor's position is as before, and the reduced position
    was either deleted or keeps at least [minSponsorTokens] tokens with its
    pending withdrawal amount lowered by the given amount. *)
Theorem reduceSponsorPosition_keeps_ledger_sound
    (a : address) (tokensToRemove collateralToRemove amountToRemove : Z)
    (s s' : State) (r : unit) :
  ledger_inv s ->
  _reduceSponsorPosition a tokensToRemove collateralToRemove amountToRemove s = Ok (r, s') ->
  ledger_inv s' /\
  tokenCalls s' = tokenCalls s /\
  totalTokensOutstanding s' = totalTokensOutstanding s - tokensToRemove /\
  (forall b, b <> a -> position s' b = position s b) /\
  (positions s' !! a = None \/
   (tokensOutstanding (position s' a) = tokensOutstanding (position s a) - tokensToRemove /\
    minSponsorTokens s' <= tokensOutstanding (position s' a) /\
    withdrawalRequestAmount (position s' a)
    = withdrawalRequestAmount (position s a) - amountToRemove)).
Proof.
  intros Hinv H.
  apply reduceSponsorPosition_Ok in H as (Hcol & [Hwhole | Hpart]).
  - destruct Hwhole as (-> & _ & Hle & Hmax & _ & ->).
    split; [|repeat split].
    + eapply ledger_inv_delete; [exact Hinv|reflexivity| | | |]; simpl; try reflexivity; lia.
    + intros b Hb. rewrite position_delete.
      destruct (decide (a = b)); [congruence|reflexivity].
    + left. cbn. apply lookup_delete_eq.
  - destruct Hpart as (_ & d & _ & Hd & _ & Hmax & Ht & Hmin & _ & _ & ->).
    pose proof (inv_minSponsorTokens s Hinv).
    destruct (inv_positions s Hinv a) as (Hraw & _ & _).
    split; [|repeat split].
    + eapply ledger_inv_update; [exact Hinv|reflexivity| | | | |]; simpl; try reflexivity; try lia.
      unfold position_ok; simpl. repeat split; lia.
    + intros b Hb. unfold position. cbn [positions].
      rewrite lookup_insert_ne by congruence. reflexivity.
    + right.
      match goal with |- context [position ?st a] =>
        lazymatch st with
        | s => fail
        | _ => assert (Hp : position st a
                            = default emptyPosition (positions st !! a)) by reflexivity;
               cbn [positions] in Hp; rewrite lookup_insert_eq in Hp; rewrite !Hp
        end
      end.
      cbn. auto.
Qed.

Lemma reduceSponsorPosition_keeps_ledger_sound_witness :
  exists s',
    _reduceSponsorPosition alice (units 10) (units 15) 0 lifecycle_state = Ok (tt, s') /\
    ledger_inv s' /\
    tokenCalls s' = tokenCalls lifecycle_state /\
    totalTokensOutstanding s' = totalTokensOutstanding lifecycle_state - units 10.
Proof.
  eexists. split; [vm_compute; reflexivity|].
  edestruct (reduceSponsorPosition_keeps_ledger_sound alice (units 10) (units 15) 0
               lifecycle_state) as (H1 & H2 & H3 & _).
  - apply reachable_inv.
    eapply final_reachable; [apply genesis_reachable | vm_compute; reflexivity].
  - vm_compute. reflexivity.
  - auto.
Defined.

(** ** The oracle price *)

(** X17.  [_getOraclePrice] reverts with "Unresolved oracle price" exactly
    when the oracle has no price for the request; otherwise it returns the
    oracle's [int256] price with negative prices replaced by zero, so the
    result lies between 0 and [2^255 - 1] and the cast to [uint256] never
    wraps around. *)
Theorem getOraclePrice_clamps_at_zero
    (oracle : OracleInterface) (priceIdentifier requestedTime : Z) :
  int256 (getPrice oracle priceIdentifier requestedTime) ->
  _getOraclePrice oracle priceIdentifier requestedTime
  = (if hasPrice oracle priceIdentifier requestedTime
     then Ok (Z.max 0 (getPrice oracle priceIdentifier requestedTime))
     else Revert "Unresolved oracle price") /\
  (forall price, _getOraclePrice oracle priceIdentifier requestedTime = Ok price ->
                 0 <= price <= 2 ^ 255 - 1).
Proof.
  intros [Hlo Hhi]. unfold _getOraclePrice.
  set (p := getPrice oracle priceIdentifier requestedTime) in *.
  assert (Hcast : uint256_of_int256 (if p <? 0 then 0 else p) = Z.max 0 p).
  { unfold uint256_of_int256. destruct (Z.ltb_spec p 0).
    - rewrite Z.max_l by lia. reflexivity.
    - rewrite Z.max_r by lia. apply Z.mod_small.
      assert (2 ^ 255 < 2 ^ 256) by (apply Z.pow_lt_mono_r; lia). lia. }
  destruct (hasPrice oracle priceIdentifier requestedTime).
  - cbv zeta. rewrite Hcast. split; [reflexivity|]. intros price [= <-].
    assert (0 < 2 ^ 255) by (apply Z.pow_pos_nonneg; lia). lia.
  - split; [reflexivity|discriminate].
Qed.

Lemma getOraclePrice_clamps_at_zero_witness :
  _getOraclePrice negative_price_oracle 7 100 = Ok 0 /\
  _getOraclePrice negative_price_oracle 7 101 = Revert "Unresolved oracle price".
Proof.
  split.
  - apply (getOraclePrice_clamps_at_zero negative_price_oracle 7 100).
    unfold int256. cbn. split; [|lia].
    assert (0 < 2 ^ 255) by (apply Z.pow_pos_nonneg; lia). lia.
  - apply (getOraclePrice_clamps_at_zero negative_price_oracle 7 101).
    unfold int256. cbn. split; [|lia].
    assert (0 < 2 ^ 255) by (apply Z.pow_pos_nonneg; lia). lia.
Defined.

(** ** The collateral on which fees are charged, and the pending-withdrawal check *)



(** X19.  [_positionHasNoPendingWithdrawal] acts identically to the
    [noPendingWithdrawal] modifier: on every state the two give the same
    outcome.  It never changes the storage; it passes exactly when the
    sponsor's position holds collateral and has no withdrawal request
    pending, and for a position with collateral and a pending request it
    fails with "Pending withdrawal". *)
Theorem positionHasNoPendingWithdrawal_acts_as_modifier (sponsor : address) (s : State) :
  _positionHasNoPendingWithdrawal sponsor s = noPendingWithdrawal sponsor s /\
  (_positionHasNoPendingWithdrawal sponsor s = Ok (tt, s) <->
   collateralized s sponsor /\ withdrawalRequestPassTimestamp (position s sponsor) = 0) /\
  (forall r s', _positionHasNoPendingWithdrawal sponsor s = Ok (r, s') -> s' = s) /\
  (collateralized s sponsor ->
   withdrawalRequestPassTimestamp (position s sponsor) <> 0 ->
   _positionHasNoPendingWithdrawal sponsor s = Revert "Pending withdrawal").
Proof.
  assert (Heq : _positionHasNoPendingWithdrawal sponsor s = noPendingWithdrawal sponsor s)
    by reflexivity.
  split; [exact Heq|]. rewrite Heq. split; [|split].
  - split.
    + intros H. apply noPendingWithdrawal_Ok in H as (_ & Hts & Hc). split; assumption.
    + intros [(c & Hc & Hpos) Hts]. eapply noPendingWithdrawal_run; eassumption.
  - intros r s' H. apply noPendingWithdrawal_Ok in H as (-> & _). reflexivity.
  - intros Hc Hts.
    destruct (noPendingWithdrawal_pending sponsor s Hts) as (msg & Hrev & Hmsg).
    rewrite Hrev, (Hmsg Hc). reflexivity.
Qed.

Lemma positionHasNoPendingWithdrawal_acts_as_modifier_witness :
  _positionHasNoPendingWithdrawal alice lifecycle_state = Ok (tt, lifecycle_state) /\
  _positionHasNoPendingWithdrawal alice pending_state = Revert "Pending withdrawal".
Proof.
  split.
  - apply (positionHasNoPendingWithdrawal_acts_as_modifier alice lifecycle_state).
    split; [|vm_compute; reflexivity].
    exists (units 150). split; [vm_compute; reflexivity | reflexivity].
  - apply (positionHasNoPendingWithdrawal_acts_as_modifier alice pending_state).
    + exists (units 150). split; [vm_compute; reflexivity | reflexivity].
    + vm_compute. discriminate.
Defined.

(** ** Opening and closing a position *)

Lemma addCollateral_unit s raw c :
  cumulativeFeeMultiplier s = FixedPoint.FP_SCALING_FACTOR ->
  0 <= c ->
  (raw + c) * FixedPoint.FP_SCALING_FACTOR <= MAX_UINT256 ->
  raw * FixedPoint.FP_SCALING_FACTOR <= MAX_UINT256 ->
  c * FixedPoint.FP_SCALING_FACTOR <= MAX_UINT256 ->
  _addCollateral s raw c = Ok (mkCounterUpdate (raw + c) c).
Proof.
  intros Hu Hc Hmax Hraw HcS. pose proof FP_SCALING_FACTOR_pos as HS.
  unfold _addCollateral.
  assert (E1 : _getFeeAdjustedCollateral s raw = Ok raw).
  { apply getFeeAdjustedCollateral_Ok. rewrite Hu. split; [exact Hraw|].
    symmetry. apply Z.div_mul. lia. }
  assert (E2 : _convertToRawCollateral s c = Ok c).
  { apply convertToRawCollateral_Ok. rewrite Hu. repeat split; [lia|exact HcS|].
    symmetry. apply Z.div_mul. lia. }
  assert (E3 : FixedPoint.add raw c = Ok (raw + c)).
  { apply FixedPoint_add_Ok. split; [nia|reflexivity]. }
  assert (E4 : _getFeeAdjustedCollateral s (raw + c) = Ok (raw + c)).
  { apply getFeeAdjustedCollateral_Ok. rewrite Hu. split; [exact Hmax|].
    symmetry. apply Z.div_mul. lia. }
  assert (E5 : FixedPoint.sub (raw + c) raw = Ok c).
  { apply FixedPoint_sub_Ok. split; [lia|lia]. }
  rewrite E1, E2, E3, E4, E5. reflexivity.
Qed.

(** X20.  The first [create] on a freshly constructed ledger, for a
    collateral amount whose fixed-point conversion does not overflow and a
    token amount in range.  Below [minSponsorTokens] it is rejected with
    "Below minimum sponsor position".  Otherwise its fate is that of its
    two token calls: it reverts with the transfer failure when pulling the
    collateral from the caller fails, with "Minting synthetic tokens failed"
    when [mint] returns [false], and with the mint failure when [mint]
    reverts; when both go through it succeeds, the caller's position holds
    exactly the tokens and the collateral of the call, the two global
    counters equal them, and the log holds the two calls. *)
Theorem first_create_on_fresh_ledger
    (a : address) (liveness minTokens expiry startTime c n : Z)
    (tokens : TokenCall -> TokenOutcome) :
  0 <= c -> c * FixedPoint.FP_SCALING_FACTOR <= MAX_UINT256 ->
  0 <= n <= MAX_UINT256 ->
  create a c n (initial liveness minTokens expiry startTime tokens)
  = if minTokens <=? n
    then match tokens (collateral_safeTransferFrom a c) with
         | token_succeeds =>
             match tokens (tokenCurrency_mint a n) with
             | token_succeeds =>
                 Ok (tt, mkState {[ a := mkPositionData n 0 0 c 0 ]} n c
                                 liveness minTokens expiry
                                 FixedPoint.FP_SCALING_FACTOR startTime
                                 [collateral_safeTransferFrom a c; tokenCurrency_mint a n]
                                 tokens)
             | token_returns_false => Revert "Minting synthetic tokens failed"
             | token_reverts => Revert "MintFailed"
             end
         | _ => Revert "TransferFailed"
         end
    else Revert "Below minimum sponsor position".
Proof.
  intros Hc HcS Hn. pose proof FP_SCALING_FACTOR_pos as HS.
  set (s := initial liveness minTokens expiry startTime tokens).
  assert (Hp : position s a = emptyPosition).
  { unfold position, s. cbn [positions initial]. rewrite lookup_empty. reflexivity. }
  assert (HcM : c <= MAX_UINT256) by nia.
  assert (Hratio : exists q, _getCollateralizationRatio c n = Ok q /\ 0 <= q).
  { unfold _getCollateralizationRatio, FixedPoint.isGreaterThan.
    destruct (Z.ltb_spec 0 n); cbn [negb].
    - eexists. split.
      + apply FixedPoint_div_Ok. repeat split; [lia|exact HcS].
      + apply Z.div_pos; [nia|lia].
    - rewrite fromUnscaledUint_0. exists 0. split; [reflexivity|lia]. }
  destruct Hratio as (q & Hq & Hq0).
  assert (Hcheck : _checkCollateralization c n s = Ok (true, s)).
  { rewrite (checkCollateralization_run c n s 0 0 q); [| reflexivity | reflexivity | exact Hq].
    unfold FixedPoint.isGreaterThan. destruct (Z.ltb_spec q 0); [lia|reflexivity]. }
  unfold create.
  rewrite (bind_run _ _ s tt s) by reflexivity.
  rewrite (bind_run _ _ s s s) by reflexivity.
  rewrite Hp. cbn [rawCollateral tokensOutstanding withdrawalRequestPassTimestamp emptyPosition].
  rewrite (bind_run _ _ s 0 s) by reflexivity.
  rewrite (bind_run _ _ s c s)
    by (unfold lift; rewrite (proj2 (FixedPoint_add_Ok 0 c c)); [reflexivity|split; lia]).
  rewrite (bind_run _ _ s n s)
    by (unfold lift; rewrite (proj2 (FixedPoint_add_Ok 0 n n)); [reflexivity|split; lia]).
  rewrite (bind_run _ _ s true s)
    by (unfold or_else; rewrite (bind_run _ _ _ _ _ Hcheck); reflexivity).
  rewrite (bind_run _ _ s tt s) by reflexivity.
  rewrite (bind_run _ _ s tt s) by reflexivity.
  change (FixedPoint.isEqual 0 0) with true. cbv iota.
  unfold FixedPoint.isGreaterThanOrEqual. change (minSponsorTokens s) with minTokens.
  destruct (Z.leb_spec minTokens n) as [Hmin|Hmin].
  - rewrite (bind_run _ _ s tt s) by reflexivity.
    assert (Hinc : _incrementCollateralBalances a c s
                   = Ok (c, set_rawTotalPositionCollateral c
                              (set_positions (insert a (with_rawCollateral c emptyPosition)) s))).
    { unfold _incrementCollateralBalances.
      rewrite (bind_run _ _ s s s) by reflexivity.
      rewrite Hp. cbn [rawCollateral emptyPosition].
      rewrite (bind_run _ _ s (mkCounterUpdate (0 + c) c) s)
        by (unfold lift; rewrite addCollateral_unit; [reflexivity|reflexivity|lia|lia|lia|lia]).
      unfold bind, update_position, get, lift, put, ret.
      rewrite (addCollateral_ext _ s) by reflexivity.
      cbn [rawTotalPositionCollateral set_positions].
      change (rawTotalPositionCollateral s) with 0.
      rewrite addCollateral_unit; [|reflexivity|lia|lia|lia|lia].
      cbn [newRawValue returnedAmount]. rewrite Hp. reflexivity. }
    rewrite (bind_run _ _ _ _ _ Hinc).
    unfold external_call, token_call, bind, get, lift, update_position, put, require, ret.
    norm_state.
    cbn [tokensOutstanding withdrawalRequestPassTimestamp withdrawalRequestAmount
         transferPositionRequestPassTimestamp emptyPosition].
    rewrite (proj2 (FixedPoint_add_Ok 0 n n)) by (split; lia).
    norm_state. change (totalTokensOutstanding s) with 0.
    rewrite (proj2 (FixedPoint_add_Ok 0 n n)) by (split; lia).
    match goal with
    | |- context [tokenOutcome ?st] => change (tokenOutcome st) with tokens
    end.
    destruct (tokens (collateral_safeTransferFrom a c)); try reflexivity.
    cbv beta iota.
    match goal with
    | |- context [tokenOutcome ?st] => change (tokenOutcome st) with tokens
    end.
    destruct (tokens (tokenCurrency_mint a n)); try reflexivity.
    cbv beta iota. do 2 f_equal. apply State_ext; norm_state; try reflexivity.
  - reflexivity.
Qed.

Lemma first_create_on_fresh_ledger_witness :
  create alice (units 150) (units 100) genesis
  = Ok (tt, mkState {[ alice := mkPositionData (units 100) 0 0 (units 150) 0 ]}
                    (units 100) (units 150) 1000 (units 10) 1000000
                    FixedPoint.FP_SCALING_FACTOR 0
                    [collateral_safeTransferFrom alice (units 150);
                     tokenCurrency_mint alice (units 100)] accepting) /\
  create alice (units 150) (units 9) genesis = Revert "Below minimum sponsor position" /\
  create alice (units 150) (units 100)
    (initial 1000 (units 10) 1000000 0
       (fun c => match c with
                 | tokenCurrency_mint _ _ => token_returns_false
                 | _ => token_succeeds
                 end))
  = Revert "Minting synthetic tokens failed".
Proof.
  split; [|split].
  - apply (first_create_on_fresh_ledger alice 1000 (units 10) 1000000 0 (units 150) (units 100)
             accepting);
      vm_compute; try split; discriminate.
  - apply (first_create_on_fresh_ledger alice 1000 (units 10) 1000000 0 (units 150) (units 9)
             accepting);
      vm_compute; try split; discriminate.
  - apply (first_create_on_fresh_ledger alice 1000 (units 10) 1000000 0 (units 150) (units 100));
      vm_compute; try split; discriminate.
Defined.

(** X21.  Opening a position and redeeming all its tokens undoes the
    opening.  When a sponsor without a stored position creates one and then
    redeems exactly the tokens created, the positions mapping, both global
    counters and the configuration are as before the [create]; the log holds
    the token calls of the two operations; and the collateral paid back is
    at most the collateral put in, and exactly that while the fee multiplier
    is 1.0. *)
Theorem create_then_redeem_all_restores
    (a : address) (collateralAmount numTokens paid : Z) (s s1 s2 : State) (r : unit) :
  reachable s ->
  positions s !! a = None ->
  create a collateralAmount numTokens s = Ok (r, s1) ->
  redeem a numTokens s1 = Ok (paid, s2) ->
  s2 = mkState (positions s) (totalTokensOutstanding s) (rawTotalPositionCollateral s)
         (withdrawalLiveness s) (minSponsorTokens s) (expirationTimestamp s)
         (cumulativeFeeMultiplier s) (currentTime s)
         (tokenCalls s ++ [collateral_safeTransferFrom a collateralAmount;
                           tokenCurrency_mint a numTokens;
                           collateral_safeTransfer a paid;
                           tokenCurrency_safeTransferFrom a numTokens;
                           tokenCurrency_burn numTokens]) (tokenOutcome s) /\
  paid <= collateralAmount /\
  (cumulativeFeeMultiplier s = FixedPoint.FP_SCALING_FACTOR -> paid = collateralAmount).
Proof.
  intros Hr Hnone Hcreate Hredeem.
  pose proof (reachable_inv s Hr) as Hinv.
  assert (Hp : position s a = emptyPosition) by (unfold position; rewrite Hnone; reflexivity).
  apply create_Ok in Hcreate as (_ & _ & _ & _ & fa & d & _ & _ & Hd & Hmax & ->).
  rewrite Hp in *. cbn [tokensOutstanding rawCollateral emptyPosition] in *.
  match type of Hredeem with redeem _ _ ?st = _ => set (s1 := st) in * end.
  assert (Hp1 : position s1 a
                = with_tokensOutstanding (0 + numTokens) (with_rawCollateral (0 + d) emptyPosition)).
  { unfold position, s1. cbn [positions]. rewrite lookup_insert_eq. reflexivity. }
  apply redeem_Ok in Hredeem as (_ & _ & _ & _ & [Hfull | Hpart]).
  - destruct Hfull as (_ & _ & _ & _ & Hpaid & ->).
    rewrite Hp1 in *. cbn in Hpaid.
    rewrite !(adjustedCollateral_ext s1 s) in Hpaid by reflexivity.
    replace (rawTotalPositionCollateral s + d - (0 + d))
      with (rawTotalPositionCollateral s) in Hpaid by lia.
    assert (Hm : 0 < cumulativeFeeMultiplier s <= FixedPoint.FP_SCALING_FACTOR).
    { apply convertToRawCollateral_Ok in Hd as (Hnz & _).
      pose proof (inv_multiplier s Hinv). lia. }
    destruct (deposit_flow s collateralAmount d Hm (inv_total s Hinv) Hd Hmax) as [Hle Heq].
    split; [|split].
    + apply State_ext; cbn; try reflexivity; try lia.
      * apply delete_insert_id. exact Hnone.
      * rewrite <- app_assoc. reflexivity.
    + lia.
    + intros Hu. specialize (Heq Hu). lia.
  - destruct Hpart as (Hne & _). rewrite Hp1 in Hne. cbn in Hne. lia.
Qed.

Lemma create_then_redeem_all_restores_witness :
  positions (final [ transaction bob (call_create (units 200) (units 100));
                     transaction bob (call_redeem (units 100)) ] lifecycle_state)
  = positions lifecycle_state /\
  rawTotalPositionCollateral
    (final [ transaction bob (call_create (units 200) (units 100));
             transaction bob (call_redeem (units 100)) ] lifecycle_state)
  = rawTotalPositionCollateral lifecycle_state.
Proof.
  assert (Hr : reachable lifecycle_state)
    by (eapply final_reachable; [apply genesis_reachable | vm_compute; reflexivity]).
  assert (Hnone : positions lifecycle_state !! bob = None) by (vm_compute; reflexivity).
  assert (Hcreate : create bob (units 200) (units 100) lifecycle_state
                    = Ok (tt, final [ transaction bob (call_create (units 200) (units 100)) ]
                                lifecycle_state))
    by (vm_compute; reflexivity).
  assert (Hredeem : redeem bob (units 100)
                      (final [ transaction bob (call_create (units 200) (units 100)) ]
                         lifecycle_state)
                    = Ok (units 200,
                          final [ transaction bob (call_create (units 200) (units 100));
                                  transaction bob (call_redeem (units 100)) ] lifecycle_state))
    by (vm_compute; reflexivity).
  destruct (create_then_redeem_all_restores bob (units 200) (units 100) (units 200)
              lifecycle_state _ _ tt Hr Hnone Hcreate Hredeem) as (Heq & _ & _).
  rewrite Heq. split; reflexivity.
Defined.

(** ** Precision of the amounts paid out *)

Lemma removal_flow s amount d :
  0 < cumulativeFeeMultiplier s <= FixedPoint.FP_SCALING_FACTOR ->
  rawTotalPositionCollateral s * cumulativeFeeMultiplier s <= MAX_UINT256 ->
  _convertToRawCollateral s amount = Ok d ->
  (rawTotalPositionCollateral s - d) * cumulativeFeeMultiplier s <= MAX_UINT256 ->
  amount - 1
  <= adjustedCollateral s (rawTotalPositionCollateral s)
     - adjustedCollateral s (rawTotalPositionCollateral s - d)
  <= amount /\
  (cumulativeFeeMultiplier s = FixedPoint.FP_SCALING_FACTOR ->
   adjustedCollateral s (rawTotalPositionCollateral s)
   - adjustedCollateral s (rawTotalPositionCollateral s - d) = amount).
Proof.
  intros Hm HT Hd HTd. pose proof FP_SCALING_FACTOR_pos as HS.
  apply convertToRawCollateral_Ok in Hd as (_ & _ & ->).
  destruct (adjustedCollateral_value s _ HT) as [_ ->].
  destruct (adjustedCollateral_value s _ HTd) as [_ ->].
  set (T := rawTotalPositionCollateral s) in *.
  set (m := cumulativeFeeMultiplier s) in *.
  set (S := FixedPoint.FP_SCALING_FACTOR) in *.
  set (d := amount * S / m).
  assert (Hfloor : m * d <= amount * S) by (apply Z.mul_div_le; lia).
  assert (Hceil : amount * S < m * Z.succ d) by (apply Z.mul_succ_div_gt; lia).
  split; [split|].
  - assert (Hle : (T - d) * m <= T * m + (- (amount - 1)) * S) by lia.
    apply (Z.div_le_mono _ _ S) in Hle; [|lia].
    rewrite Z.div_add in Hle by lia. lia.
  - assert (Hle : T * m + (- amount) * S <= (T - d) * m) by lia.
    apply (Z.div_le_mono _ _ S) in Hle; [|lia].
    rewrite Z.div_add in Hle by lia. lia.
  - intros Hu.
    assert (d = amount) as -> by (unfold d; rewrite Hu; apply Z.div_mul; lia).
    rewrite Hu, !Z.div_mul by lia. lia.
Qed.

(** X22.  Precision of [withdraw].  From a reachable state a successful
    [withdraw] of [collateralAmount] pays the caller at most
    [collateralAmount] and at least [collateralAmount] minus one raw unit,
    and exactly [collateralAmount] while the fee multiplier is 1.0. *)
Theorem withdraw_pays_requested_amount_up_to_one_unit
    (a : address) (collateralAmount paid : Z) (s s' : State) :
  reachable s ->
  withdraw a collateralAmount s = Ok (paid, s') ->
  collateralAmount - 1 <= paid <= collateralAmount /\
  (cumulativeFeeMultiplier s = FixedPoint.FP_SCALING_FACTOR -> paid = collateralAmount).
Proof.
  intros Hr H. pose proof (reachable_inv s Hr) as Hinv.
  apply withdraw_Ok in H as (_ & _ & _ & d & Hd & _ & _ & Hmax & -> & _).
  apply removal_flow; try assumption.
  - apply convertToRawCollateral_Ok in Hd as (Hnz & _).
    pose proof (inv_multiplier s Hinv). lia.
  - apply (inv_total s Hinv).
Qed.

Lemma withdraw_pays_requested_amount_up_to_one_unit_witness :
  exists paid s',
    withdraw bob (units 10) surplus_state = Ok (paid, s') /\
    units 10 - 1 <= paid <= units 10.
Proof.
  assert (Hr : reachable surplus_state)
    by (eapply final_reachable; [apply genesis_reachable | vm_compute; reflexivity]).
  destruct (withdraw bob (units 10) surplus_state) as [[paid s']|msg] eqn:E.
  - exists paid, s'. split; [reflexivity|].
    apply (withdraw_pays_requested_amount_up_to_one_unit bob (units 10) paid
             surplus_state s' Hr E).
  - vm_compute in E. discriminate E.
Defined.

Lemma redeem_partial_amount a n s r s' :
  redeem a n s = Ok (r, s') ->
  n <> tokensOutstanding (position s a) ->
  exists fa d,
    _getFeeAdjustedCollateral s (rawCollateral (position s a)) = Ok fa /\ 0 < fa /\
    _convertToRawCollateral s
      (n * FixedPoint.FP_SCALING_FACTOR / tokensOutstanding (position s a) * fa
       / FixedPoint.FP_SCALING_FACTOR) = Ok d /\
    (rawTotalPositionCollateral s - d) * cumulativeFeeMultiplier s <= MAX_UINT256 /\
    r = adjustedCollateral s (rawTotalPositionCollateral s)
        - adjustedCollateral s (rawTotalPositionCollateral s - d).
Proof.
  unfold redeem. intros H Hne. inv_M. inv_helpers.
  match goal with H : FixedPoint.div _ _ = Ok _ |- _ =>
    apply FixedPoint_div_Ok in H as (_ & _ & ->) end.
  match goal with H : FixedPoint.mul _ _ = Ok _ |- _ =>
    apply FixedPoint_mul_Ok in H as (_ & ->) end.
  unfold FixedPoint.isEqual in *.
  match goal with H : (if ?b then _ else _) _ = Ok _ |- _ =>
    destruct (Z.eqb_spec (tokensOutstanding (position s a)) n) as [Heq|_] end;
    [congruence|].
  inv_M.
  match goal with H : _decrementCollateralBalances _ _ _ = Ok _ |- _ =>
    apply decrementCollateralBalances_Ok in H as (d & Hd & _ & _ & Hmax & -> & _) end.
  match goal with H : exists c, _ /\ 0 < c |- _ => destruct H as (fa & Hfa & Hpos) end.
  match goal with H : _getFeeAdjustedCollateral s _ = Ok ?v |- _ =>
    assert (v = fa) as -> by congruence end.
  exists fa, d. auto.
Qed.

(** X23.  Precision of [redeem].  From a reachable state, a partial
    redemption pays at most the redeemed share of the position's
    fee-adjusted collateral ([numTokens] out of [tokensOutstanding]); a full
    redemption pays the position's whole fee-adjusted collateral, or one raw
    unit more when the aggregate rounds in the sponsor's favour. *)
Theorem redeem_pays_at_most_the_redeemed_share
    (a : address) (numTokens paid : Z) (s s' : State) :
  reachable s ->
  redeem a numTokens s = Ok (paid, s') ->
  (numTokens <> tokensOutstanding (position s a) ->
   paid * tokensOutstanding (position s a)
   <= numTokens * adjustedCollateral s (rawCollateral (position s a))) /\
  (numTokens = tokensOutstanding (position s a) ->
   adjustedCollateral s (rawCollateral (position s a))
   <= paid <= adjustedCollateral s (rawCollateral (position s a)) + 1).
Proof.
  intros Hr H. pose proof (reachable_inv s Hr) as Hinv.
  pose proof FP_SCALING_FACTOR_pos as HS.
  pose proof (inv_multiplier s Hinv) as Hm.
  split.
  - intros Hne.
    pose proof (redeem_partial_amount a numTokens s paid s' H Hne)
      as (fa & d & Hfa & Hpos & Hd & Hmax & ->).
    apply redeem_Ok in H as (_ & _ & _ & Hnz & _).
    destruct (inv_positions s Hinv a) as (_ & Htok & _).
    assert (Ht : 0 < tokensOutstanding (position s a)) by lia.
    unfold adjustedCollateral at 3. rewrite Hfa.
    set (t := tokensOutstanding (position s a)) in *.
    set (S := FixedPoint.FP_SCALING_FACTOR) in *.
    set (q := numTokens * S / t) in *.
    set (cr := q * fa / S) in *.
    assert (Hflow : adjustedCollateral s (rawTotalPositionCollateral s)
                    - adjustedCollateral s (rawTotalPositionCollateral s - d) <= cr).
    { apply removal_flow; try assumption.
      - apply convertToRawCollateral_Ok in Hd as (Hnz' & _). lia.
      - apply (inv_total s Hinv). }
    assert (Hq : t * q <= numTokens * S) by (apply Z.mul_div_le; lia).
    assert (Hcr : S * cr <= q * fa) by (apply Z.mul_div_le; lia).
    assert (cr * t <= numTokens * fa); [|nia].
    apply (Z.mul_le_mono_pos_l _ _ S); [lia|]. nia.
  - intros Heq.
    apply redeem_Ok in H as (_ & _ & _ & _ & [Hfull | Hpart]);
      [|destruct Hpart as (Hne & _); contradiction].
    destruct Hfull as (_ & Hle & Hmax & _ & -> & _).
    destruct (adjustedCollateral_value s _ (inv_total s Hinv)) as [_ ->].
    destruct (adjustedCollateral_value s _ Hmax) as [_ ->].
    destruct (adjustedCollateral_value s _ (ledger_inv_position_adjustable s a Hinv)) as [_ ->].
    set (T := rawTotalPositionCollateral s) in *.
    set (raw := rawCollateral (position s a)) in *.
    set (m := cumulativeFeeMultiplier s) in *.
    set (S := FixedPoint.FP_SCALING_FACTOR) in *.
    set (x := (T - raw) * m). set (y := raw * m).
    replace (T * m) with (x + y) by (unfold x, y; lia).
    pose proof (Z.mul_div_le x S HS). pose proof (Z.mul_succ_div_gt x S HS).
    pose proof (Z.mul_div_le y S HS). pose proof (Z.mul_succ_div_gt y S HS).
    assert (x / S + y / S <= (x + y) / S) by (apply Z.div_le_lower_bound; lia).
    assert ((x + y) / S < x / S + y / S + 2) by (apply Z.div_lt_upper_bound; lia).
    lia.
Qed.

Lemma redeem_pays_at_most_the_redeemed_share_witness :
  exists paid s',
    redeem bob (units 30) surplus_state = Ok (paid, s') /\
    paid * tokensOutstanding (position surplus_state bob)
    <= units 30 * adjustedCollateral surplus_state (rawCollateral (position surplus_state bob)).
Proof.
  assert (Hr : reachable surplus_state)
    by (eapply final_reachable; [apply genesis_reachable | vm_compute; reflexivity]).
  destruct (redeem bob (units 30) surplus_state) as [[paid s']|msg] eqn:E.
  - exists paid, s'. split; [reflexivity|].
    apply (redeem_pays_at_most_the_redeemed_share bob (units 30) paid surplus_state s' Hr E).
    vm_compute. discriminate.
  - vm_compute in E. discriminate E.
Defined.

(** ** Requests and the expiration timestamp *)

(** X24.  Only transfer requests are bound by the expiration timestamp.
    For a sponsor with collateral and no transfer request pending,
    [requestTransferPosition] is rejected with "Request expires post-expiry"
    when the current time plus [withdrawalLiveness] is not before the
    expiration timestamp.  [requestWithdrawal] performs no such check: its
    outcome is the same whatever the expiration timestamp is. *)
Theorem only_transfer_requests_check_expiry
    (a : address) (collateralAmount expiry : Z) (s : State) :
  collateralized s a ->
  transferPositionRequestPassTimestamp (position s a) = 0 ->
  currentTime s + withdrawalLiveness s <= MAX_UINT256 ->
  (expirationTimestamp s <= currentTime s + withdrawalLiveness s ->
   requestTransferPosition a s = Revert "Request expires post-expiry") /\
  requestWithdrawal a collateralAmount (set_expirationTimestamp expiry s)
  = match requestWithdrawal a collateralAmount s with
    | Ok (r, s') => Ok (r, set_expirationTimestamp expiry s')
    | Revert msg => Revert msg
    end.
Proof.
  intros Hc Hts Hadd. split.
  - intros Hexp. unfold requestTransferPosition.
    rewrite (bind_run _ _ _ _ _ (collateralized_run s a Hc)).
    rewrite (bind_run _ _ s _ s) by reflexivity.
    rewrite (bind_run _ _ s tt s) by (unfold require; rewrite Hts; reflexivity).
    rewrite (bind_run _ _ s _ s) by reflexivity.
    rewrite (bind_run _ _ s _ s) by reflexivity.
    rewrite (bind_run _ _ s (currentTime s + withdrawalLiveness s) s)
      by (unfold lift; rewrite (proj2 (SafeMath_add_Ok _ _ _) (conj Hadd eq_refl)); reflexivity).
    rewrite (bind_run _ _ s _ s) by reflexivity.
    apply bind_revert. unfold require.
    apply Z.ltb_ge in Hexp. rewrite Hexp. reflexivity.
  - unfold requestWithdrawal, noPendingWithdrawal, _getPositionData, onlyCollateralizedPosition,
      and_then, bind, get, lift, require, read, ret, getCurrentTime, update_position.
    unfold _getFeeAdjustedCollateral.
    repeat (cbv beta iota;
            change (position (set_expirationTimestamp expiry s) a) with (position s a);
            cbn [cumulativeFeeMultiplier currentTime withdrawalLiveness set_expirationTimestamp];
            try match goal with
                | |- context [match ?x with _ => _ end] =>
                    lazymatch x with
                    | FixedPoint.mul _ _ => destruct x as [?fa|]
                    | SafeMath_add _ _ => destruct x as [?t|]
                    | FixedPoint.isGreaterThan _ _ => destruct x
                    | FixedPoint.isLessThanOrEqual _ _ => destruct x
                    | (_ =? _) => destruct x
                    end
                end;
            try reflexivity).
Qed.

Lemma only_transfer_requests_check_expiry_witness :
  requestTransferPosition alice (set_currentTime 999000 lifecycle_state)
    = Revert "Request expires post-expiry" /\
  requestWithdrawal alice (units 20)
    (set_expirationTimestamp 0 (set_currentTime 999000 lifecycle_state))
  = Ok (tt, set_expirationTimestamp 0
              (after (transaction alice (call_requestWithdrawal (units 20)))
                 (set_currentTime 999000 lifecycle_state))).
Proof.
  destruct (only_transfer_requests_check_expiry alice (units 20) 0
              (set_currentTime 999000 lifecycle_state)) as [Htransfer Hwithdrawal].
  - exists (units 150). split; [vm_compute; reflexivity | reflexivity].
  - vm_compute. reflexivity.
  - vm_compute. discriminate.
  - split.
    + apply Htransfer. vm_compute. discriminate.
    + rewrite Hwithdrawal. vm_compute. reflexivity.
Defined.
